(* ===== verification/_CoqProject ===== *)
-Q . S2P
Prelude.v
Utf8.v
Config.v
ViewAdder.v
Counters.v
Dispatch.v
ProxyRegex.v
ProxyScraper.v
StatusMessage.v
BotUrl.v
Bot.v
