(* ===== verification/Prelude.v ===== *)
(** * ViewsBot: a verification development of ikaayuxd/ViewsBot

    ** The program

    ViewsBot is a Telegram bot (Python, [src/]) in four files:
    - [src/config.py]: constants ([THREAD_COUNT], [TIMEOUT],
      [PROXY_SOURCES], the message templates);
    - [src/proxy_scrapper.py], class [ProxyScraper]: fetches four
      plain-text proxy lists ([fetch_proxy_list], a [requests.get]
      followed by [re.findall] of an [ip:port] regular expression),
      unions them into the instance set [self.proxies] and validates
      every element with [test_proxy] (a GET of [https://t.me] through
      the proxy) on a [ThreadPoolExecutor] of 50 workers, consuming the
      futures with [as_completed] ([scrape]);
    - [src/views_adder.py], class [ViewAdder]: three counters
      ([success_count], [error_count], [active_proxies]) updated by
      [add_view], one aiohttp GET through one proxy; [process_views]
      creates one asyncio task per proxy, admitted by an
      [asyncio.Semaphore(max_concurrent)], and gathers them;
      [get_stats] and [reset_stats] read and clear the counters;
    - [src/main.py]: the bot front end; [message_handler] refuses a chat
      that has an entry in [active_tasks], checks the URL with
      [validate_telegram_url] and awaits [process_views_task], which
      scrapes, stores the chat in [active_tasks], runs [process_views]
      on the single global [view_adder] and, in its [finally] clause,
      deletes the entry and calls [view_adder.reset_stats()].

    The components interact through shared objects: one global
    [ProxyScraper] whose [proxies] set lives as long as the process,
    one global [ViewAdder] whose counters every running task updates
    and every finishing task resets, and the [active_tasks] map.

    ** The library (files in dependency order)

    - [Prelude] (this file): the scope [vb_scope], the hint database
      [viewsbot], the tactics [invc] and [vb_auto], and the list, option,
      string and finite-set lemmas shared by the components (sums over a
      list updated at one index, sets built with [omap] over such a list,
      sizes of unions, the scanners [span] and [drop_prefix] on strings
      and [lspan] and [ldrop_prefix] on lists, [str.split] with one
      separator, chains sorted by a preorder).
    - [Utf8], Module [Utf8]: a Python [str] and the UTF-8 bytes that
      carry it: [utf8_decode] (rejecting ill-formed input), [utf8_encode]
      and the two round trips between them.
    - [Config], Module [Config]: the constants of [src/config.py] that the
      modelled code reads, the two message templates byte for byte.
    - [ViewAdder], Module [ViewAdder]: the record [view_adder] of the
      three counters, [add_view] with every exit of its [try] (request
      raised, status 200, other status, exception raised when leaving
      the [async with] block), [get_stats], [reset_stats] and the
      sequential schedule [process_views_seq] of [process_views].
    - [Counters], Module [Counters]: the contract between the bot and the
      [ViewAdder] as an interface (the class [StatsStore] of operations
      and the class [StatsStoreSpec] of laws), the abstract
      specification [spec_stats] of the counters, lemmas proved from the
      laws alone, and the [view_adder] instance discharging them.
    - [Dispatch], Module [Dispatch]: [process_views] as the asyncio
      program it is: a state of semaphore value, one phase per task
      ([Waiting], [Requesting], [Closing], [Done]) and the shared
      [view_adder]; a step relation [pv_step] whose steps are the
      atomic segments between the suspension points of
      [bounded_add_view]; an executable scheduler [pv_next]/[pv_run],
      run by [process_views] for [pv_rank] steps.
    - [ProxyRegex], Module [ProxyRegex]: [re.findall] of the pattern
      [\b(?:\d{1,3}\.){3}\d{1,3}:\d{1,5}\b] of [fetch_proxy_list], as the
      scanner [findall] built from [match_at] (the pattern at one
      position, with Python's [\d], [\w] and [\b] on the code points of a
      [string]), and its declarative specification [regex_match].
    - [ProxyScraper], Module [ProxyScraper]: the instance set [proxies];
      [fetch_proxy_list] (with [raise_for_status]), [test_proxy], the
      source loop [collect] (with the label [source.split('/')[-2]] and
      its [IndexError]), the validation loop [validate_loop] over the
      order in which [as_completed] yields the futures, the messages sent
      to the status callback, and [scrape] composing them.
    - [StatusMessage], Module [StatusMessage]: [update_status_message]:
      [str()] of integers, [timedelta] and its [__str__],
      [split('.')[0]], and [str.format] with named fields (the parse of
      the format string and the substitution, with their exceptions).
    - [BotUrl], Module [BotUrl]: [validate_telegram_url], [re.match] on
      the code points of the text (ASCII name class, Unicode decimal
      digits for [\d], [$] before a final newline), and the command
      filter that sends [/start] messages to [start_handler].
    - [Bot], Module [Bot]: the bot state (the globals [active_tasks],
      [view_adder], [proxy_scraper] and one handler per received
      message); the step relation [run_step] in which a handler of
      [start_handler]/[message_handler]/[process_views_task] moves from
      one suspension point to the next, and [bot_step], which adds the
      arrival of messages (the polling of [main]) and the wake-ups of
      [status_update_loop]; handlers of all chats interleave freely;
      inside [process_views] a handler holds its own semaphore and
      tasks, which move by [Dispatch.pv_step] on the shared counters;
      the executable [handler_next]/[bot_run] for concrete traces.

    ** The theorems

    - [ViewAdder]: the outcome accounting of one [add_view] (exactly one
      counter moves on every path except the exit-exception path, which
      counts an error on top of the status branch), the stats invariant
      [size active_proxies <= success_count] and [active_proxies]
      drawn from the submitted proxies, [reset_stats] clearing all
      three fields, and the closed form of the sequential schedule.
    - [Counters]: the refinement theorem: through any sequence of
      requests and resets, [get_stats] is the abstract [spec_stats] of
      the requests since the last reset.
    - [Dispatch]: the invariant of [pv_step] (semaphore value plus
      permits held equals [max_concurrent]; the shared counters equal
      the sum of the contributions of the tasks' phases), hence the
      concurrency bound; liveness (a rank that every step decreases,
      at most [3n] steps for [n] proxies, and a reachable state that
      has not completed every task can move when [max_concurrent >= 1])
      and the deadlock when it is 0; the
      refinement theorem (every terminal state reachable from
      [process_views]'s initial state has all tasks done and the
      counters of the sequential schedule, whatever the interleaving);
      and [process_views] returning those counters, or its errors.
    - [ProxyRegex]: [match_at] is exactly the pattern at one position;
      everything [findall] extracts has the proxy shape and occurs in the
      text; and the round trip: a list of well-formed entries, one per
      line, is extracted exactly.
    - [ProxyScraper]: deduplication of the sources, [scrape] returning
      exactly the members of its set whose probe answers 200 (for any
      completion order), the bounds of the progress messages, the
      proxies of earlier calls returned again, the label error, and the
      type invariant: the set only ever holds strings of proxy shape.
    - [StatusMessage]: the status text never fails to format and the
      counters can be read back from it; the uptime shown is the uptime
      truncated to whole seconds.
    - [Utf8]: decoding the encoding of scalar values gives them back,
      and encoding what a text decodes to gives the text back.
    - [BotUrl]: [validate_telegram_url] against its specification
      (digits of any script in the post number, a final newline
      included).
    - [Bot]: the invariant that every [active_tasks] entry belongs to a
      live run of its chat; dispatch only with a non-empty proxy list;
      [/start] messages only ever answered with the welcome; reachable
      traces showing overlapping runs of one chat, a cleanup removing
      another run's entry, runs of two chats corrupting each other's
      report, and a live status going backwards, all through the shared
      globals; a run alone reports the abstract statistics of its own
      requests and its live status never goes backwards; each run's
      semaphore bounds its own requests in flight by [THREAD_COUNT],
      while runs of several chats together exceed it; and liveness:
      once messages stop, every execution of the handlers' own steps is
      finite and ends with every handler returned.

    ** Bounds and fuel

    [findall] scans with fuel [length s + 1]: every round consumes at
    least one character, and [findall_fuel_enough] shows any larger
    fuel gives the same result.  [process_views] runs the scheduler for
    [pv_rank] steps, the rank of the initial state ([3n] for [n]
    proxies), which every step decreases, so the scheduler reaches a
    terminal state within it ([process_views_returns]).  The handler
    model needs no fuel: termination is the well-foundedness of its
    [run_step] under a lexicographic measure (the handlers before their
    scrape, then the awaits left, three per task of a running
    [process_views]).  The ceiling trace of [Bot] uses nine chats of 90
    proxies rather than two of 401, because building a [gset] of a few
    hundred strings by repeated union is slow under [vm_compute].
    The status loop's
    wake-ups are not bounded by the model (the real loop sleeps 3 s
    between them while requests, bounded by [TIMEOUT], complete), so
    they are left out of the termination theorem.

    ** Not modelled

    The Telegram transport (the bodies of [send_message],
    [edit_message_text], [reply_to], the polling itself) and logging are
    pure I/O; the model keeps which message is sent and, for the status
    and welcome texts, the text.  [BOT_TOKEN], [USER_AGENT] and
    [HEADERS] only feed the I/O calls.  Time is an input: the uptime of
    a status update is any number of microseconds.  A scrape is one atomic
    step of a handler: its internal awaits (the status callback) could
    let other handlers run, which matters only through the scraper's
    set, and the blocking [requests] calls inside it stop the event loop
    anyway.  The [ThreadPoolExecutor] of [scrape] is modelled only
    through the completion order it produces.  Messages without text
    ([message.text] is [None], on which [re.match] raises) are not
    modelled.  The Unicode digit table is that of Python 3.11 (Unicode
    14.0); later versions add digits.

    ** Modelling conventions

    Python integers are [nat] (counters never go below 0) or [Z] (HTTP
    statuses, [max_concurrent]); Python sets of proxies are [gset string];
    the network is an input: each request's outcome is given with the
    task that issues it, so that every theorem holds for every
    behaviour of the network.  Logging and the Telegram transport are
    not modelled (pure I/O). *)

From Stdlib Require Import Ascii String Sorted.
From stdpp Require Export base list gmap strings sets fin_sets list_numbers relations well_founded.

Declare Scope vb_scope.
Delimit Scope vb_scope with vb.

Create HintDb viewsbot discriminated.
Create Rewrite HintDb viewsbot_rw.

(** ** Tactics *)

Ltac invc H := inversion H; subst; clear H.

Ltac vb_auto := eauto with viewsbot.

(** ** Options as finite sets *)

Definition oset {A} `{Countable A} (o : option A) : gset A :=
  match o with Some a => {[a]} | None => ∅ end.

Arguments oset {_ _ _} !_ /.

Notation "'⌜' o '⌝ₛ'" := (oset o) (format "⌜ o ⌝ₛ") : vb_scope.

Open Scope vb_scope.

(** ** Lists updated at one index *)

Section ListInsert.
Context {A : Type}.

Lemma insert_as_app (l : list A) i x y :
  l !! i = Some y ->
  l = take i l ++ y :: drop (S i) l /\
  <[i:=x]> l = take i l ++ x :: drop (S i) l.
Proof.
  intros Hi. split; [by rewrite take_drop_middle|].
  apply insert_take_drop. by eapply lookup_lt_Some.
Qed.

Lemma sum_list_with_insert (f : A -> nat) (l : list A) i x y :
  l !! i = Some y ->
  sum_list_with f (<[i:=x]> l) + f y = sum_list_with f l + f x.
Proof.
  intros Hi. destruct (insert_as_app l i x y Hi) as [Hl Hl'].
  rewrite Hl'. remember (take i l) as t. remember (drop (S i) l) as d.
  rewrite Hl, !sum_list_with_app; simpl; lia.
Qed.

Lemma list_to_set_omap_insert `{Countable B} (f : A -> option B) (l : list A) i x y :
  l !! i = Some y ->
  (list_to_set (omap f (<[i:=x]> l)) : gset B) ∪ ⌜f y⌝ₛ =
  list_to_set (omap f l) ∪ ⌜f x⌝ₛ.
Proof.
  intros Hi. destruct (insert_as_app l i x y Hi) as [Hl Hl'].
  rewrite Hl'. remember (take i l) as t. remember (drop (S i) l) as d.
  rewrite Hl, !omap_app; simpl; rewrite !list_to_set_app_L.
  destruct (f x), (f y); simpl; set_solver.
Qed.

Lemma list_to_set_omap_insert_None `{Countable B} (f : A -> option B) (l : list A) i x y :
  l !! i = Some y -> f y = None ->
  (list_to_set (omap f (<[i:=x]> l)) : gset B) = list_to_set (omap f l) ∪ ⌜f x⌝ₛ.
Proof.
  intros Hi Hy. rewrite <- (list_to_set_omap_insert f l i x y Hi), Hy; simpl.
  set_solver.
Qed.

Lemma list_to_set_omap_insert_same `{Countable B} (f : A -> option B) (l : list A) i x y :
  l !! i = Some y -> f y = f x ->
  (list_to_set (omap f (<[i:=x]> l)) : gset B) = list_to_set (omap f l).
Proof.
  intros Hi Hy. destruct (insert_as_app l i x y Hi) as [Hl Hl'].
  rewrite Hl'. remember (take i l) as t. remember (drop (S i) l) as d.
  rewrite Hl, !omap_app; simpl; rewrite Hy; done.
Qed.

Lemma sum_list_with_zero (f : A -> nat) (l : list A) :
  Forall (fun x => f x = 0) l -> sum_list_with f l = 0.
Proof. induction 1 as [|x l Hx _ IH]; simpl; [done|]. rewrite Hx, IH. done. Qed.

Lemma omap_all_None {B} (f : A -> option B) (l : list A) :
  Forall (fun x => f x = None) l -> omap f l = [].
Proof. induction 1 as [|x l Hx _ IH]; simpl; [done|]. by rewrite Hx. Qed.

Lemma sum_list_with_pos (f : A -> nat) (l : list A) :
  0 < sum_list_with f l -> exists i x, l !! i = Some x /\ 0 < f x.
Proof.
  induction l as [|x l IH]; simpl; [lia|]. intros Hs.
  destruct (decide (0 < f x)) as [Hx|Hx]; [by exists 0, x|].
  destruct IH as (i & y & Hi & Hy); [lia|]. by exists (S i), y.
Qed.

Lemma Forall_lookup_intro (P : A -> Prop) (l : list A) :
  (forall i x, l !! i = Some x -> P x) -> Forall P l.
Proof. intros H. by apply Forall_lookup. Qed.

Lemma Forall_insert_lookup (P : A -> Prop) (l : list A) i x :
  Forall P l -> P x -> Forall P (<[i:=x]> l).
Proof. intros Hl Hx. by apply Forall_insert. Qed.
End ListInsert.

(** ** Chains ordered by a preorder, grown at the end *)

Section Chains.
Context {A : Type} (R : relation A) `{!PreOrder R}.

Lemma StronglySorted_snoc_inv l b :
  StronglySorted R (l ++ [b]) -> StronglySorted R l /\ Forall (fun x => R x b) l.
Proof.
  induction l as [|x l IH]; simpl; intros H.
  { split; constructor. }
  apply StronglySorted_inv in H as [H Hx]. destruct (IH H) as [Hl Hb].
  apply Forall_app in Hx as [Hx Hxb]. apply Forall_cons_1 in Hxb as [Hxb _].
  split; [by constructor|by constructor].
Qed.

Lemma StronglySorted_snoc l b :
  StronglySorted R l -> Forall (fun x => R x b) l -> StronglySorted R (l ++ [b]).
Proof.
  induction l as [|x l IH]; simpl; intros Hl Hb.
  { repeat constructor. }
  apply StronglySorted_inv in Hl as [Hl Hx]. apply Forall_cons_1 in Hb as [Hxb Hb].
  constructor; [by apply IH|]. apply Forall_app. split; [done|by constructor].
Qed.

Lemma StronglySorted_snoc_mono l b b' :
  StronglySorted R (l ++ [b]) -> R b b' -> StronglySorted R (l ++ [b']).
Proof.
  intros H Hbb. destruct (StronglySorted_snoc_inv l b H) as [Hl Hb].
  apply StronglySorted_snoc; [done|]. eapply Forall_impl; [exact Hb|]. intros x Hx. by transitivity b.
Qed.

Lemma StronglySorted_snoc_dup l b :
  StronglySorted R (l ++ [b]) -> StronglySorted R ((l ++ [b]) ++ [b]).
Proof.
  intros H. apply StronglySorted_snoc; [done|].
  destruct (StronglySorted_snoc_inv l b H) as [_ Hb]. apply Forall_app. split; [done|].
  constructor; [reflexivity|constructor].
Qed.
End Chains.

(** ** Strings *)

Lemma string_app_nil_l (a : string) : String.append EmptyString a = a.
Proof. reflexivity. Qed.

Lemma string_app_cons (c : ascii) (a b : string) :
  String.append (String c a) b = String c (String.append a b).
Proof. reflexivity. Qed.

Lemma string_app_assoc (a b c : string) :
  String.append (String.append a b) c = String.append a (String.append b c).
Proof. induction a as [|x a IH]; [done|]. by rewrite !string_app_cons, IH. Qed.

Lemma string_app_nil_r (a : string) : String.append a EmptyString = a.
Proof. induction a as [|x a IH]; [done|]. by rewrite string_app_cons, IH. Qed.

Lemma string_length_app (a b : string) :
  String.length (String.append a b) = String.length a + String.length b.
Proof. induction a as [|x a IH]; [done|]. rewrite string_app_cons. simpl. by rewrite IH. Qed.

#[export] Hint Rewrite string_app_nil_l string_app_cons string_app_assoc string_length_app : viewsbot_rw.

(** Scanning a string by a character class. *)

(** The longest prefix whose characters satisfy [f], and the rest. *)
Fixpoint span (f : ascii -> bool) (s : string) : string * string :=
  match s with
  | EmptyString => (EmptyString, EmptyString)
  | String c s' => if f c then let '(a, r) := span f s' in (String c a, r) else (EmptyString, s)
  end.

Fixpoint all_of (f : ascii -> bool) (s : string) : bool :=
  match s with EmptyString => true | String c s' => f c && all_of f s' end.

Definition head_is (f : ascii -> bool) (r : string) : bool :=
  match r with String c _ => f c | EmptyString => false end.

Fixpoint drop_prefix (p s : string) : option string :=
  match p, s with
  | EmptyString, _ => Some s
  | String a p', String b s' => if Ascii.eqb a b then drop_prefix p' s' else None
  | String _ _, EmptyString => None
  end.

(** [str.split(sep)] for a one-character separator: the pieces between
    the occurrences of [sep], always at least one. *)
Fixpoint str_split_go (sep : ascii) (cur : string) (s : string) : list string :=
  match s with
  | EmptyString => [cur]
  | String c s' =>
      if Ascii.eqb c sep then cur :: str_split_go sep EmptyString s'
      else str_split_go sep (String.append cur (String c EmptyString)) s'
  end.

Definition str_split (sep : ascii) (s : string) : list string := str_split_go sep EmptyString s.

Lemma span_spec f s a r :
  span f s = (a, r) -> s = String.append a r /\ all_of f a = true /\ head_is f r = false.
Proof.
  revert a r. induction s as [|c s IH]; intros a r H; simpl in H.
  - injection H as <- <-. done.
  - destruct (f c) eqn:Hc.
    + destruct (span f s) as [a' r'] eqn:Hs. injection H as <- <-.
      destruct (IH _ _ eq_refl) as (-> & Ha & Hh). rewrite string_app_cons. simpl.
      rewrite Hc, Ha. done.
    + injection H as <- <-. simpl. rewrite Hc. done.
Qed.

Lemma span_app f a r :
  all_of f a = true -> head_is f r = false -> span f (String.append a r) = (a, r).
Proof.
  induction a as [|c a IH]; intros Ha Hr.
  - destruct r as [|c r]; simpl in *; [done|]. by rewrite Hr.
  - rewrite string_app_cons. simpl in *. apply andb_prop in Ha as [Hc Ha].
    rewrite Hc, IH by done. done.
Qed.

(** A maximal run is determined by the text it starts. *)
Lemma span_unique f a1 r1 a2 r2 :
  all_of f a1 = true -> head_is f r1 = false ->
  all_of f a2 = true -> head_is f r2 = false ->
  String.append a1 r1 = String.append a2 r2 -> a1 = a2 /\ r1 = r2.
Proof.
  intros H1 H1' H2 H2' Heq.
  pose proof (span_app _ _ _ H1 H1') as E1. rewrite Heq, span_app in E1 by done.
  by injection E1 as -> ->.
Qed.

Lemma drop_prefix_spec p s r : drop_prefix p s = Some r <-> s = String.append p r.
Proof.
  revert s. induction p as [|a p IH]; intros s; simpl.
  - split; [by intros [= ->]|by intros ->].
  - destruct s as [|b s]; [split; [discriminate|done]|].
    destruct (Ascii.eqb_spec a b) as [->|Hne].
    + rewrite IH. split; [by intros ->|by intros [= ->]].
    + split; [discriminate|]. intros [= -> _]. done.
Qed.

Lemma all_of_app f a b :
  all_of f (String.append a b) = all_of f a && all_of f b.
Proof. induction a as [|c a IH]; simpl; [done|]. by rewrite IH, andb_assoc. Qed.

Lemma all_of_impl (f g : ascii -> bool) s :
  (forall c, f c = true -> g c = true) -> all_of f s = true -> all_of g s = true.
Proof.
  intros Hfg. induction s as [|c s IH]; simpl; [done|].
  intros Hs. apply andb_prop in Hs as [Hc Hs]. by rewrite Hfg, IH.
Qed.

(** The first piece of a split is the text before the first separator. *)
Lemma str_split_go_skip sep cur a r :
  all_of (fun c => negb (Ascii.eqb c sep)) a = true ->
  head (str_split_go sep cur (String.append a r)) = head (str_split_go sep (String.append cur a) r).
Proof.
  revert cur. induction a as [|c a IH]; intros cur Ha; simpl in *.
  - by rewrite string_app_nil_r.
  - apply andb_prop in Ha as [Hc Ha]. apply negb_true_iff in Hc. rewrite Hc, IH by done.
    by rewrite string_app_assoc.
Qed.

Lemma str_split_head sep a r :
  all_of (fun c => negb (Ascii.eqb c sep)) a = true ->
  head (str_split sep (String.append a (String sep r))) = Some a.
Proof.
  intros Ha. unfold str_split. rewrite str_split_go_skip by done. simpl.
  by rewrite Ascii.eqb_refl.
Qed.

Lemma str_split_head_none sep a :
  all_of (fun c => negb (Ascii.eqb c sep)) a = true -> head (str_split sep a) = Some a.
Proof.
  intros Ha. unfold str_split. rewrite <- (string_app_nil_r a) at 1.
  rewrite str_split_go_skip by done. done.
Qed.

(** ** Sizes of finite sets built from lists *)

(** Scanning a list by a predicate: the list versions of [span] and
    [drop_prefix], for texts seen as sequences of code points. *)
Section ListScan.
Context {A : Type}.

Fixpoint lspan (f : A -> bool) (l : list A) : list A * list A :=
  match l with
  | [] => ([], [])
  | x :: l' => if f x then let '(a, r) := lspan f l' in (x :: a, r) else ([], l)
  end.

Definition lhead_is (f : A -> bool) (l : list A) : bool :=
  match l with x :: _ => f x | [] => false end.

Fixpoint ldrop_prefix `{EqDecision A} (p l : list A) : option (list A) :=
  match p, l with
  | [], _ => Some l
  | a :: p', b :: l' => if decide (a = b) then ldrop_prefix p' l' else None
  | _ :: _, [] => None
  end.

Lemma lspan_spec f l a r :
  lspan f l = (a, r) -> l = a ++ r /\ Forall (fun x => f x = true) a /\ lhead_is f r = false.
Proof.
  revert a r. induction l as [|x l IH]; intros a r H; simpl in H.
  - by injection H as <- <-.
  - destruct (f x) eqn:Hx.
    + destruct (lspan f l) as [a' r'] eqn:Hs. injection H as <- <-.
      destruct (IH _ _ eq_refl) as (-> & Ha & Hh). auto.
    + injection H as <- <-. simpl. by rewrite Hx.
Qed.

Lemma lspan_app f a r :
  Forall (fun x => f x = true) a -> lhead_is f r = false -> lspan f (a ++ r) = (a, r).
Proof.
  induction 1 as [|x a Hx _ IH]; intros Hr.
  - destruct r as [|x r]; simpl in *; [done|]. by rewrite Hr.
  - simpl. by rewrite Hx, IH.
Qed.

Lemma ldrop_prefix_spec `{EqDecision A} p l r : ldrop_prefix p l = Some r <-> l = p ++ r.
Proof.
  revert l. induction p as [|a p IH]; intros l; simpl.
  - split; [by intros [= ->]|by intros ->].
  - destruct l as [|b l]; [split; [discriminate|done]|].
    case_decide as Hab; [subst b; rewrite IH; split; [by intros ->|by intros [= ->]]|].
    split; [discriminate|]. by intros [= -> _].
Qed.
End ListScan.

Section SetSizes.
Context `{Countable A}.

Lemma size_list_to_set_le (l : list A) :
  size (list_to_set l : gset A) <= length l.
Proof.
  induction l as [|x l IH].
  - rewrite list_to_set_nil, size_empty. simpl. lia.
  - rewrite list_to_set_cons, size_union_alt, size_singleton. simpl.
    assert (size (list_to_set l ∖ {[x]} : gset A) <= size (list_to_set l : gset A))
      by (apply subseteq_size; set_solver).
    lia.
Qed.

Lemma size_union_le (X Y : gset A) : size (X ∪ Y) <= size X + size Y.
Proof.
  rewrite size_union_alt.
  assert (size (Y ∖ X) <= size Y) by (apply subseteq_size; set_solver).
  lia.
Qed.

Lemma length_elements_size (X : gset A) : length (elements X) = size X.
Proof. reflexivity. Qed.

Lemma size_union_list_le (l : list (gset A)) :
  size (⋃ l) <= sum_list_with size l.
Proof.
  induction l as [|X l IH].
  - change (size (∅ : gset A) <= 0). rewrite size_empty. lia.
  - change (size (X ∪ ⋃ l) <= size X + sum_list_with size l).
    pose proof (size_union_le X (⋃ l)). lia.
Qed.

Lemma size_union_oset_le (X : gset A) (o : option A) :
  size (X ∪ ⌜o⌝ₛ) <= size X + length (option_list o).
Proof.
  destruct o as [a|]; simpl.
  - pose proof (size_union_le X {[a]}) as Hle. rewrite size_singleton in Hle. lia.
  - replace (X ∪ ∅) with X by set_solver. lia.
Qed.
End SetSizes.

#[export] Hint Resolve size_list_to_set_le size_union_le size_union_list_le size_union_oset_le : viewsbot.
#[export] Hint Resolve Forall_insert_lookup : viewsbot.
