(* ===== verification/Utf8.v ===== *)
(** * Utf8: a Python [str] and the bytes that carry it

    A message text reaches the bot as a Python [str], a sequence of code
    points, and [re] matches its patterns against those code points.
    This development carries texts as Coq strings holding their UTF-8
    encoding, the form in which Telegram's Bot API delivers them.  This
    file holds the correspondence: [utf8_decode] recovers the code
    points of well-formed UTF-8 and rejects the rest (bad lead or
    continuation bytes, overlong forms, surrogates, values past
    U+10FFFF); [utf8_encode] encodes Unicode scalar values; the two are
    inverse ([utf8_decode_encode], [utf8_encode_decode]).  ASCII text is
    its own encoding ([cps], [utf8_encode_cps]). *)

From S2P Require Import Prelude.
From Stdlib Require Import Ascii.

Module Utf8.

(** ** Bytes and code points *)

Definition bval (a : ascii) : Z := Z.of_nat (nat_of_ascii a).

Definition chr (z : Z) : ascii := ascii_of_nat (Z.to_nat z).

Definition is_cont (a : ascii) : bool := (128 <=? bval a)%Z && (bval a <? 192)%Z.

Definition payload (a : ascii) : Z := (bval a - 128)%Z.

(** The values a [str] can hold, as far as UTF-8 is concerned. *)
Definition scalar (c : Z) : Prop := (0 <= c < 1114112)%Z /\ ~ (55296 <= c <= 57343)%Z.

(** ** Decoding *)

Fixpoint utf8_decode (s : string) : option (list Z) :=
  match s with
  | EmptyString => Some []
  | String a r =>
      let b := bval a in
      if (b <? 128)%Z then cons b <$> utf8_decode r else
      match r with
      | EmptyString => None
      | String a1 r1 =>
          if negb (is_cont a1) then None else
          if (192 <=? b)%Z && (b <? 224)%Z then
            let c := ((b - 192) * 64 + payload a1)%Z in
            if (128 <=? c)%Z then cons c <$> utf8_decode r1 else None
          else
          match r1 with
          | EmptyString => None
          | String a2 r2 =>
              if negb (is_cont a2) then None else
              if (224 <=? b)%Z && (b <? 240)%Z then
                let c := (((b - 224) * 64 + payload a1) * 64 + payload a2)%Z in
                if (2048 <=? c)%Z && negb ((55296 <=? c)%Z && (c <=? 57343)%Z)
                then cons c <$> utf8_decode r2 else None
              else
              match r2 with
              | EmptyString => None
              | String a3 r3 =>
                  if negb (is_cont a3) then None else
                  if (240 <=? b)%Z && (b <? 245)%Z then
                    let c := ((((b - 240) * 64 + payload a1) * 64 + payload a2) * 64
                              + payload a3)%Z in
                    if (65536 <=? c)%Z && (c <? 1114112)%Z
                    then cons c <$> utf8_decode r3 else None
                  else None
              end
          end
      end
  end.

(** ** Encoding *)

Definition cont_byte (z : Z) : ascii := chr (128 + z mod 64)%Z.

Definition utf8_char (c : Z) : string :=
  let q1 := (c / 64)%Z in let q2 := (q1 / 64)%Z in let q3 := (q2 / 64)%Z in
  if (c <? 128)%Z then String (chr c) EmptyString
  else if (c <? 2048)%Z then String (chr (192 + q1)) (String (cont_byte c) EmptyString)
  else if (c <? 65536)%Z then
    String (chr (224 + q2)) (String (cont_byte q1) (String (cont_byte c) EmptyString))
  else String (chr (240 + q3))
         (String (cont_byte q2) (String (cont_byte q1) (String (cont_byte c) EmptyString))).

Definition utf8_encode (l : list Z) : string := foldr (fun c s => utf8_char c +:+ s) EmptyString l.

(** The code points of an ASCII literal. *)
Fixpoint cps (s : string) : list Z :=
  match s with EmptyString => [] | String a s' => bval a :: cps s' end.

Definition is_ascii_str (s : string) : bool := all_of (fun a => (bval a <? 128)%Z) s.

(** ** Lemmas *)

Lemma bval_chr z : (0 <= z < 256)%Z -> bval (chr z) = z.
Proof. intros Hz. unfold bval, chr. rewrite nat_ascii_embedding by lia. lia. Qed.

Lemma chr_bval a : chr (bval a) = a.
Proof. unfold bval, chr. rewrite Nat2Z.id. apply ascii_nat_embedding. Qed.

Lemma bval_range a : (0 <= bval a < 256)%Z.
Proof. unfold bval. pose proof (nat_ascii_bounded a). lia. Qed.

Lemma divmod64 x p : (0 <= p < 64)%Z -> ((x * 64 + p) / 64 = x /\ (x * 64 + p) mod 64 = p)%Z.
Proof.
  intros Hp. split; [symmetry; apply Z.div_unique with p|symmetry; apply Z.mod_unique with x]; lia.
Qed.

Lemma fmap_cons_Some (c : Z) o l : cons c <$> o = Some l -> exists l', o = Some l' /\ l = c :: l'.
Proof. destruct o as [l'|]; simpl; [intros [= <-]; by exists l'|discriminate]. Qed.

Lemma utf8_encode_cons c l : utf8_encode (c :: l) = utf8_char c +:+ utf8_encode l.
Proof. done. Qed.

Lemma utf8_encode_app l1 l2 : utf8_encode (l1 ++ l2) = utf8_encode l1 +:+ utf8_encode l2.
Proof.
  induction l1 as [|c l1 IH]; simpl; [done|]. by rewrite IH, string_app_assoc.
Qed.

(** Case analysis on the comparisons of a goal, the impossible cases
    closed by [lia]. *)
Ltac zbool :=
  repeat match goal with
  | |- context [Z.ltb ?a ?b] => destruct (Z.ltb_spec a b); try (exfalso; lia)
  | |- context [Z.leb ?a ?b] => destruct (Z.leb_spec a b); try (exfalso; lia)
  end; cbn [andb orb negb].

(** Decoding the encoding of one scalar value. *)
Lemma utf8_decode_char c s :
  scalar c -> utf8_decode (utf8_char c +:+ s) = cons c <$> utf8_decode s.
Proof.
  intros [Hr Hs]. unfold utf8_char, cont_byte.
  pose proof (Z.div_mod c 64 ltac:(lia)) as E0. pose proof (Z.mod_pos_bound c 64 ltac:(lia)).
  pose proof (Z.div_mod (c / 64) 64 ltac:(lia)) as E1.
  pose proof (Z.mod_pos_bound (c / 64) 64 ltac:(lia)).
  pose proof (Z.div_mod (c / 64 / 64) 64 ltac:(lia)) as E2.
  pose proof (Z.mod_pos_bound (c / 64 / 64) 64 ltac:(lia)).
  set (q1 := (c / 64)%Z) in *. set (q2 := (q1 / 64)%Z) in *. set (q3 := (q2 / 64)%Z) in *.
  set (r0 := (c mod 64)%Z) in *. set (r1 := (q1 mod 64)%Z) in *. set (r2 := (q2 mod 64)%Z) in *.
  clearbody q1 q2 q3 r0 r1 r2.
  destruct (Z.ltb_spec c 128); [|destruct (Z.ltb_spec c 2048); [|destruct (Z.ltb_spec c 65536)]];
    rewrite ?string_app_cons, ?string_app_nil_l; cbn [utf8_decode]; unfold is_cont, payload;
    rewrite ?bval_chr by lia; zbool;
    do 2 f_equal; lia.
Qed.

Lemma utf8_decode_encode l : Forall scalar l -> utf8_decode (utf8_encode l) = Some l.
Proof.
  induction 1 as [|c l Hc _ IH]; [done|]. simpl. by rewrite utf8_decode_char, IH.
Qed.

(** The encoding of the code point a sequence of bytes decodes to is
    that sequence: the lead byte and each continuation byte are read
    back from the quotients and remainders by 64. *)
Lemma utf8_char_bytes b p1 p2 p3 :
  (0 <= p1 < 64)%Z -> (0 <= p2 < 64)%Z -> (0 <= p3 < 64)%Z ->
  ((b < 128)%Z -> (0 <= b)%Z -> utf8_char b = String (chr b) EmptyString) /\
  ((192 <= b < 224)%Z -> (128 <= (b - 192) * 64 + p1)%Z ->
   utf8_char ((b - 192) * 64 + p1) = String (chr b) (String (chr (128 + p1)) EmptyString)) /\
  ((224 <= b < 240)%Z -> (2048 <= ((b - 224) * 64 + p1) * 64 + p2)%Z ->
   utf8_char (((b - 224) * 64 + p1) * 64 + p2) =
   String (chr b) (String (chr (128 + p1)) (String (chr (128 + p2)) EmptyString))) /\
  ((240 <= b < 245)%Z -> (65536 <= (((b - 240) * 64 + p1) * 64 + p2) * 64 + p3 < 1114112)%Z ->
   utf8_char ((((b - 240) * 64 + p1) * 64 + p2) * 64 + p3) =
   String (chr b) (String (chr (128 + p1)) (String (chr (128 + p2)) (String (chr (128 + p3)) EmptyString)))).
Proof.
  intros H1 H2 H3. unfold utf8_char, cont_byte.
  destruct (divmod64 (b - 192) p1 H1) as [D1 M1].
  destruct (divmod64 (b - 224) p1 H1) as [D2 M2].
  destruct (divmod64 ((b - 224) * 64 + p1) p2 H2) as [D3 M3].
  destruct (divmod64 (b - 240) p1 H1) as [D4 M4].
  destruct (divmod64 ((b - 240) * 64 + p1) p2 H2) as [D5 M5].
  destruct (divmod64 (((b - 240) * 64 + p1) * 64 + p2) p3 H3) as [D6 M6].
  split_and!; intros; cbv zeta; zbool; try done;
    repeat first [rewrite D1|rewrite M1|rewrite D2|rewrite M2|rewrite D3|rewrite M3
                 |rewrite D4|rewrite M4|rewrite D5|rewrite M5|rewrite D6|rewrite M6];
    repeat (f_equal; try (f_equal; lia)).
Qed.

Lemma cont_payload a : is_cont a = true -> (0 <= payload a < 64)%Z /\ chr (128 + payload a) = a.
Proof.
  unfold is_cont, payload. intros H. apply andb_prop in H as [H1 H2].
  apply Z.leb_le in H1. apply Z.ltb_lt in H2. split; [lia|].
  replace (128 + (bval a - 128))%Z with (bval a) by lia. apply chr_bval.
Qed.

(** The comparisons a decoding step has tested, as facts. *)
Ltac zfacts :=
  repeat match goal with
  | H : (_ && _) = true |- _ => apply andb_prop in H as [? ?]
  | H : (_ && _) = false |- _ => apply andb_false_iff in H as [?|?]
  | H : negb _ = true |- _ => apply negb_true_iff in H
  | H : negb _ = false |- _ => apply negb_false_iff in H
  | H : (_ <? _)%Z = true |- _ => apply Z.ltb_lt in H
  | H : (_ <? _)%Z = false |- _ => apply Z.ltb_ge in H
  | H : (_ <=? _)%Z = true |- _ => apply Z.leb_le in H
  | H : (_ <=? _)%Z = false |- _ => apply Z.leb_gt in H
  | H : is_cont ?a = true |- _ => apply cont_payload in H as [? ?]
  end.

Lemma utf8_encode_decode s l : utf8_decode s = Some l -> utf8_encode l = s.
Proof.
  remember (String.length s) as n eqn:Hn. revert s l Hn.
  induction n as [n IH] using (well_founded_induction lt_wf). intros s l Hn H.
  destruct s as [|a r]; cbn [utf8_decode] in H; [by injection H as <-|].
  pose proof (bval_range a) as Ha.
  repeat (case_match; try discriminate); zfacts;
    apply fmap_cons_Some in H as (l' & Hr & ->); rewrite utf8_encode_cons;
    match type of Hr with utf8_decode ?r' = _ =>
      rewrite (IH (String.length r') ltac:(subst; simpl; lia) r' l' eq_refl Hr) end; subst;
    match goal with
    | |- context [utf8_char ((((?b - 240) * 64 + ?x) * 64 + ?y) * 64 + ?z)] =>
        rewrite (proj2 (proj2 (proj2 (utf8_char_bytes b x y z ltac:(done) ltac:(done) ltac:(done))))) by lia
    | |- context [utf8_char (((?b - 224) * 64 + ?x) * 64 + ?y)] =>
        rewrite (proj1 (proj2 (proj2 (utf8_char_bytes b x y 0 ltac:(done) ltac:(done) ltac:(lia))))) by lia
    | |- context [utf8_char ((?b - 192) * 64 + ?x)] =>
        rewrite (proj1 (proj2 (utf8_char_bytes b x 0 0 ltac:(done) ltac:(lia) ltac:(lia)))) by lia
    | |- context [utf8_char ?b] => rewrite (proj1 (utf8_char_bytes b 0 0 0 ltac:(lia) ltac:(lia) ltac:(lia))) by lia
    end;
    rewrite ?string_app_cons, ?string_app_nil_l, ?chr_bval; unfold payload in *;
    repeat match goal with H : chr (128 + (bval ?a - 128)) = ?a |- _ => rewrite H; clear H end;
    done.
Qed.

(** ** ASCII text *)

Lemma cps_app a b : cps (a +:+ b) = cps a ++ cps b.
Proof. induction a as [|c a IH]; simpl; [done|]. by rewrite IH. Qed.

Lemma cps_scalar s : Forall scalar (cps s).
Proof.
  induction s as [|a s IH]; simpl; constructor; [|done]. pose proof (bval_range a). split; lia.
Qed.

Lemma utf8_encode_cps s : is_ascii_str s = true -> utf8_encode (cps s) = s.
Proof.
  unfold is_ascii_str. induction s as [|a s IH]; [done|]. cbn [all_of cps].
  intros H. apply andb_prop in H as [Ha Hs].
  apply Z.ltb_lt in Ha. rewrite utf8_encode_cons, IH by done.
  rewrite (proj1 (utf8_char_bytes (bval a) 0 0 0 ltac:(lia) ltac:(lia) ltac:(lia)) Ha)
    by apply bval_range.
  by rewrite chr_bval.
Qed.

End Utf8.
