(* ===== verification/Config.v ===== *)
(** * Config: the constants of [src/config.py]

    The values the other components read: the concurrency passed to
    [process_views] ([THREAD_COUNT]), the request timeout ([TIMEOUT],
    a bound on every network call, which the models take as given by
    letting each call end in a response or an exception), and the list
    of proxy sources [PROXY_SOURCES], and the two message templates
    [WELCOME_MESSAGE] and [STATUS_MESSAGE], kept byte for byte as their
    UTF-8 encoding.  The bot token and the request headers only feed
    the I/O calls and are not modelled. *)

From S2P Require Import Prelude.

Module Config.

(** Line 4. *)
Definition THREAD_COUNT : Z := 800.

(** Line 5, in seconds. *)
Definition TIMEOUT : Z := 10.

(** Lines 20-25. *)
Definition PROXY_SOURCES : list string :=
  ["https://raw.githubusercontent.com/TheSpeedX/PROXY-List/master/http.txt";
   "https://raw.githubusercontent.com/ShiftyTR/Proxy-List/master/http.txt";
   "https://raw.githubusercontent.com/monosans/proxy-list/main/proxies/http.txt";
   "https://raw.githubusercontent.com/mertguvencli/http-proxy-list/main/proxy-list/data.txt"].

(** Lines 28-40: the reply of [start_handler] (UTF-8 text). *)
Definition WELCOME_MESSAGE : string := "
👋 Welcome to the Telegram Views Bot!

Send me a Telegram post link and I'll start adding views to it.
The process will use multiple proxies and threads for maximum efficiency.

Usage:
1. Send me a Telegram post link
2. Wait for the process to start
3. You'll receive real-time updates on the progress

Example link format: https://t.me/channel_name/post_id
".

(** Lines 42-51: the template [update_status_message] formats; its
    fields are [views], [active_proxies], [errors], [uptime] and
    [threads]. *)
Definition STATUS_MESSAGE : string := "
📊 Current Status:
• Views Added: {views}
• Active Proxies: {active_proxies}
• Errors: {errors}
• Uptime: {uptime}
• Threads: {threads}

🔄 Process is running...
".

End Config.
