(* ===== verification/ViewAdder.v ===== *)
(** * ViewAdder: the counters of [src/views_adder.py]

    The class [ViewAdder] owns three counters that every [add_view] call
    updates.  This file models its state ([view_adder]), the outcome of
    one request as the network decides it ([request_outcome]), the
    handler [add_view] with every exit of its [try] block, [get_stats],
    [reset_stats], and [process_views_seq], the run of [process_views]
    in which each task finishes before the next starts (the schedule
    [Semaphore(1)] imposes).  The interleaved schedules are in
    [Dispatch]. *)

From S2P Require Import Prelude.

Module ViewAdder.

(** ** State *)

(** [__init__] (lines 6-10): [success_count], [error_count] and the set
    [active_proxies]. *)
Record view_adder := mk_view_adder {
  success_count : nat;
  error_count : nat;
  active_proxies : gset string
}.

Definition init : view_adder := mk_view_adder 0 0 ∅.

(** What one [session.get(post_url, proxy=..., ...)] does, as seen by
    [add_view]: it raises before a response (timeout, refused
    connection, proxy error: [ReqRaised]), or it yields a response with
    a status, after which leaving the [async with] block (the
    response's [__aexit__], a suspension point) may raise too. *)
Inductive request_outcome :=
  | ReqRaised
  | ReqResponse (status : Z) (exit_raises : bool).

(** A task of [process_views]: the proxy it uses and what its request
    will do. *)
Notation task := (string * request_outcome)%type.

(** ** Operations *)

(** The body of the [async with] block (lines 29-35). *)
Definition on_status (va : view_adder) (proxy : string) (status : Z) : view_adder * bool :=
  if Z.eqb status 200 then
    (mk_view_adder (S (success_count va)) (error_count va) ({[proxy]} ∪ active_proxies va), true)
  else
    (mk_view_adder (success_count va) (S (error_count va)) (active_proxies va), false).

(** The [except Exception] handler (lines 37-40). *)
Definition on_exception (va : view_adder) : view_adder :=
  mk_view_adder (success_count va) (S (error_count va)) (active_proxies va).

(** [add_view] (lines 12-40): the new state and the returned boolean.
    When [__aexit__] raises after the status branch ran, control goes
    to the [except] clause, which counts one more error and returns
    [False]. *)
Definition add_view (va : view_adder) (proxy : string) (out : request_outcome)
    : view_adder * bool :=
  match out with
  | ReqRaised => (on_exception va, false)
  | ReqResponse status exit_raises =>
      let '(va', r) := on_status va proxy status in
      if exit_raises then (on_exception va', false) else (va', r)
  end.

(** The dictionary returned by [get_stats] (lines 68-76) and, under the
    keys [success_count]/[error_count]/[active_proxies], by
    [process_views] (lines 62-66). *)
Record stats := mk_stats {
  views_added : nat;
  errors : nat;
  n_active_proxies : nat
}.

Definition get_stats (va : view_adder) : stats :=
  mk_stats (success_count va) (error_count va) (size (active_proxies va)).

(** Counters compared field by field: the order in which a run's
    statistics can only grow. *)
Definition stats_le (s1 s2 : stats) : Prop :=
  views_added s1 <= views_added s2 /\ errors s1 <= errors s2 /\
  n_active_proxies s1 <= n_active_proxies s2.

(** [reset_stats] (lines 78-84): the three fields are overwritten. *)
Definition reset_stats (va : view_adder) : view_adder :=
  mk_view_adder 0 0 ∅.

(** One task run to completion, and [process_views] when the tasks run
    one after the other in submission order (lines 55-60 with a
    semaphore of one permit). *)
Definition run_task (va : view_adder) (t : task) : view_adder :=
  fst (add_view va t.1 t.2).

Definition process_views_seq (va : view_adder) (tasks : list task) : view_adder :=
  foldl run_task va tasks.

(** ** Contributions of one task to the counters *)

Definition succ_of (o : request_outcome) : nat :=
  match o with
  | ReqRaised => 0
  | ReqResponse st _ => if Z.eqb st 200 then 1 else 0
  end.

Definition err_of (o : request_outcome) : nat :=
  match o with
  | ReqRaised => 1
  | ReqResponse st ex => (if Z.eqb st 200 then 0 else 1) + (if ex then 1 else 0)
  end.

Definition active_of (t : task) : option string :=
  match t.2 with
  | ReqResponse st _ => if Z.eqb st 200 then Some t.1 else None
  | ReqRaised => None
  end.

(** The outcomes on which the [async with] exit does not raise. *)
Definition exit_ok (o : request_outcome) : bool :=
  match o with ReqResponse _ true => false | _ => true end.

(** The invariant of the counters for a run over the proxies [sub]:
    every active proxy was submitted, and there are no more active
    proxies than successes. *)
Definition stats_wf (sub : gset string) (va : view_adder) : Prop :=
  active_proxies va ⊆ sub /\ size (active_proxies va) <= success_count va.

(** ** Lemmas *)

Lemma run_task_eq va t :
  run_task va t =
  mk_view_adder (success_count va + succ_of t.2) (error_count va + err_of t.2)
                (active_proxies va ∪ ⌜active_of t⌝ₛ).
Proof.
  destruct t as [p [|st ex]]; unfold run_task; simpl;
    unfold active_of, on_exception, on_status; simpl.
  - f_equal; try lia; set_solver.
  - destruct (Z.eqb st 200), ex; simpl; f_equal; try lia; set_solver.
Qed.

Lemma add_view_fst va p o : fst (add_view va p o) = run_task va (p, o).
Proof. reflexivity. Qed.

Lemma add_view_snd va p o :
  snd (add_view va p o) = exit_ok o && Nat.eqb (succ_of o) 1.
Proof.
  destruct o as [|st ex]; simpl; [done|].
  unfold on_status; destruct (Z.eqb st 200), ex; reflexivity.
Qed.

#[export] Hint Rewrite run_task_eq add_view_fst : viewsbot_rw.

(** ** Theorems *)

#[export] Instance stats_le_preorder : PreOrder stats_le.
Proof. split; [intros s; unfold stats_le; lia|intros a b c; unfold stats_le; lia]. Qed.

(** A request never lowers the counters. *)
Lemma run_task_stats_le va t : stats_le (get_stats va) (get_stats (run_task va t)).
Proof.
  rewrite run_task_eq. unfold stats_le, get_stats.
  cbn [success_count error_count active_proxies views_added errors n_active_proxies].
  split; [lia|]. split; [lia|]. apply subseteq_size. set_solver.
Qed.

(** The sequential schedule in closed form, as a rewriting lemma. *)
Lemma process_views_seq_eq va tasks :
  process_views_seq va tasks =
  mk_view_adder (success_count va + sum_list_with (fun t => succ_of t.2) tasks)
                (error_count va + sum_list_with (fun t => err_of t.2) tasks)
                (active_proxies va ∪ list_to_set (omap active_of tasks)).
Proof.
  unfold process_views_seq. revert va.
  induction tasks as [|t ts IH]; intros va; simpl.
  - destruct va; simpl. f_equal; try lia; set_solver.
  - rewrite IH, run_task_eq. simpl. f_equal; try lia.
    destruct (active_of t); simpl; set_solver.
Qed.

(** C3: one [add_view] whose [async with] exit does not raise moves
    exactly one counter by one, and which one is decided by the status:
    a response with status 200 adds one success, puts the proxy in the
    active set and returns [True]; a response with any other status,
    and a request that raises, add one error and return [False]. *)
Theorem add_view_exactly_one va p o :
  exit_ok o = true ->
  add_view va p o =
    match o with
    | ReqResponse code _ =>
        if Z.eqb code 200
        then (mk_view_adder (S (success_count va)) (error_count va) ({[p]} ∪ active_proxies va), true)
        else (mk_view_adder (success_count va) (S (error_count va)) (active_proxies va), false)
    | ReqRaised => (mk_view_adder (success_count va) (S (error_count va)) (active_proxies va), false)
    end.
Proof.
  intros Hok. destruct o as [|code [|]]; simpl in *; try discriminate; [done|].
  unfold on_status. by destruct (Z.eqb code 200).
Qed.

Lemma add_view_exactly_one_witness :
  exit_ok (ReqResponse 503 false) = true /\
  add_view init "1.2.3.4:8080" (ReqResponse 503 false) = (mk_view_adder 0 1 ∅, false).
Proof.
  split; [reflexivity|].
  exact (add_view_exactly_one init "1.2.3.4:8080" (ReqResponse 503 false) eq_refl).
Defined.

(** C4: when leaving the [async with] block raises, [add_view] counts
    the request twice: a status-200 response is counted as a success and
    as an error, any other status as two errors, and [False] is
    returned in both cases.  The spec (section 4.2) requires exactly one
    counter increment per call. *)
Theorem add_view_exit_raise_double_count va p st :
  let '(va', ok) := add_view va p (ReqResponse st true) in
  ok = false /\
  success_count va' + error_count va' = success_count va + error_count va + 2 /\
  (st = 200%Z -> success_count va' = S (success_count va) /\ error_count va' = S (error_count va)).
Proof.
  simpl. unfold on_status. destruct (Z.eqb_spec st 200); simpl; repeat split; try lia.
Qed.

(** C8: the invariant [stats_wf sub] is preserved by [add_view] for a
    submitted proxy, whatever the request does. *)
Theorem add_view_preserves_wf sub va p o :
  p ∈ sub -> stats_wf sub va -> stats_wf sub (fst (add_view va p o)).
Proof.
  intros Hp [Hsub Hsize]. rewrite add_view_fst, run_task_eq. unfold stats_wf. simpl.
  unfold active_of. simpl. destruct o as [|st ex]; simpl.
  - split; [set_solver|]. pose proof (size_union_oset_le (active_proxies va) None). simpl in *. lia.
  - destruct (Z.eqb st 200); simpl.
    + split; [set_solver|]. pose proof (size_union_oset_le (active_proxies va) (Some p)). simpl in *. lia.
    + split; [set_solver|]. pose proof (size_union_oset_le (active_proxies va) None). simpl in *. lia.
Qed.

Lemma add_view_preserves_wf_witness :
  "1.2.3.4:8080" ∈ ({["1.2.3.4:8080"]} : gset string) /\
  stats_wf {["1.2.3.4:8080"]} init /\
  stats_wf {["1.2.3.4:8080"]} (fst (add_view init "1.2.3.4:8080" (ReqResponse 200 true))).
Proof.
  assert (Hin : "1.2.3.4:8080" ∈ ({["1.2.3.4:8080"]} : gset string)) by set_solver.
  assert (H0 : stats_wf {["1.2.3.4:8080"]} init).
  { unfold stats_wf, init. cbn [active_proxies success_count].
    split; [set_solver|rewrite size_empty; lia]. }
  split; [exact Hin|]. split; [exact H0|].
  exact (add_view_preserves_wf _ _ _ _ Hin H0).
Defined.

(** C9: closed form of the sequential schedule: the success counter
    grows by the number of status-200 responses, the error counter by
    the errors of every task (two for a non-200 response whose exit
    raises), and the active set by the proxies of the status-200
    responses. *)
Theorem process_views_seq_closed va tasks :
  process_views_seq va tasks =
  mk_view_adder (success_count va + sum_list_with (fun t => succ_of t.2) tasks)
                (error_count va + sum_list_with (fun t => err_of t.2) tasks)
                (active_proxies va ∪ list_to_set (omap active_of tasks)).
Proof. apply process_views_seq_eq. Qed.

(** C10: [reset_stats] clears the three fields, and a run started from a
    reset state reports exactly the successes, errors and distinct
    successful proxies of its own tasks. *)
Theorem reset_then_run va tasks :
  get_stats (reset_stats va) = mk_stats 0 0 0 /\
  get_stats (process_views_seq (reset_stats va) tasks) =
  mk_stats (sum_list_with (fun t => succ_of t.2) tasks)
           (sum_list_with (fun t => err_of t.2) tasks)
           (size (list_to_set (omap active_of tasks) : gset string)).
Proof.
  split.
  - unfold get_stats, reset_stats. cbn [success_count error_count active_proxies].
    by rewrite size_empty.
  - rewrite process_views_seq_eq. unfold get_stats, reset_stats.
    cbn [success_count error_count active_proxies]. by rewrite (left_id_L ∅ union).
Qed.

End ViewAdder.
