(* ===== verification/Counters.v ===== *)
(** * Counters: what the [ViewAdder] promises to its clients

    The bot uses the [ViewAdder] through three operations: the effect of
    one [add_view] on the counters ([run_task]), [reset_stats] and
    [get_stats].  This file states that contract as an interface, in the
    style of an operations class with a laws class:
    - [StatsStore]: the operations;
    - [StatsStoreSpec]: the laws: a reset returns to the initial store,
      the statistics of a run of requests from the initial store are
      the abstract [spec_stats] of those requests (successes, errors,
      distinct successful proxies), and a request never lowers them;
    - the abstract specification of a store used through any sequence
      of requests and resets ([op]): its statistics are [spec_stats] of
      the requests since the last reset ([since_reset]), proved from
      the laws alone;
    - the instance for [view_adder], whose laws [ViewAdder]'s lemmas
      discharge, and the refinement theorem for it. *)

From S2P Require Import Prelude ViewAdder.
Import ViewAdder.

Module Counters.

(** ** The abstract specification *)

(** What a run of requests should show: the status-200 responses, the
    errors, and the distinct proxies of the status-200 responses. *)
Definition spec_stats (ts : list task) : stats :=
  mk_stats (sum_list_with (fun t => succ_of t.2) ts) (sum_list_with (fun t => err_of t.2) ts)
           (size (list_to_set (omap active_of ts) : gset string)).

(** ** The interface *)

Class StatsStore (St : Type) := {
  store_init : St;
  store_record : St -> task -> St;
  store_reset : St -> St;
  store_stats : St -> stats
}.

Class StatsStoreSpec (St : Type) `{StatsStore St} := {
  store_reset_init : forall s, store_reset s = store_init;
  store_run_spec : forall ts, store_stats (foldl store_record store_init ts) = spec_stats ts;
  store_record_mono : forall s t, stats_le (store_stats s) (store_stats (store_record s t))
}.

(** A use of the store: a request completing, or a reset. *)
Inductive op := ORecord (t : task) | OReset.

Definition apply_op {St : Type} `{StatsStore St} (s : St) (o : op) : St :=
  match o with ORecord t => store_record s t | OReset => store_reset s end.

(** The requests since the last reset. *)
Definition since_reset (ops : list op) : list task :=
  foldl (fun acc o => match o with ORecord t => acc ++ [t] | OReset => [] end) [] ops.

(** ** The instance of [ViewAdder] *)

#[export] Instance view_adder_store : StatsStore view_adder := {
  store_init := ViewAdder.init;
  store_record := run_task;
  store_reset := reset_stats;
  store_stats := get_stats
}.

(** ** Lemmas proved against the interface *)

Section Generic.
Context {St : Type} `{StatsStoreSpec St}.

Lemma apply_ops_since ops :
  foldl apply_op store_init ops = foldl store_record store_init (since_reset ops).
Proof.
  induction ops as [|o ops IH] using rev_ind; [done|].
  unfold since_reset in *. rewrite !foldl_app. simpl. rewrite IH.
  destruct o as [t|]; simpl; [by rewrite foldl_app|apply store_reset_init].
Qed.

Lemma store_ops_spec ops : store_stats (foldl apply_op store_init ops) = spec_stats (since_reset ops).
Proof. by rewrite apply_ops_since, store_run_spec. Qed.
End Generic.

(** ** The laws of [ViewAdder] *)

Lemma view_adder_run_spec ts : get_stats (process_views_seq ViewAdder.init ts) = spec_stats ts.
Proof.
  rewrite process_views_seq_eq. unfold get_stats, spec_stats, ViewAdder.init. simpl.
  by rewrite (left_id_L ∅ union).
Qed.

#[export] Instance view_adder_spec : StatsStoreSpec view_adder.
Proof.
  split.
  - intros s. reflexivity.
  - intros ts. apply view_adder_run_spec.
  - intros s t. apply run_task_stats_le.
Qed.

(** ** Theorem *)

(** C36: refinement of the abstract counters.  Whatever sequence of
    completed requests and [reset_stats] calls the [ViewAdder] goes
    through from its creation, [get_stats] reports exactly the abstract
    statistics of the requests since the last reset: their status-200
    responses, their errors (two for a non-200 response whose exit
    raises) and their distinct successful proxies. *)
Theorem view_adder_refines_spec ops :
  get_stats (foldl apply_op ViewAdder.init ops) = spec_stats (since_reset ops).
Proof. exact (store_ops_spec ops). Qed.

End Counters.
