(* ===== verification/Dispatch.v ===== *)
(** * Dispatch: [process_views] as an asyncio program

    [ViewAdder.process_views] ([src/views_adder.py], lines 42-66)
    creates one task per proxy running [bounded_add_view], which holds
    one permit of [asyncio.Semaphore(max_concurrent)] around
    [add_view].  The event loop runs one task at a time between
    suspension points, so the program is a transition system whose
    steps are the code between two suspension points of one task:
    - [pv_acquire]: [async with semaphore] takes a permit (possible when
      the value is positive; otherwise the task waits);
    - [pv_raise]: [session.get] raised; the [except] clause counts an
      error, the task returns and its permit is released;
    - [pv_respond]: the response arrived; the status branch updates the
      counters; the task then suspends in the [async with] exit;
    - [pv_close]: the exit completes (or raises, and the [except]
      clause counts an error); the permit is released.
    The state records the semaphore value, each task with its phase,
    and the shared [view_adder].  Which enabled task runs next is left
    open: the theorems hold for every interleaving. *)

From S2P Require Import Prelude ViewAdder.
Import ViewAdder.

Module Dispatch.

(** ** State *)

Inductive phase := Waiting | Requesting | Closing | Done.

#[export] Instance phase_eq_dec : EqDecision phase.
Proof. solve_decision. Defined.

Record pv_state := mk_pv {
  sem : nat;
  threads : list (task * phase);
  shared : view_adder
}.

(** The state after the [for proxy in proxies] loop of lines 55-57:
    every task created and waiting for a permit.  [asyncio.Semaphore]
    raises [ValueError] on a negative initial value (line 48). *)
Definition pv_init (max_concurrent : Z) (va : view_adder) (tasks : list task)
    : option pv_state :=
  if Z.ltb max_concurrent 0 then None
  else Some (mk_pv (Z.to_nat max_concurrent) ((fun t => (t, Waiting)) <$> tasks) va).

(** ** Steps *)

Inductive pv_step : pv_state -> pv_state -> Prop :=
  | pv_acquire st i t :
      threads st !! i = Some (t, Waiting) -> 0 < sem st ->
      pv_step st (mk_pv (pred (sem st)) (<[i := (t, Requesting)]> (threads st)) (shared st))
  | pv_raise st i p :
      threads st !! i = Some ((p, ReqRaised), Requesting) ->
      pv_step st (mk_pv (S (sem st)) (<[i := ((p, ReqRaised), Done)]> (threads st))
                        (on_exception (shared st)))
  | pv_respond st i p code ex :
      threads st !! i = Some ((p, ReqResponse code ex), Requesting) ->
      pv_step st (mk_pv (sem st) (<[i := ((p, ReqResponse code ex), Closing)]> (threads st))
                        (fst (on_status (shared st) p code)))
  | pv_close st i p code ex :
      threads st !! i = Some ((p, ReqResponse code ex), Closing) ->
      pv_step st (mk_pv (S (sem st)) (<[i := ((p, ReqResponse code ex), Done)]> (threads st))
                        (if ex then on_exception (shared st) else shared st)).

Notation "st '~>' st'" := (pv_step st st') (at level 70) : vb_scope.
Notation "st '~>*' st'" := (rtc pv_step st st') (at level 70) : vb_scope.

Definition all_done (st : pv_state) : Prop := Forall (fun tp => tp.2 = Done) (threads st).

Definition terminal (st : pv_state) : Prop := forall st', ~ st ~> st'.

(** ** What each task has contributed, by phase *)

Definition holds (ph : phase) : nat :=
  match ph with Requesting | Closing => 1 | _ => 0 end.

Definition rank (ph : phase) : nat :=
  match ph with Waiting => 3 | Requesting => 2 | Closing => 1 | Done => 0 end.

Definition succ_part (tp : task * phase) : nat :=
  match tp.2 with Closing | Done => succ_of tp.1.2 | _ => 0 end.

Definition err_part (tp : task * phase) : nat :=
  match tp.2, tp.1.2 with
  | Done, o => err_of o
  | Closing, ReqResponse code _ => if Z.eqb code 200 then 0 else 1
  | _, _ => 0
  end.

Definition act_part (tp : task * phase) : option string :=
  match tp.2 with Closing | Done => active_of tp.1 | _ => None end.

(** A task is [Closing] only after a response. *)
Definition phase_ok (tp : task * phase) : Prop :=
  tp.2 = Closing -> exists code ex, tp.1.2 = ReqResponse code ex.

(** Permits held and remaining work. *)
Definition holds_of (tp : task * phase) : nat := holds tp.2.

Definition rank_of (tp : task * phase) : nat := rank tp.2.

Definition in_flight (st : pv_state) : nat := sum_list_with holds_of (threads st).

Definition pv_rank (st : pv_state) : nat := sum_list_with rank_of (threads st).

(** The invariant, for a run of [tasks] started on [va0] with [n]
    permits: the tasks are those submitted, the semaphore value and
    the permits held add up to [n], and the shared counters are [va0]
    plus the contributions of the tasks' phases. *)
Definition pv_inv (n : nat) (va0 : view_adder) (tasks : list task) (st : pv_state) : Prop :=
  fst <$> threads st = tasks /\
  sem st + in_flight st = n /\
  Forall phase_ok (threads st) /\
  shared st =
    mk_view_adder (success_count va0 + sum_list_with succ_part (threads st))
                  (error_count va0 + sum_list_with err_part (threads st))
                  (active_proxies va0 ∪ list_to_set (omap act_part (threads st))).

(** The part of [pv_inv] that does not mention the counters: it holds
    whatever other coroutines do to the shared [view_adder] meanwhile. *)
Definition pool_ok (n : nat) (st : pv_state) : Prop :=
  sem st + in_flight st = n /\ Forall phase_ok (threads st).

(** ** An executable scheduler *)

(** The step task [i] can take, if any. *)
Definition thread_step (st : pv_state) (i : nat) (tp : task * phase) : option pv_state :=
  match tp with
  | (t, Waiting) =>
      if decide (0 < sem st)
      then Some (mk_pv (pred (sem st)) (<[i := (t, Requesting)]> (threads st)) (shared st))
      else None
  | ((p, ReqRaised), Requesting) =>
      Some (mk_pv (S (sem st)) (<[i := ((p, ReqRaised), Done)]> (threads st))
                  (on_exception (shared st)))
  | ((p, ReqResponse code ex), Requesting) =>
      Some (mk_pv (sem st) (<[i := ((p, ReqResponse code ex), Closing)]> (threads st))
                  (fst (on_status (shared st) p code)))
  | ((p, ReqResponse code ex), Closing) =>
      Some (mk_pv (S (sem st)) (<[i := ((p, ReqResponse code ex), Done)]> (threads st))
                  (if ex then on_exception (shared st) else shared st))
  | _ => None
  end.

(** The step of a task still waiting for its permit. *)
Definition acquire_step (st : pv_state) (i : nat) (tp : task * phase) : option pv_state :=
  match tp.2 with Waiting => thread_step st i tp | _ => None end.

Fixpoint first_step (f : nat -> task * phase -> option pv_state) (i : nat)
    (l : list (task * phase)) : option pv_state :=
  match l with
  | [] => None
  | tp :: l' =>
      match f i tp with
      | Some st' => Some st'
      | None => first_step f (S i) l'
      end
  end.

(** The event loop's choice: tasks created by the [for] loop run before
    any response is processed, so the first waiting task that can take a
    permit moves; otherwise the first task, in creation order, that can
    move. *)
Definition pv_next (st : pv_state) : option pv_state :=
  match first_step (acquire_step st) 0 (threads st) with
  | Some st' => Some st'
  | None => first_step (thread_step st) 0 (threads st)
  end.

Fixpoint pv_run (fuel : nat) (st : pv_state) : pv_state :=
  match fuel with
  | 0 => st
  | S fuel' => match pv_next st with Some st' => pv_run fuel' st' | None => st end
  end.

#[export] Instance all_done_dec st : Decision (all_done st).
Proof. unfold all_done. apply _. Defined.

(** What [await process_views(...)] does: raise [ValueError] (negative
    [max_concurrent]), never return ([asyncio.gather] waits for tasks
    that cannot move), or return the counters' dictionary. *)
Inductive pv_result :=
  | PVValueError
  | PVHang (st : pv_state)
  | PVReturned (va : view_adder) (result : stats).

(** [process_views] (lines 42-66), run under [pv_next] for as many steps
    as the initial rank, which bounds every run. *)
Definition process_views (max_concurrent : Z) (va : view_adder) (tasks : list task) : pv_result :=
  match pv_init max_concurrent va tasks with
  | None => PVValueError
  | Some st0 =>
      let st := pv_run (pv_rank st0) st0 in
      if decide (all_done st) then PVReturned (shared st) (get_stats (shared st))
      else PVHang st
  end.

(** ** Lemmas *)

Section Update.
Context (l : list (task * phase)) (i : nat) (t : task) (ph : phase).
Hypothesis Hi : l !! i = Some (t, ph).

Lemma update_fst ph' : fst <$> <[i := (t, ph')]> l = fst <$> l.
Proof.
  rewrite list_fmap_insert. simpl. apply list_insert_id.
  by rewrite list_lookup_fmap, Hi.
Qed.

Lemma update_sum ph' (f : task * phase -> nat) :
  sum_list_with f (<[i := (t, ph')]> l) + f (t, ph) = sum_list_with f l + f (t, ph').
Proof. by apply sum_list_with_insert. Qed.

Lemma update_phase_ok ph' :
  Forall phase_ok l -> phase_ok (t, ph') -> Forall phase_ok (<[i := (t, ph')]> l).
Proof. intros. by apply Forall_insert. Qed.
End Update.

Lemma pv_inv_init (n : nat) va tasks :
  pv_inv n va tasks (mk_pv n ((fun t => (t, Waiting)) <$> tasks) va).
Proof.
  unfold pv_inv, in_flight; cbn [threads sem shared].
  rewrite <- list_fmap_compose, list_fmap_id.
  assert (Hw : forall P : task * phase -> Prop, (forall t, P (t, Waiting)) ->
            Forall P ((fun t => (t, Waiting)) <$> tasks)).
  { intros P HP. apply Forall_fmap, Forall_forall. intros t _. apply HP. }
  rewrite !sum_list_with_zero, omap_all_None by (apply Hw; done).
  split; [done|]. split; [lia|]. split.
  - apply Hw. intros t Hc. discriminate.
  - destruct va; simpl. f_equal; try lia. set_solver.
Qed.

(** The three sums of a one-task update, instantiated. *)
Ltac pv_sums Hi :=
  let H1 := fresh "Hh" in let H2 := fresh "Hs" in let H3 := fresh "He" in
  match goal with |- context [<[_ := (_, ?ph')]> _] =>
  rewrite (update_fst _ _ _ _ Hi ph');
  pose proof (update_sum _ _ _ _ Hi ph' holds_of) as H1;
  pose proof (update_sum _ _ _ _ Hi ph' succ_part) as H2;
  pose proof (update_sum _ _ _ _ Hi ph' err_part) as H3 end;
  cbn [holds_of holds fst snd succ_part err_part succ_of err_of] in H1, H2, H3.

Lemma pv_step_inv n va0 tasks st st' :
  pv_inv n va0 tasks st -> st ~> st' -> pv_inv n va0 tasks st'.
Proof.
  intros (Hf & Hs & Hok & Hv) Hstep.
  destruct Hstep as [st i t Hi Hpos|st i p Hi|st i p code ex Hi|st i p code ex Hi];
    unfold pv_inv, in_flight in *; cbn [threads sem shared] in *;
    pv_sums Hi; rewrite Hv.
  - rewrite (list_to_set_omap_insert_same _ _ _ _ _ Hi) by done.
    split; [done|]. split; [lia|]. split; [apply update_phase_ok; [done|intros Hc; discriminate]|].
    f_equal; lia.
  - rewrite (list_to_set_omap_insert_same _ _ _ _ _ Hi) by done.
    split; [done|]. split; [lia|]. split; [apply update_phase_ok; [done|intros Hc; discriminate]|].
    unfold on_exception; simpl. f_equal; lia.
  - rewrite (list_to_set_omap_insert_None _ _ _ _ _ Hi) by done.
    split; [done|]. split; [lia|]. split; [apply update_phase_ok; [done|intros _; eauto]|].
    unfold on_status, act_part, active_of; cbn [fst snd].
    destruct (Z.eqb code 200); simpl; f_equal; try lia; set_solver.
  - rewrite (list_to_set_omap_insert_same _ _ _ _ _ Hi) by done.
    split; [done|]. split; [lia|]. split; [apply update_phase_ok; [done|intros Hc; discriminate]|].
    destruct ex; unfold on_exception; simpl; f_equal; lia.
Qed.

Lemma pv_inv_pool n va0 tasks st : pv_inv n va0 tasks st -> pool_ok n st.
Proof. intros (_ & ? & ? & _). by split. Qed.

Lemma pv_step_pool n st st' : pool_ok n st -> st ~> st' -> pool_ok n st'.
Proof.
  intros Hp Hs.
  destruct Hp as [Hsem Hok].
  destruct Hs as [st i t Hi Hpos|st i p Hi|st i p code ex Hi|st i p code ex Hi];
    unfold pool_ok, in_flight in *; cbn [threads sem shared] in *;
    match goal with |- context [<[_ := (_, ?ph')]> _] =>
      pose proof (update_sum _ _ _ _ Hi ph' holds_of) as Hh end;
    cbn [holds_of holds fst snd] in Hh;
    (split; [lia|apply update_phase_ok; [done|]]);
    try (intros Hc; discriminate); intros _; eauto.
Qed.

Lemma pv_step_shared_le st st' : st ~> st' -> stats_le (get_stats (shared st)) (get_stats (shared st')).
Proof.
  destruct 1 as [st i t Hi Hpos|st i p Hi|st i p code ex Hi|st i p code ex Hi]; cbn [shared].
  - reflexivity.
  - exact (run_task_stats_le (shared st) (p, ReqRaised)).
  - unfold on_status. destruct (Z.eqb code 200); split_and!; simpl; try lia;
      try apply subseteq_size; set_solver.
  - destruct ex; [|reflexivity]. exact (run_task_stats_le (shared st) (p, ReqRaised)).
Qed.

Lemma pv_reach_inv n va0 tasks st st' :
  pv_inv n va0 tasks st -> st ~>* st' -> pv_inv n va0 tasks st'.
Proof. intros Hinv Hr. induction Hr; eauto using pv_step_inv. Qed.

Lemma pv_init_inv max_concurrent va tasks st0 :
  pv_init max_concurrent va tasks = Some st0 ->
  pv_inv (Z.to_nat max_concurrent) va tasks st0.
Proof.
  unfold pv_init. destruct (Z.ltb max_concurrent 0); intros H; [done|].
  injection H as <-. apply pv_inv_init.
Qed.

Lemma pv_step_rank st st' : st ~> st' -> pv_rank st' < pv_rank st.
Proof.
  intros Hstep. unfold pv_rank.
  destruct Hstep as [st i t Hi Hpos|st i p Hi|st i p code ex Hi|st i p code ex Hi];
    cbn [threads];
    match goal with |- context [<[_ := (_, ?ph')]> _] =>
      pose proof (update_sum _ _ _ _ Hi ph' rank_of) as Hr end;
    cbn [rank_of rank fst snd] in Hr; lia.
Qed.

Lemma pv_rank_init n va tasks :
  pv_rank (mk_pv n ((fun t => (t, Waiting)) <$> tasks) va) = 3 * length tasks.
Proof.
  unfold pv_rank; cbn [threads].
  induction tasks as [|t ts IH]; [done|]. rewrite fmap_cons.
  change (rank_of (t, Waiting) + sum_list_with rank_of ((fun t => (t, Waiting)) <$> ts)
          = 3 * length (t :: ts)).
  rewrite IH. simpl. lia.
Qed.

#[export] Hint Resolve pv_step_inv pv_reach_inv pv_init_inv : viewsbot.

(** ** Theorems: safety *)

(** C2: the concurrency bound.  In every state reachable from the
    start of [process_views max_concurrent], the tasks holding a
    semaphore permit (request in flight or response being closed)
    number at most [max_concurrent]; the semaphore value and the
    permits held always add up to [max_concurrent]. *)
Theorem pv_concurrency_bound max_concurrent va tasks st0 st :
  pv_init max_concurrent va tasks = Some st0 -> st0 ~>* st ->
  sem st + in_flight st = Z.to_nat max_concurrent /\
  in_flight st <= Z.to_nat max_concurrent.
Proof.
  intros Hi Hr. destruct (pv_reach_inv _ _ _ _ _ (pv_init_inv _ _ _ _ Hi) Hr) as (_ & Hs & _).
  lia.
Qed.

Lemma pv_nsteps_rank k st st' : nsteps pv_step k st st' -> k + pv_rank st' <= pv_rank st.
Proof.
  induction 1 as [st|k st1 st2 st3 Hs _ IH]; [lia|]. apply pv_step_rank in Hs. lia.
Qed.

Lemma pv_init_rank max_concurrent va tasks st0 :
  pv_init max_concurrent va tasks = Some st0 -> pv_rank st0 = 3 * length tasks.
Proof.
  unfold pv_init. destruct (Z.ltb max_concurrent 0); [done|]. intros [= <-]. apply pv_rank_init.
Qed.

Lemma pv_step_wf : well_founded (fun st' st => st ~> st').
Proof.
  apply (wf_projected lt pv_rank).
  - intros st' st Hs. by apply pv_step_rank.
  - exact lt_wf.
Qed.

(** ** Progress and the result of a complete run *)

(** A state from which no task can move has no task holding a permit. *)
Lemma terminal_no_holder st i t ph :
  Forall phase_ok (threads st) -> terminal st ->
  threads st !! i = Some (t, ph) -> holds ph = 0.
Proof.
  intros Hok Hterm Hi. destruct ph; simpl; [done| | |done]; exfalso.
  - destruct t as [p [|code ex]].
    + eapply Hterm, pv_raise, Hi.
    + eapply Hterm, pv_respond, Hi.
  - pose proof (proj1 (Forall_lookup _ _) Hok _ _ Hi) as Hph.
    destruct (Hph eq_refl) as (code & ex & Ht). destruct t as [p o]; simpl in Ht; subst o.
    eapply Hterm, pv_close, Hi.
Qed.

Lemma pv_progress n st :
  pool_ok n st -> 0 < n -> terminal st -> all_done st.
Proof.
  intros [Hs Hok] Hn Hterm.
  assert (Hz : in_flight st = 0).
  { apply sum_list_with_zero, Forall_lookup_intro. intros i [t ph] Hi.
    exact (terminal_no_holder st i t ph Hok Hterm Hi). }
  apply Forall_lookup_intro. intros i [t ph] Hi. simpl.
  pose proof (terminal_no_holder st i t ph Hok Hterm Hi) as Hh.
  destruct ph; simpl in Hh; try done; exfalso.
  eapply Hterm, pv_acquire; [exact Hi|lia].
Qed.

Lemma all_done_sums (l : list (task * phase)) :
  Forall (fun tp => tp.2 = Done) l ->
  sum_list_with succ_part l = sum_list_with (fun t => succ_of t.2) (fst <$> l) /\
  sum_list_with err_part l = sum_list_with (fun t => err_of t.2) (fst <$> l) /\
  omap act_part l = omap active_of (fst <$> l).
Proof.
  induction 1 as [|[t ph] l Hph _ (IH1 & IH2 & IH3)]; [done|].
  simpl in Hph; subst ph.
  change (fst <$> ((t, Done) :: l)) with ([t] ++ (fst <$> l)).
  change ((t, Done) :: l) with ([(t, Done)] ++ l).
  rewrite !sum_list_with_app, !omap_app, IH1, IH2, IH3. repeat split; reflexivity.
Qed.

(** A terminal state reached with a permit: every task done, the
    counters of the sequential schedule. *)
Lemma pv_inv_done_seq n va0 tasks st :
  pv_inv n va0 tasks st -> all_done st -> shared st = process_views_seq va0 tasks.
Proof.
  intros (Hf & _ & _ & Hv) Hd. destruct (all_done_sums _ Hd) as (H1 & H2 & H3).
  rewrite Hv, process_views_seq_eq, H1, H2, H3, Hf. done.
Qed.

Lemma pv_terminal_seq max_concurrent va tasks st0 st :
  (0 < max_concurrent)%Z ->
  pv_init max_concurrent va tasks = Some st0 -> st0 ~>* st -> terminal st ->
  all_done st /\ shared st = process_views_seq va tasks.
Proof.
  intros Hpos Hi Hr Hterm.
  pose proof (pv_reach_inv _ _ _ _ _ (pv_init_inv _ _ _ _ Hi) Hr) as Hinv.
  assert (Hd : all_done st) by (eapply pv_progress; [exact (pv_inv_pool _ _ _ _ Hinv)|lia|exact Hterm]).
  split; [exact Hd|]. exact (pv_inv_done_seq _ _ _ _ Hinv Hd).
Qed.

(** With no permit, the initial state of a non-empty run is stuck. *)
Lemma pv_init_zero_stuck va tasks :
  tasks <> [] ->
  exists st0, pv_init 0 va tasks = Some st0 /\ terminal st0 /\ ~ all_done st0.
Proof.
  intros Hne. eexists; split; [reflexivity|]. split.
  - intros st' Hs. inversion Hs as [st i t Hi Hpos|st i p Hi|st i p code ex Hi|st i p code ex Hi];
      subst; simpl in *; try lia;
      rewrite list_lookup_fmap in Hi; destruct (tasks !! i); simpl in Hi; congruence.
  - unfold all_done; simpl. intros Hall. destruct tasks as [|t ts]; [done|].
    rewrite fmap_cons in Hall. apply Forall_cons_1 in Hall as [Hw _]. discriminate.
Qed.

(** ** Theorems: the result of [process_views] *)

(** C1: refinement of the sequential schedule.  Whatever the order in
    which the event loop runs the tasks, a run of [process_views] with
    at least one permit that can go no further has completed every task,
    and the shared counters are exactly those of running the tasks one
    after the other: [successCount], [errorCount] and [activeProxies]
    do not depend on the interleaving. *)
Theorem pv_refines_seq max_concurrent va tasks st0 st :
  (0 < max_concurrent)%Z ->
  pv_init max_concurrent va tasks = Some st0 -> st0 ~>* st -> terminal st ->
  all_done st /\ shared st = process_views_seq va tasks.
Proof. exact (pv_terminal_seq max_concurrent va tasks st0 st). Qed.

(** C7: with [max_concurrent = 0] the semaphore admits no task:
    [process_views] on a non-empty list reaches a state where no task
    can move and none has run, so [asyncio.gather] never returns. *)
Theorem pv_zero_permits_deadlock va tasks :
  tasks <> [] ->
  exists st0, pv_init 0 va tasks = Some st0 /\ terminal st0 /\ ~ all_done st0.
Proof. exact (pv_init_zero_stuck va tasks). Qed.

(** ** The scheduler takes steps of [pv_step] *)

Lemma thread_step_sound st i tp st' :
  threads st !! i = Some tp -> thread_step st i tp = Some st' -> st ~> st'.
Proof.
  intros Hi Hs. destruct tp as [[p [|code ex]] [| | |]]; simpl in Hs; try discriminate;
    try (case_decide; [|discriminate]); injection Hs as <-; econstructor; eauto.
Qed.

Lemma acquire_step_sound st i tp st' :
  threads st !! i = Some tp -> acquire_step st i tp = Some st' -> st ~> st'.
Proof.
  intros Hi Hs. unfold acquire_step in Hs. destruct tp as [t []]; try discriminate.
  by eapply thread_step_sound.
Qed.

Lemma first_step_sound st f l i st' :
  (forall j tp st', threads st !! j = Some tp -> f j tp = Some st' -> st ~> st') ->
  (forall j tp, l !! j = Some tp -> threads st !! (i + j) = Some tp) ->
  first_step f i l = Some st' -> st ~> st'.
Proof.
  intros Hf. revert i. induction l as [|tp l IH]; intros i Hl Hs; simpl in Hs; [discriminate|].
  destruct (f i tp) as [st''|] eqn:Ht.
  - injection Hs as <-. eapply Hf; [|exact Ht].
    rewrite <- (Nat.add_0_r i). by apply (Hl 0).
  - apply (IH (S i)); [|exact Hs]. intros j tp' Hj.
    replace (S i + j) with (i + S j) by lia. by apply (Hl (S j)).
Qed.

Lemma first_step_none f l i :
  first_step f i l = None -> forall j tp, l !! j = Some tp -> f (i + j) tp = None.
Proof.
  revert i. induction l as [|tp l IH]; intros i Hs j tp' Hj; [done|]. simpl in Hs.
  destruct (f i tp) eqn:Ht; [discriminate|].
  destruct j as [|j]; simpl in Hj.
  - injection Hj as <-. by rewrite Nat.add_0_r.
  - replace (i + S j) with (S i + j) by lia. by apply (IH (S i)).
Qed.

Lemma pv_next_sound st st' : pv_next st = Some st' -> st ~> st'.
Proof.
  unfold pv_next. destruct (first_step (acquire_step st) 0 (threads st)) eqn:Ha.
  - intros [= <-]. eapply first_step_sound; [exact (acquire_step_sound st)| |exact Ha].
    intros j tp Hj. exact Hj.
  - eapply first_step_sound; [exact (thread_step_sound st)|]. intros j tp Hj. exact Hj.
Qed.

Lemma pv_next_terminal st : pv_next st = None -> terminal st.
Proof.
  unfold pv_next. intros Hn st' Hs.
  destruct (first_step (acquire_step st) 0 (threads st)); [discriminate|].
  pose proof (first_step_none _ (threads st) 0 Hn) as Hnone.
  destruct Hs as [st i t Hi Hpos|st i p Hi|st i p code ex Hi|st i p code ex Hi];
    specialize (Hnone i _ Hi); simpl in Hnone; try discriminate.
  destruct t as [p [|code ex]]; simpl in Hnone; case_decide; [discriminate|lia|discriminate|lia].
Qed.

Lemma pv_run_reach fuel st : st ~>* pv_run fuel st.
Proof.
  revert st. induction fuel as [|fuel IH]; intros st; simpl; [done|].
  destruct (pv_next st) as [st'|] eqn:Hn; [|done].
  eapply rtc_l; [by apply pv_next_sound|apply IH].
Qed.

Lemma pv_run_terminal fuel st : pv_rank st <= fuel -> terminal (pv_run fuel st).
Proof.
  revert st. induction fuel as [|fuel IH]; intros st Hf; simpl.
  - destruct (pv_next st) as [st'|] eqn:Hn; [|by apply pv_next_terminal].
    pose proof (pv_step_rank _ _ (pv_next_sound _ _ Hn)). lia.
  - destruct (pv_next st) as [st'|] eqn:Hn; [|by apply pv_next_terminal].
    apply IH. pose proof (pv_step_rank _ _ (pv_next_sound _ _ Hn)). lia.
Qed.

(** C5: [process_views] with a positive [max_concurrent] returns, and
    returns the counters of the sequential schedule (started from the
    counters it found: the method does not reset them). *)
Theorem process_views_returns max_concurrent va tasks :
  (0 < max_concurrent)%Z ->
  process_views max_concurrent va tasks =
  PVReturned (process_views_seq va tasks) (get_stats (process_views_seq va tasks)).
Proof.
  intros Hpos. unfold process_views.
  destruct (pv_init max_concurrent va tasks) as [st0|] eqn:Hi;
    [|unfold pv_init in Hi; destruct (Z.ltb_spec max_concurrent 0); [lia|discriminate]].
  destruct (pv_terminal_seq max_concurrent va tasks st0 (pv_run (pv_rank st0) st0) Hpos Hi
              (pv_run_reach _ _) (pv_run_terminal _ _ (le_n _))) as [Hd Hs].
  rewrite decide_True by exact Hd. by rewrite Hs.
Qed.

(** C11: the error paths of [process_views]: a negative
    [max_concurrent] raises [ValueError] (from [asyncio.Semaphore]), and
    [max_concurrent = 0] with at least one proxy never returns. *)
Theorem process_views_error_paths max_concurrent va tasks :
  ((max_concurrent < 0)%Z -> process_views max_concurrent va tasks = PVValueError) /\
  (max_concurrent = 0%Z -> tasks <> [] -> exists st, process_views max_concurrent va tasks = PVHang st).
Proof.
  split.
  - intros Hneg. unfold process_views, pv_init. by destruct (Z.ltb_spec max_concurrent 0); [|lia].
  - intros -> Hne. destruct (pv_init_zero_stuck va tasks Hne) as (st0 & Hi & Hterm & Hnd).
    unfold process_views. rewrite Hi.
    assert (Hrun : forall fuel, pv_run fuel st0 = st0).
    { intros [|fuel]; simpl; [done|]. destruct (pv_next st0) eqn:Hn; [|done].
      exfalso. by eapply Hterm, pv_next_sound. }
    rewrite Hrun, decide_False by exact Hnd. by eexists.
Qed.

(** C6: liveness of [asyncio.gather] (line 60).  With at least one
    permit, every execution of [process_views], whatever task the event
    loop runs next, ends with every task done: an execution of [k] steps
    has [k] at most [3 n] for [n] proxies (each task waits, requests and
    closes once), and a state it reaches has either completed every
    task or lets some task move, so the join never waits forever. *)
Theorem pv_every_run_completes max_concurrent va tasks st0 k st :
  (0 < max_concurrent)%Z ->
  pv_init max_concurrent va tasks = Some st0 -> nsteps pv_step k st0 st ->
  k + pv_rank st <= 3 * length tasks /\ (all_done st \/ exists st', st ~> st').
Proof.
  intros Hpos Hi Hn. split; [rewrite <- (pv_init_rank _ _ _ _ Hi); by apply pv_nsteps_rank|].
  destruct (pv_next st) as [st'|] eqn:Hnx; [right; exists st'; by apply pv_next_sound|left].
  apply (pv_progress (Z.to_nat max_concurrent)); [|lia|by apply pv_next_terminal].
  apply (pv_inv_pool _ va tasks), (pv_reach_inv _ _ _ st0); [by apply pv_init_inv|].
  by eapply rtc_nsteps_2.
Qed.

(** ** Witnesses on the spec's scenario: ten proxies, the first four fail *)

Definition ep (name : string) (o : request_outcome) : task := (name, o).

Definition scenario : list task :=
  [ep "10.0.0.1:8080" ReqRaised; ep "10.0.0.2:8080" ReqRaised;
   ep "10.0.0.3:8080" (ReqResponse 503 false); ep "10.0.0.4:8080" (ReqResponse 403 false);
   ep "10.0.0.5:8080" (ReqResponse 200 false); ep "10.0.0.6:8080" (ReqResponse 200 false);
   ep "10.0.0.7:8080" (ReqResponse 200 false); ep "10.0.0.8:8080" (ReqResponse 200 false);
   ep "10.0.0.9:8080" (ReqResponse 200 false); ep "10.0.0.10:8080" (ReqResponse 200 false)].

Definition scenario_start : pv_state := mk_pv 3 ((fun t => (t, Waiting)) <$> scenario) init.

Lemma pv_concurrency_bound_witness :
  pv_init 3 init scenario = Some scenario_start /\
  scenario_start ~>* pv_run 3 scenario_start /\
  in_flight (pv_run 3 scenario_start) = 3 /\
  in_flight (pv_run 3 scenario_start) <= Z.to_nat 3.
Proof.
  assert (Hi : pv_init 3 init scenario = Some scenario_start) by reflexivity.
  pose proof (pv_run_reach 3 scenario_start) as Hr.
  split; [exact Hi|]. split; [exact Hr|]. split; [vm_compute; reflexivity|].
  exact (proj2 (pv_concurrency_bound 3 init scenario _ _ Hi Hr)).
Defined.

Lemma pv_every_run_completes_witness :
  exists st1, (0 < 3)%Z /\ pv_init 3 init scenario = Some scenario_start /\
  nsteps pv_step 1 scenario_start st1 /\
  1 + pv_rank st1 <= 3 * length scenario /\ (all_done st1 \/ exists st', st1 ~> st').
Proof.
  destruct (pv_next scenario_start) as [st1|] eqn:Hn; [|discriminate].
  assert (Hi : pv_init 3 init scenario = Some scenario_start) by reflexivity.
  assert (H1 : nsteps pv_step 1 scenario_start st1).
  { eapply nsteps_l; [by apply pv_next_sound|apply nsteps_O]. }
  exists st1. split; [lia|]. split; [exact Hi|]. split; [exact H1|].
  exact (pv_every_run_completes 3 init scenario _ _ _ ltac:(lia) Hi H1).
Defined.

Lemma pv_refines_seq_witness :
  let st := pv_run (pv_rank scenario_start) scenario_start in
  (0 < 3)%Z /\ pv_init 3 init scenario = Some scenario_start /\
  scenario_start ~>* st /\ terminal st /\
  all_done st /\ shared st = process_views_seq init scenario.
Proof.
  intros st. assert (Hp : (0 < 3)%Z) by lia.
  assert (Hi : pv_init 3 init scenario = Some scenario_start) by reflexivity.
  pose proof (pv_run_reach (pv_rank scenario_start) scenario_start) as Hr.
  pose proof (pv_run_terminal (pv_rank scenario_start) scenario_start (le_n _)) as Ht.
  do 4 (split; [assumption|]). exact (pv_refines_seq 3 init scenario _ _ Hp Hi Hr Ht).
Defined.

Lemma pv_zero_permits_deadlock_witness :
  scenario <> [] /\
  exists st0, pv_init 0 init scenario = Some st0 /\ terminal st0 /\ ~ all_done st0.
Proof.
  assert (Hne : scenario <> []) by discriminate.
  split; [exact Hne|]. exact (pv_zero_permits_deadlock init scenario Hne).
Defined.

Lemma process_views_returns_witness :
  (0 < 3)%Z /\ exists va, process_views 3 init scenario = PVReturned va (mk_stats 6 4 6).
Proof.
  assert (Hp : (0 < 3)%Z) by lia. split; [exact Hp|].
  exists (process_views_seq init scenario). rewrite (process_views_returns 3 init scenario Hp).
  f_equal; vm_compute; reflexivity.
Defined.

Lemma process_views_error_paths_witness :
  (-1 < 0)%Z /\ process_views (-1) init scenario = PVValueError /\
  scenario <> [] /\ exists st, process_views 0 init scenario = PVHang st.
Proof.
  assert (Hn : (-1 < 0)%Z) by lia. assert (Hne : scenario <> []) by discriminate.
  split; [exact Hn|]. split; [exact (proj1 (process_views_error_paths (-1) init scenario) Hn)|].
  split; [exact Hne|]. exact (proj2 (process_views_error_paths 0 init scenario) eq_refl Hne).
Defined.

End Dispatch.
