(* ===== verification/ProxyRegex.v ===== *)
(** * ProxyRegex: the proxy pattern of [fetch_proxy_list]

    [ProxyScraper.fetch_proxy_list] ([src/proxy_scrapper.py], lines
    20-21) extracts proxies with
    [re.findall(r'\b(?:\d{1,3}\.){3}\d{1,3}:\d{1,5}\b', response.text)].
    This file models that call on texts whose code points are below
    256 (Coq's [ascii], read as Latin-1): Python's [\d] (Unicode
    decimal digits: only [0-9] in that range), [\w] (alphanumerics in
    the Unicode sense and [_]: the ASCII letters and digits plus the
    Latin-1 letters and the digits [²], [³], [¹], [¼], [½], [¾]), the
    boundary [\b], a matcher [match_at] at one position and the scan
    [findall] that restarts after each match, as [re.findall] does.

    The declarative specification [regex_match] says what the pattern
    means; [match_at] is proved to decide it, every string [findall]
    returns has the shape [o1.o2.o3.o4:p] and occurs in the text, and a
    list of well-formed entries separated by non-word characters (the
    sources' one-proxy-per-line format) is extracted exactly. *)

From S2P Require Import Prelude.
From Stdlib Require Import Ascii.

Module ProxyRegex.

Notation "a '+:+' b" := (String.append a b) (at level 60, right associativity) : vb_scope.

(** ** Character classes *)

Definition code (c : ascii) : nat := nat_of_ascii c.

(** [\d] *)
Definition is_digit (c : ascii) : bool := (48 <=? code c) && (code c <=? 57).

Definition is_ascii_alpha (c : ascii) : bool :=
  ((65 <=? code c) && (code c <=? 90)) || ((97 <=? code c) && (code c <=? 122)).

(** Latin-1 code points for which [str.isalnum()] holds. *)
Definition is_latin1_alnum (c : ascii) : bool :=
  let n := code c in
  existsb (Nat.eqb n) [170; 178; 179; 181; 185; 186; 188; 189; 190]
  || ((192 <=? n) && (n <=? 214)) || ((216 <=? n) && (n <=? 246)) || (248 <=? n).

(** [\w] *)
Definition is_word (c : ascii) : bool :=
  is_digit c || is_ascii_alpha c || Nat.eqb (code c) 95 || is_latin1_alnum c.

(** ** The matcher *)

(** The longest prefix of digits and what follows it. *)
Definition digits (s : string) : string * string := span is_digit s.

(** [\d{1,3}] followed by the character [sep]: the only digit count the
    backtracking can settle on is the whole run of digits, since a digit
    is never [sep]. *)
Definition octet_then (sep : ascii) (s : string) : option (string * string) :=
  let '(d, r) := digits s in
  if (1 <=? String.length d) && (String.length d <=? 3) then
    match r with
    | String c r' => if Ascii.eqb c sep then Some (d, r') else None
    | EmptyString => None
    end
  else None.

Definition word_before (prev : option ascii) : bool :=
  match prev with Some c => is_word c | None => false end.

Definition word_after (rest : string) : bool :=
  match rest with String c _ => is_word c | EmptyString => false end.

(** [\d{1,5}\b]: a shorter digit count leaves a digit after it, where
    [\b] fails. *)
Definition port_end (s : string) : option (string * string) :=
  let '(d, r) := digits s in
  if (1 <=? String.length d) && (String.length d <=? 5) && negb (word_after r)
  then Some (d, r) else None.

Definition proxy_text (o1 o2 o3 o4 p : string) : string :=
  o1 +:+ "." +:+ o2 +:+ "." +:+ o3 +:+ "." +:+ o4 +:+ ":" +:+ p.

(** The pattern at one position, [prev] being the character before it:
    the match and the rest of the text. *)
Definition match_at (prev : option ascii) (s : string) : option (string * string) :=
  if word_before prev then None else
  match octet_then "." s with None => None | Some (o1, r1) =>
  match octet_then "." r1 with None => None | Some (o2, r2) =>
  match octet_then "." r2 with None => None | Some (o3, r3) =>
  match octet_then ":" r3 with None => None | Some (o4, r4) =>
  match port_end r4 with None => None | Some (p, rest) =>
    Some (proxy_text o1 o2 o3 o4 p, rest)
  end end end end end.

Fixpoint last_char (prev : option ascii) (s : string) : option ascii :=
  match s with EmptyString => prev | String c s' => last_char (Some c) s' end.

(** [re.findall]: try the pattern at each position from the left; after
    a match, go on after it; otherwise move one character.  Each round
    consumes a character, so [length s + 1] rounds are enough. *)
Fixpoint findall_fuel (fuel : nat) (prev : option ascii) (s : string) : list string :=
  match fuel with
  | 0 => []
  | S fuel' =>
      match match_at prev s with
      | Some (m, rest) => m :: findall_fuel fuel' (last_char prev m) rest
      | None =>
          match s with
          | EmptyString => []
          | String c s' => findall_fuel fuel' (Some c) s'
          end
      end
  end.

Definition findall (s : string) : list string := findall_fuel (S (String.length s)) None s.

(** ** The specification *)

Definition all_digits (d : string) : bool := all_of is_digit d.

Definition octet (d : string) : Prop := all_digits d = true /\ 1 <= String.length d <= 3.

Definition port (d : string) : Prop := all_digits d = true /\ 1 <= String.length d <= 5.

Definition proxy_shape (m : string) : Prop :=
  exists o1 o2 o3 o4 p, octet o1 /\ octet o2 /\ octet o3 /\ octet o4 /\ port p /\
    m = proxy_text o1 o2 o3 o4 p.

(** The pattern matches [m] at the start of [s], followed by [rest]:
    [\b] before (the character before is not a word character), the
    shape, and [\b] after. *)
Definition regex_match (prev : option ascii) (s m rest : string) : Prop :=
  word_before prev = false /\ word_after rest = false /\ s = m +:+ rest /\ proxy_shape m.

(** A proxy list in the format the sources serve: each entry followed by
    a separator (a newline, a carriage return and a newline, ...). *)
Fixpoint join_sep (sep : string) (ps : list string) : string :=
  match ps with [] => EmptyString | p :: ps' => p +:+ sep +:+ join_sep sep ps' end.

Definition non_word (c : ascii) : bool := negb (is_word c).

(** ** Lemmas *)

Definition head_digit (r : string) : bool := head_is is_digit r.

Lemma digits_spec s d r :
  digits s = (d, r) -> s = d +:+ r /\ all_digits d = true /\ head_digit r = false.
Proof. apply span_spec. Qed.

Lemma digit_run_unique d1 r1 d2 r2 :
  all_digits d1 = true -> head_digit r1 = false ->
  all_digits d2 = true -> head_digit r2 = false ->
  d1 +:+ r1 = d2 +:+ r2 -> d1 = d2 /\ r1 = r2.
Proof. apply span_unique. Qed.

Lemma word_after_head r : word_after r = false -> head_digit r = false.
Proof. destruct r as [|c r]; simpl; [done|]. unfold is_word. by destruct (is_digit c). Qed.

Lemma octet_then_spec sep s d r :
  is_digit sep = false ->
  octet_then sep s = Some (d, r) <-> octet d /\ s = d +:+ String sep r.
Proof.
  intros Hsep. unfold octet_then. destruct (digits s) as [d0 r0] eqn:Hs.
  destruct (digits_spec _ _ _ Hs) as (-> & Hd0 & Hr0). split.
  - destruct (andb (1 <=? String.length d0) (String.length d0 <=? 3)) eqn:Hl; [|discriminate].
    destruct r0 as [|c r0]; [discriminate|].
    destruct (Ascii.eqb_spec c sep) as [->|]; [|discriminate].
    intros [= <- <-]. apply andb_prop in Hl as [Hl1 Hl2].
    apply Nat.leb_le in Hl1, Hl2. repeat split; done || lia.
  - intros [[Hd Hlen] Heq].
    destruct (digit_run_unique _ _ _ _ Hd0 Hr0 Hd (Hsep : head_digit (String sep r) = false) Heq)
      as [-> ->].
    assert (E : (1 <=? String.length d) && (String.length d <=? 3) = true).
    { apply andb_true_intro. split; apply Nat.leb_le; lia. }
    rewrite E, Ascii.eqb_refl. done.
Qed.

Lemma port_end_spec s d r :
  port_end s = Some (d, r) <-> port d /\ s = d +:+ r /\ word_after r = false.
Proof.
  unfold port_end. destruct (digits s) as [d0 r0] eqn:Hs.
  destruct (digits_spec _ _ _ Hs) as (-> & Hd0 & Hr0). split.
  - destruct (andb (andb (1 <=? String.length d0) (String.length d0 <=? 5)) (negb (word_after r0)))
      eqn:Hl; [|discriminate].
    intros [= <- <-]. apply andb_prop in Hl as [Hl Hw]. apply andb_prop in Hl as [Hl1 Hl2].
    apply Nat.leb_le in Hl1, Hl2. apply negb_true_iff in Hw. repeat split; done || lia.
  - intros ([Hd Hlen] & Heq & Hw).
    destruct (digit_run_unique _ _ _ _ Hd0 Hr0 Hd (word_after_head _ Hw) Heq) as [-> ->].
    assert (E : (1 <=? String.length d) && (String.length d <=? 5) && negb (word_after r) = true).
    { rewrite Hw. apply andb_true_intro. split; [|done].
      apply andb_true_intro. split; apply Nat.leb_le; lia. }
    rewrite E. done.
Qed.

Lemma proxy_text_app o1 o2 o3 o4 p rest :
  proxy_text o1 o2 o3 o4 p +:+ rest =
  o1 +:+ String "." (o2 +:+ String "." (o3 +:+ String "." (o4 +:+ String ":" (p +:+ rest)))).
Proof. unfold proxy_text. rewrite !string_app_assoc. reflexivity. Qed.

#[export] Hint Resolve word_after_head : viewsbot.

Lemma dot_not_digit : is_digit "." = false.
Proof. reflexivity. Qed.

Lemma colon_not_digit : is_digit ":" = false.
Proof. reflexivity. Qed.

Lemma match_at_sound prev s m rest :
  match_at prev s = Some (m, rest) -> regex_match prev s m rest.
Proof.
  unfold match_at, regex_match, proxy_shape.
  destruct (word_before prev) eqn:Hb; [discriminate|].
  destruct (octet_then "." s) as [[o1 r1]|] eqn:H1; [|discriminate].
  destruct (octet_then "." r1) as [[o2 r2]|] eqn:H2; [|discriminate].
  destruct (octet_then "." r2) as [[o3 r3]|] eqn:H3; [|discriminate].
  destruct (octet_then ":" r3) as [[o4 r4]|] eqn:H4; [|discriminate].
  destruct (port_end r4) as [[p r5]|] eqn:H5; [|discriminate].
  intros [= <- <-].
  apply octet_then_spec in H1 as [Ho1 ->], H2 as [Ho2 ->], H3 as [Ho3 ->], H4 as [Ho4 ->];
    try reflexivity.
  apply port_end_spec in H5 as (Hp & -> & Hw).
  split; [done|]. split; [done|]. split; [by rewrite proxy_text_app|].
  exists o1, o2, o3, o4, p. done.
Qed.

Lemma match_at_complete prev s m rest :
  regex_match prev s m rest -> match_at prev s = Some (m, rest).
Proof.
  unfold match_at, regex_match, proxy_shape.
  intros (Hb & Hw & -> & o1 & o2 & o3 & o4 & p & Ho1 & Ho2 & Ho3 & Ho4 & Hp & ->).
  rewrite Hb, proxy_text_app.
  rewrite (proj2 (octet_then_spec _ _ _ _ dot_not_digit) (conj Ho1 eq_refl)).
  rewrite (proj2 (octet_then_spec _ _ _ _ dot_not_digit) (conj Ho2 eq_refl)).
  rewrite (proj2 (octet_then_spec _ _ _ _ dot_not_digit) (conj Ho3 eq_refl)).
  rewrite (proj2 (octet_then_spec _ _ _ _ colon_not_digit) (conj Ho4 eq_refl)).
  by rewrite (proj2 (port_end_spec _ _ _) (conj Hp (conj eq_refl Hw))).
Qed.

(** Everything the scan extracts, whatever its fuel, has the proxy
    shape and occurs in the text. *)
Lemma findall_fuel_sound fuel prev text m :
  In m (findall_fuel fuel prev text) -> proxy_shape m /\ exists a b, text = a +:+ m +:+ b.
Proof.
  revert text prev. induction fuel as [|fuel IH]; intros text prev Hin; [done|].
  simpl in Hin. destruct (match_at prev text) as [[m0 rest]|] eqn:Hm.
  - destruct Hin as [<-|Hin].
    + apply match_at_sound in Hm as (_ & _ & -> & Hs). split; [done|].
      exists EmptyString, rest. done.
    + destruct (IH _ _ Hin) as [Hs (a & b & ->)]. split; [done|].
      apply match_at_sound in Hm as (_ & _ & -> & _).
      exists (m0 +:+ a), b. by rewrite !string_app_assoc.
  - destruct text as [|c text]; [done|].
    destruct (IH _ _ Hin) as [Hs (a & b & ->)]. split; [done|].
    exists (String c a), b. done.
Qed.

Lemma match_at_length prev s m rest :
  match_at prev s = Some (m, rest) -> String.length rest < String.length s.
Proof.
  intros H. apply match_at_sound in H as (_ & _ & -> & o1 & o2 & o3 & o4 & p & _ & _ & _ & _ & _ & ->).
  rewrite string_length_app. unfold proxy_text. rewrite !string_length_app. simpl. lia.
Qed.

Lemma findall_fuel_stable f1 f2 prev text :
  String.length text < f1 -> String.length text < f2 ->
  findall_fuel f1 prev text = findall_fuel f2 prev text.
Proof.
  revert f2 prev text. induction f1 as [|f1 IH]; intros [|f2] prev t H1 H2; try lia. simpl.
  destruct (match_at prev t) as [[m rest]|] eqn:Hm.
  - pose proof (match_at_length _ _ _ _ Hm). f_equal. apply IH; lia.
  - destruct t as [|c t]; [done|]. simpl in H1, H2. apply IH; lia.
Qed.

Lemma non_word_not_digit c : non_word c = true -> is_digit c = false.
Proof. unfold non_word, is_word. destruct (is_digit c); done. Qed.

Lemma match_at_non_digit prev c s : is_digit c = false -> match_at prev (String c s) = None.
Proof.
  intros Hc. unfold match_at, octet_then, digits. destruct (word_before prev); [done|].
  simpl. by rewrite Hc.
Qed.

Lemma match_at_empty prev : match_at prev EmptyString = None.
Proof. unfold match_at. by destruct (word_before prev). Qed.

(** The scan steps over a run of non-word characters one at a time. *)
Lemma findall_fuel_skip sep f prev t :
  all_of non_word sep = true ->
  findall_fuel (String.length sep + f) prev (sep +:+ t) = findall_fuel f (last_char prev sep) t.
Proof.
  revert prev. induction sep as [|c sep IH]; intros prev Hs; [done|].
  simpl in Hs. apply andb_prop in Hs as [Hc Hs]. rewrite string_app_cons. simpl.
  rewrite match_at_non_digit by (by apply non_word_not_digit). by apply IH.
Qed.

Lemma last_char_non_word prev sep :
  all_of non_word sep = true -> sep <> EmptyString -> word_before (last_char prev sep) = false.
Proof.
  revert prev. induction sep as [|c sep IH]; intros prev Hs Hne; [done|].
  simpl in Hs |- *. apply andb_prop in Hs as [Hc Hs]. destruct sep as [|c' sep'].
  - simpl. by apply negb_true_iff in Hc.
  - by apply IH.
Qed.

Lemma word_after_non_word sep r :
  all_of non_word sep = true -> sep <> EmptyString -> word_after (sep +:+ r) = false.
Proof.
  destruct sep as [|c sep]; [done|]. simpl. intros Hs _.
  apply andb_prop in Hs as [Hc _]. by apply negb_true_iff in Hc.
Qed.

Lemma proxy_shape_nonempty m : proxy_shape m -> 1 <= String.length m.
Proof.
  intros (o1 & o2 & o3 & o4 & p & _ & _ & _ & _ & _ & ->).
  unfold proxy_text. rewrite !string_length_app. simpl. lia.
Qed.

Lemma proxy_shape_of_match prev s m r : match_at prev s = Some (m, r) -> proxy_shape m.
Proof. intros H. apply match_at_sound in H as (_ & _ & _ & Hm). exact Hm. Qed.

Lemma findall_fuel_join sep ps prev f :
  Forall proxy_shape ps -> all_of non_word sep = true -> sep <> EmptyString ->
  word_before prev = false -> String.length (join_sep sep ps) < f ->
  findall_fuel f prev (join_sep sep ps) = ps.
Proof.
  intros Hps Hsep Hne. revert prev f.
  induction Hps as [|p ps Hp Hps IH]; intros prev f Hb Hf; destruct f as [|f]; try lia.
  - simpl. by rewrite match_at_empty.
  - simpl join_sep in *. rewrite !string_length_app in Hf. pose proof (proxy_shape_nonempty _ Hp).
    simpl. rewrite (match_at_complete prev _ p (sep +:+ join_sep sep ps)).
    2: { repeat split; auto using word_after_non_word. }
    f_equal. rewrite (findall_fuel_stable f (String.length sep + S (String.length (join_sep sep ps))))
      by (rewrite ?string_length_app; lia).
    rewrite findall_fuel_skip by done. apply IH; [by apply last_char_non_word|lia].
Qed.

(** ** Theorems *)

(** C12: the matcher decides the pattern.  [match_at prev s] returns
    [(m, rest)] exactly when [\b(?:\d{1,3}\.){3}\d{1,3}:\d{1,5}\b]
    matches [m] at the start of [s] (after the character [prev]) with
    [rest] following: no word character before, four runs of one to
    three digits separated by dots, a colon, one to five digits, and no
    word character after. *)
Theorem match_at_spec prev s m rest :
  match_at prev s = Some (m, rest) <-> regex_match prev s m rest.
Proof. split; [apply match_at_sound|apply match_at_complete]. Qed.

Lemma match_at_spec_witness :
  regex_match None "1.2.3.4:8080 x" "1.2.3.4:8080" " x" /\
  match_at None "1.2.3.4:8080 x" = Some ("1.2.3.4:8080", " x").
Proof.
  assert (H : match_at None "1.2.3.4:8080 x" = Some ("1.2.3.4:8080", " x")) by reflexivity.
  split; [exact (proj1 (match_at_spec _ _ _ _) H)|].
  apply (match_at_spec None "1.2.3.4:8080 x" "1.2.3.4:8080" " x").
  exact (proj1 (match_at_spec _ _ _ _) H).
Defined.

(** At a given position the pattern matches at most one way, so
    following the single path of [match_at] loses none of the
    backtracking's alternatives. *)
Lemma regex_match_unique prev s m1 r1 m2 r2 :
  regex_match prev s m1 r1 -> regex_match prev s m2 r2 -> m1 = m2 /\ r1 = r2.
Proof.
  intros H1 H2. apply match_at_complete in H1, H2. rewrite H1 in H2. by injection H2.
Qed.

(** C13: soundness of the extraction.  Every string [findall] returns
    has the shape [o1.o2.o3.o4:p] (one to three digits per octet, one to
    five for the port) and occurs in the text. *)
Theorem findall_sound text m :
  In m (findall text) -> proxy_shape m /\ exists a b, text = a +:+ m +:+ b.
Proof. apply findall_fuel_sound. Qed.

Lemma findall_sound_witness :
  In "5.6.7.8:3128" (findall "proxies: 1.2.3.4:8080, 5.6.7.8:3128") /\
  proxy_shape "5.6.7.8:3128" /\
  exists a b, "proxies: 1.2.3.4:8080, 5.6.7.8:3128" = a +:+ "5.6.7.8:3128" +:+ b.
Proof.
  assert (H : In "5.6.7.8:3128" (findall "proxies: 1.2.3.4:8080, 5.6.7.8:3128")).
  { vm_compute. right. left. reflexivity. }
  split; [exact H|]. exact (findall_sound _ _ H).
Defined.

(** The fuel of [findall] is enough: every round of the scan consumes at
    least one character, so any fuel larger than the length of the text
    gives the same list as [findall]'s [length + 1]. *)
Lemma findall_fuel_enough fuel prev text :
  String.length text < fuel ->
  findall_fuel fuel prev text = findall_fuel (S (String.length text)) prev text.
Proof.
  intros H. apply findall_fuel_stable; lia.
Qed.

(** C28: round trip of a proxy list.  A text made of well-formed
    entries [o1.o2.o3.o4:p], each followed by the same non-empty run of
    non-word characters (a newline, ["\r\n"], a space, a comma), is
    extracted by [findall] exactly: every entry, in order, nothing else. *)
Theorem findall_join sep ps :
  Forall proxy_shape ps -> all_of non_word sep = true -> sep <> EmptyString ->
  findall (join_sep sep ps) = ps.
Proof. intros Hps Hs Hne. apply findall_fuel_join; auto. Qed.

Lemma findall_join_witness :
  Forall proxy_shape ["1.2.3.4:8080"; "10.0.0.1:3128"] /\
  findall (join_sep "
" ["1.2.3.4:8080"; "10.0.0.1:3128"]) = ["1.2.3.4:8080"; "10.0.0.1:3128"].
Proof.
  assert (Hps : Forall proxy_shape ["1.2.3.4:8080"; "10.0.0.1:3128"]).
  { constructor; [|constructor; [|constructor]]; match goal with |- proxy_shape ?m => apply (proxy_shape_of_match None m m EmptyString); reflexivity end. }
  split; [exact Hps|]. apply (findall_join "
" _ Hps); [reflexivity|discriminate].
Defined.

End ProxyRegex.
