(* ===== verification/ProxyScraper.v ===== *)
(** * ProxyScraper: [src/proxy_scrapper.py]

    The class [ProxyScraper] keeps one set, [self.proxies], created empty
    by [__init__] and never cleared: [scrape] adds to it the proxies of
    every source and then validates every member.  This file models
    - the HTTP exchange as the code sees it ([http_result]: an exception,
      or a status and a body) and [requests]' [raise_for_status];
    - [fetch_proxy_list]: the extracted set, or the empty set on any
      exception;
    - [test_proxy]: [True] exactly on a status-200 response;
    - [scrape]: the source loop (with the label [source.split('/')[-2]]
      that is computed only when a callback is given, and raises
      [IndexError] on a URL with no ['/']), the validation loop over the
      order in which [as_completed] yields the futures (any order of the
      set's elements), and the messages passed to [status_callback].
    Percentages in the messages are not modelled; the counts they are
    computed from are. *)

From S2P Require Import Prelude ProxyRegex Config.
From Stdlib Require Import Ascii.
Import ProxyRegex.

Module ProxyScraper.

(** ** HTTP as seen by [requests] *)

Inductive http_result :=
  | HttpRaised
  | HttpResponse (status : Z) (body : string).

(** [Response.raise_for_status]: a client (4xx) or server (5xx) error
    raises [HTTPError]. *)
Definition raise_for_status (status : Z) : bool := (400 <=? status)%Z && (status <? 600)%Z.

(** ** State *)

(** [__init__] (lines 9-11). *)
Record scraper := mk_scraper { proxies : gset string }.

Definition init : scraper := mk_scraper ∅.

(** ** Operations *)

(** [fetch_proxy_list] (lines 13-28). *)
Definition fetch_proxy_list (r : http_result) : gset string :=
  match r with
  | HttpRaised => ∅
  | HttpResponse status body =>
      if raise_for_status status then ∅ else list_to_set (findall body)
  end.

(** [test_proxy] (lines 30-46): the GET of [https://t.me] through the
    proxy. *)
Definition test_proxy (r : http_result) : bool :=
  match r with
  | HttpResponse status _ => Z.eqb status 200
  | HttpRaised => false
  end.

(** [source.split('/')]. *)
Definition split_slash (s : string) : list string := str_split "/" s.

(** [source.split('/')[-2]] (line 57); [None] is the [IndexError]. *)
Definition source_label (source : string) : option string :=
  match reverse (split_slash source) with
  | _ :: x :: _ => Some x
  | _ => None
  end.

(** What [status_callback] receives (lines 53, 57, 62-65, 74, 87, 108,
    125), by the counts it shows. *)
Inductive scrape_msg :=
  | MsgStart
  | MsgFetching (label : string)
  | MsgFound (n_new n_unique : nat)
  | MsgCollected (n_unique n_with_duplicates : nat)
  | MsgTesting (total : nat)
  | MsgProgress (tested total working : nat)
  | MsgTested (total working : nat).

#[export] Instance scrape_msg_eq_dec : EqDecision scrape_msg.
Proof. solve_decision. Defined.

Definition emit (cb : bool) (m : scrape_msg) : list scrape_msg := if cb then [m] else [].

(** The source loop (lines 55-65): [cb] says whether a callback was
    given, [fetch] what each source's GET does. *)
Inductive collect_result :=
  | Collected (ps : gset string) (total_found : nat) (msgs : list scrape_msg)
  | LabelError (ps : gset string) (msgs : list scrape_msg).

Fixpoint collect (cb : bool) (fetch : string -> http_result) (sources : list string)
    (ps : gset string) (total_found : nat) : collect_result :=
  match sources with
  | [] => Collected ps total_found []
  | source :: rest =>
      let label := if cb then source_label source else Some "" in
      match label with
      | None => LabelError ps []
      | Some l =>
          let new := fetch_proxy_list (fetch source) in
          let ps' := ps ∪ new in
          let msgs := emit cb (MsgFetching l) ++ emit cb (MsgFound (size new) (size ps')) in
          match collect cb fetch rest ps' (total_found + size new) with
          | Collected ps'' t ms => Collected ps'' t (msgs ++ ms)
          | LabelError ps'' ms => LabelError ps'' (msgs ++ ms)
          end
      end
  end.

(** The loop over [as_completed] (lines 95-114), in completion order:
    the count, the progress message every 50 completions (showing the
    working proxies found before this one), then the result. *)
Fixpoint validate_loop (cb : bool) (test : string -> bool) (total tested : nat)
    (working : list string) (order : list string) : list string * list scrape_msg :=
  match order with
  | [] => (working, [])
  | p :: rest =>
      let tested' := S tested in
      let msgs := if Nat.eqb (tested' mod 50) 0
                  then emit cb (MsgProgress tested' total (length working)) else [] in
      let working' := if test p then working ++ [p] else working in
      let '(w, ms) := validate_loop cb test total tested' working' rest in
      (w, msgs ++ ms)
  end.

(** The result of [await scrape(...)]: it raises [IndexError] (after
    adding the proxies of the sources before the faulty one to
    [self.proxies]) or returns the working proxies. *)
Inductive scrape_result :=
  | ScrapeRaised (st : scraper)
  | ScrapeReturned (st : scraper) (working : list string) (msgs : list scrape_msg).

(** [scrape] (lines 48-127).  [order] is the order in which
    [as_completed] yields the proxies of the set it is given; [probe]
    is what the GET of [test_proxy] does through each proxy. *)
Definition scrape (cb : bool) (sources : list string) (fetch : string -> http_result)
    (probe : string -> http_result) (order : gset string -> list string)
    (st : scraper) : scrape_result :=
  match collect cb fetch sources (proxies st) 0 with
  | LabelError ps _ => ScrapeRaised (mk_scraper ps)
  | Collected ps total_found msgs =>
      let total := size ps in
      let '(working, vmsgs) :=
        validate_loop cb (fun p => test_proxy (probe p)) total 0 [] (order ps) in
      ScrapeReturned (mk_scraper ps) working
        (emit cb MsgStart ++ msgs ++ emit cb (MsgCollected total total_found) ++
         emit cb (MsgTesting total) ++ vmsgs ++ emit cb (MsgTested total (length working)))
  end.

(** [get_working_proxies] (lines 129-131). *)
Definition get_working_proxies (st : scraper) : list string := elements (proxies st).

(** ** Helpers of the statements *)

(** The set each source contributes. *)
Definition fetched (fetch : string -> http_result) (sources : list string) : list (gset string) :=
  (fun s => fetch_proxy_list (fetch s)) <$> sources.

(** The labels are computed only with a callback. *)
Definition labels_ok (cb : bool) (sources : list string) : Prop :=
  cb = true -> Forall (fun s => is_Some (source_label s)) sources.

(** [as_completed] yields each future of the set once. *)
Definition completion_order (order : gset string -> list string) : Prop :=
  forall X, order X ≡ₚ elements X.

(** The type invariant of the scraper: its set holds only strings of
    the [ip:port] shape the extraction produces. *)
Definition scraper_wf (st : scraper) : Prop := set_Forall proxy_shape (proxies st).

(** ** Lemmas *)

Lemma collect_ok cb fetch sources ps t :
  labels_ok cb sources ->
  exists msgs, collect cb fetch sources ps t =
    Collected (ps ∪ ⋃ fetched fetch sources) (t + sum_list_with size (fetched fetch sources)) msgs.
Proof.
  unfold labels_ok. revert ps t. induction sources as [|s rest IH]; intros ps t Hl; simpl.
  - exists []. f_equal; [set_solver|lia].
  - assert (Hlab : exists l, (if cb then source_label s else Some "") = Some l).
    { destruct cb; [|by eexists]. destruct (Forall_inv (Hl eq_refl)) as [l Hs]. by exists l. }
    destruct Hlab as [l ->].
    destruct (IH (ps ∪ fetch_proxy_list (fetch s)) (t + size (fetch_proxy_list (fetch s))))
      as [ms Hc]; [intros Hcb; exact (Forall_inv_tail (Hl Hcb))|].
    rewrite Hc. eexists. f_equal; [set_solver|lia].
Qed.

Lemma validate_loop_fst cb test total tested working order :
  fst (validate_loop cb test total tested working order) = working ++ List.filter test order.
Proof.
  revert tested working. induction order as [|p rest IH]; intros tested working; simpl.
  - by rewrite app_nil_r.
  - destruct (validate_loop cb test total (S tested) (if test p then working ++ [p] else working) rest)
      as [w ms] eqn:Hv.
    simpl. specialize (IH (S tested) (if test p then working ++ [p] else working)).
    rewrite Hv in IH. simpl in IH. rewrite IH. destruct (test p); [|done]. rewrite <- app_assoc. reflexivity.
Qed.

Lemma validate_loop_progress cb test total tested working order k n c :
  In (MsgProgress k n c) (snd (validate_loop cb test total tested working order)) ->
  n = total /\ tested < k <= tested + length order /\ k mod 50 = 0 /\
  c = length working + length (List.filter test (take (k - 1 - tested) order)).
Proof.
  revert tested working. induction order as [|p rest IH]; intros tested working Hin.
  - done.
  - cbn [validate_loop] in Hin.
    destruct (validate_loop cb test total (S tested) (if test p then working ++ [p] else working) rest)
      as [w ms] eqn:Hv.
    cbn [snd] in Hin. apply in_app_or in Hin as [Hin|Hin].
    + destruct (Nat.eqb_spec (S tested mod 50) 0) as [H50|]; [|done].
      destruct cb; [|done]. destruct Hin as [Hm|[]]. injection Hm as <- <- <-.
      replace (S tested - 1 - tested) with 0 by lia. rewrite take_0.
      cbn [List.filter length]. repeat split; lia.
    + specialize (IH (S tested) (if test p then working ++ [p] else working)).
      rewrite Hv in IH. destruct (IH Hin) as (-> & Hk & Hm & ->). cbn [length] in *.
      split; [done|]. split; [lia|]. split; [done|].
      replace (k - 1 - tested) with (S (k - 1 - S tested)) by lia.
      rewrite firstn_cons. cbn [List.filter].
      destruct (test p); cbn [length]; [rewrite length_app; cbn [length]; lia|lia].
Qed.

Lemma scrape_returned_inv cb sources fetch probe order st st' w msgs :
  scrape cb sources fetch probe order st = ScrapeReturned st' w msgs ->
  exists t cmsgs, collect cb fetch sources (proxies st) 0 = Collected (proxies st') t cmsgs /\
    validate_loop cb (fun p => test_proxy (probe p)) (size (proxies st')) 0 [] (order (proxies st'))
    = (w, snd (validate_loop cb (fun p => test_proxy (probe p)) (size (proxies st')) 0 []
                 (order (proxies st')))) /\
    (forall m, In m (snd (validate_loop cb (fun p => test_proxy (probe p)) (size (proxies st')) 0 []
                 (order (proxies st')))) -> In m msgs).
Proof.
  unfold scrape. destruct (collect cb fetch sources (proxies st) 0) as [ps t cm|]; [|discriminate].
  destruct (validate_loop cb (fun p => test_proxy (probe p)) (size ps) 0 [] (order ps))
    as [wk vm] eqn:Hv.
  intros [= <- <- <-]. exists t, cm. simpl. rewrite Hv. split; [done|]. split; [done|].
  intros m Hm. rewrite !in_app_iff. tauto.
Qed.

Lemma collect_monotone cb fetch sources ps t :
  match collect cb fetch sources ps t with
  | Collected ps' _ _ | LabelError ps' _ => ps ⊆ ps'
  end.
Proof.
  revert ps t. induction sources as [|s rest IH]; intros ps t; simpl; [done|].
  destruct (if cb then source_label s else Some ""); [|done].
  specialize (IH (ps ∪ fetch_proxy_list (fetch s)) (t + size (fetch_proxy_list (fetch s)))).
  destruct (collect cb fetch rest _ _); set_solver.
Qed.

Definition is_progress (m : scrape_msg) : bool :=
  match m with MsgProgress _ _ _ => true | _ => false end.

Lemma in_emit cb m m' : In m' (emit cb m) -> m' = m.
Proof. unfold emit. destruct cb; simpl; [intros [->|[]]|]; done. Qed.

Lemma emit_no_progress cb m :
  is_progress m = false -> Forall (fun m => is_progress m = false) (emit cb m).
Proof. intros Hm. unfold emit. destruct cb; repeat constructor. exact Hm. Qed.

Lemma collect_no_progress cb fetch sources ps t :
  match collect cb fetch sources ps t with
  | Collected _ _ msgs | LabelError _ msgs => Forall (fun m => is_progress m = false) msgs
  end.
Proof.
  revert ps t. induction sources as [|s rest IH]; intros ps t; simpl; [done|].
  destruct (if cb then source_label s else Some ""); [|done].
  specialize (IH (ps ∪ fetch_proxy_list (fetch s)) (t + size (fetch_proxy_list (fetch s)))).
  destruct (collect cb fetch rest _ _); apply Forall_app;
    (split; [apply Forall_app; split; by apply emit_no_progress|exact IH]).
Qed.

Lemma scrape_returned_filter cb sources fetch probe order st st' w msgs :
  scrape cb sources fetch probe order st = ScrapeReturned st' w msgs ->
  w = List.filter (fun p => test_proxy (probe p)) (order (proxies st')).
Proof.
  intros Hs. destruct (scrape_returned_inv _ _ _ _ _ _ _ _ _ Hs) as (t & cm & _ & Hv & _).
  pose proof (f_equal fst Hv) as Hw. rewrite validate_loop_fst in Hw. simpl in Hw. by symmetry.
Qed.

Lemma fetch_proxy_list_shape r : set_Forall proxy_shape (fetch_proxy_list r).
Proof.
  intros p Hp. destruct r as [|status body]; simpl in Hp; [set_solver|].
  destruct (raise_for_status status); [set_solver|].
  apply elem_of_list_to_set, list_elem_of_In in Hp. exact (proj1 (findall_fuel_sound _ _ _ _ Hp)).
Qed.

Lemma collect_shape cb fetch sources ps t :
  set_Forall proxy_shape ps ->
  match collect cb fetch sources ps t with
  | Collected ps' _ _ | LabelError ps' _ => set_Forall proxy_shape ps'
  end.
Proof.
  revert ps t. induction sources as [|s rest IH]; intros ps t Hps; simpl; [done|].
  destruct (if cb then source_label s else Some ""); [|done].
  specialize (IH (ps ∪ fetch_proxy_list (fetch s)) (t + size (fetch_proxy_list (fetch s)))).
  destruct (collect cb fetch rest _ _); apply IH, set_Forall_union; auto using fetch_proxy_list_shape.
Qed.

(** ** Theorems *)

(** C15: deduplication.  When every label can be computed, the source
    loop started on an empty set yields the union of the sets extracted
    from the sources, the "with duplicates" total is the sum of their
    sizes, and the union is no larger than that sum. *)
Theorem collect_dedup cb fetch sources :
  labels_ok cb sources ->
  exists msgs, collect cb fetch sources ∅ 0 =
    Collected (⋃ fetched fetch sources) (sum_list_with size (fetched fetch sources)) msgs /\
    size (⋃ fetched fetch sources : gset string) <= sum_list_with size (fetched fetch sources).
Proof.
  intros Hl. destruct (collect_ok cb fetch sources ∅ 0 Hl) as [msgs Hc].
  exists msgs. rewrite Hc, (left_id_L ∅ union). split; [done|]. apply size_union_list_le.
Qed.

(** C17: the working proxies [scrape] returns are exactly the members of
    [self.proxies] (after this run's sources were added) whose probe
    answered 200, each once, whatever order [as_completed] yields them
    in. *)
Theorem scrape_working cb sources fetch probe order st st' w msgs :
  completion_order order ->
  scrape cb sources fetch probe order st = ScrapeReturned st' w msgs ->
  NoDup w /\ (forall p, In p w <-> p ∈ proxies st' /\ test_proxy (probe p) = true).
Proof.
  intros Hord Hs. rewrite (scrape_returned_filter _ _ _ _ _ _ _ _ _ Hs).
  split.
  - apply NoDup_ListNoDup, List.NoDup_filter, NoDup_ListNoDup.
    rewrite (Hord (proxies st')). apply NoDup_elements.
  - intros p. rewrite filter_In, <- list_elem_of_In, (Hord (proxies st')), elem_of_elements.
    done.
Qed.

(** C18: the progress messages of the validation loop are sent at the
    50th, 100th, ... completion, never beyond the number of proxies (so
    the percentage [tested/total*100] never divides by zero), and show
    the working proxies among the completions before the current one. *)
Theorem scrape_progress_bounds cb sources fetch probe order st st' w msgs k n c :
  completion_order order ->
  scrape cb sources fetch probe order st = ScrapeReturned st' w msgs ->
  In (MsgProgress k n c) msgs ->
  n = size (proxies st') /\ 0 < k <= n /\ k mod 50 = 0 /\
  c = length (List.filter (fun p => test_proxy (probe p)) (take (k - 1) (order (proxies st')))).
Proof.
  intros Hord Hs Hin. unfold scrape in Hs.
  destruct (collect cb fetch sources (proxies st) 0) as [ps t cm|] eqn:Hc; [|discriminate].
  destruct (validate_loop cb (fun p => test_proxy (probe p)) (size ps) 0 [] (order ps))
    as [wk vm] eqn:Hv.
  injection Hs as <- <- <-. cbn [proxies].
  assert (Hm : In (MsgProgress k n c) vm).
  { pose proof (collect_no_progress cb fetch sources (proxies st) 0) as Hnp. rewrite Hc in Hnp.
    rewrite !in_app_iff in Hin. unfold emit in Hin.
    destruct Hin as [Hin|[Hin|[Hin|[Hin|[Hin|Hin]]]]]; try done;
      try (apply in_emit in Hin; discriminate).
    apply (proj1 (List.Forall_forall _ _) Hnp) in Hin. discriminate. }
  pose proof (validate_loop_progress cb (fun p => test_proxy (probe p)) (size ps) 0 [] (order ps) k n c)
    as Hp.
  rewrite Hv in Hp. destruct (Hp Hm) as (-> & Hk & H50 & ->).
  rewrite (Permutation_length (Hord ps)), length_elements_size in Hk.
  replace (k - 1 - 0) with (k - 1) by lia. cbn [length]. repeat split; lia.
Qed.

Lemma collect_label_error fetch sources ps t :
  Exists (fun s => source_label s = None) sources ->
  exists ps' msgs, collect true fetch sources ps t = LabelError ps' msgs.
Proof.
  intros Hex. revert ps t. induction Hex as [s rest Hs|s rest _ IH]; intros ps t; simpl.
  - rewrite Hs. by eexists _, _.
  - destruct (source_label s); [|by eexists _, _].
    destruct (IH (ps ∪ fetch_proxy_list (fetch s)) (t + size (fetch_proxy_list (fetch s))))
      as (ps' & ms & ->).
    by eexists _, _.
Qed.

(** C19: [self.proxies] is never cleared: a later [scrape] keeps every
    proxy of the earlier ones, validates them again and returns those
    that still answer, although no source of this run lists them.  The
    spec has no proxy list persisting across runs (section 1). *)
Theorem scrape_returns_stale_proxies cb sources fetch probe order st st' w msgs :
  completion_order order ->
  scrape cb sources fetch probe order st = ScrapeReturned st' w msgs ->
  proxies st ⊆ proxies st' /\
  (forall p, p ∈ proxies st -> test_proxy (probe p) = true -> In p w).
Proof.
  intros Hord Hs. destruct (scrape_returned_inv _ _ _ _ _ _ _ _ _ Hs) as (t & cm & Hc & Hv & _).
  pose proof (collect_monotone cb fetch sources (proxies st) 0) as Hmono. rewrite Hc in Hmono.
  pose proof (f_equal fst Hv) as Hw. rewrite validate_loop_fst in Hw. simpl in Hw. subst w.
  split; [exact Hmono|]. intros p Hp Ht.
  apply filter_In. split; [|exact Ht].
  apply list_elem_of_In. rewrite (Hord (proxies st')), elem_of_elements. set_solver.
Qed.

(** C20: with a callback, a source URL with no ['/'] makes [scrape]
    raise [IndexError] from [source.split('/')[-2]] (after the sources
    before it were added to [self.proxies]); without a callback the
    label is never computed and the same sources are scraped. *)
Theorem scrape_label_error sources fetch probe order st :
  Exists (fun s => source_label s = None) sources ->
  (exists st', scrape true sources fetch probe order st = ScrapeRaised st') /\
  (exists st' w msgs, scrape false sources fetch probe order st = ScrapeReturned st' w msgs).
Proof.
  intros Hex. split.
  - destruct (collect_label_error fetch sources (proxies st) 0 Hex) as (ps' & ms & Hc).
    unfold scrape. rewrite Hc. by eexists.
  - destruct (collect_ok false fetch sources (proxies st) 0) as [ms Hc]; [done|].
    unfold scrape. rewrite Hc.
    destruct (validate_loop _ _ _ _ _ _). by eexists _, _, _.
Qed.

(** The labels [scrape] shows for the configured sources: two of the four
    sources are both shown as "master". *)
Example source_labels_config :
  source_label <$> Config.PROXY_SOURCES =
  [Some "master"; Some "master"; Some "proxies"; Some "proxy-list"].
Proof. reflexivity. Qed.

(** ** Witnesses on the spec's scenarios *)

Definition src1 : string := "https://lists.example/a/one/list.txt".
Definition src2 : string := "https://lists.example/b/two/list.txt".
Definition src3 : string := "https://lists.example/c/three/list.txt".

(** Three sources listing "1.2.3.4:8080", "1.2.3.4:8080" and
    "5.6.7.8:3128"; any other URL fails. *)
Definition scenario_fetch (s : string) : http_result :=
  if String.eqb s src1 then HttpResponse 200 "1.2.3.4:8080"
  else if String.eqb s src2 then HttpResponse 200 "# list
1.2.3.4:8080
"
  else if String.eqb s src3 then HttpResponse 200 "5.6.7.8:3128"
  else HttpRaised.

(** The first proxy's probe times out, the second answers 200. *)
Definition scenario_probe (p : string) : http_result :=
  if String.eqb p "5.6.7.8:3128" then HttpResponse 200 "" else HttpRaised.

Definition dead_sources (s : string) : http_result := HttpRaised.

Lemma elements_completion_order : completion_order elements.
Proof. intros X. done. Qed.

Lemma collect_dedup_witness :
  labels_ok true [src1; src2; src3] /\
  size (⋃ fetched scenario_fetch [src1; src2; src3] : gset string) = 2 /\
  sum_list_with size (fetched scenario_fetch [src1; src2; src3]) = 3 /\
  exists msgs, collect true scenario_fetch [src1; src2; src3] ∅ 0 =
    Collected (⋃ fetched scenario_fetch [src1; src2; src3])
              (sum_list_with size (fetched scenario_fetch [src1; src2; src3])) msgs /\
    size (⋃ fetched scenario_fetch [src1; src2; src3] : gset string) <=
      sum_list_with size (fetched scenario_fetch [src1; src2; src3]).
Proof.
  assert (Hl : labels_ok true [src1; src2; src3]).
  { intros _. repeat constructor; eexists; reflexivity. }
  split; [exact Hl|]. split; [vm_compute; reflexivity|]. split; [vm_compute; reflexivity|].
  exact (collect_dedup true scenario_fetch [src1; src2; src3] Hl).
Defined.

Lemma scrape_working_witness :
  exists st' msgs,
    scrape true [src1; src2; src3] scenario_fetch scenario_probe elements init
      = ScrapeReturned st' ["5.6.7.8:3128"] msgs /\
    NoDup ["5.6.7.8:3128"] /\
    (forall p, In p ["5.6.7.8:3128"] <-> p ∈ proxies st' /\ test_proxy (scenario_probe p) = true).
Proof.
  destruct (scrape true [src1; src2; src3] scenario_fetch scenario_probe elements init)
    as [|st' w msgs] eqn:Hs; [vm_compute in Hs; discriminate|].
  assert (Hw : w = ["5.6.7.8:3128"]) by (vm_compute in Hs; injection Hs as _ <- _; reflexivity).
  subst w. exists st', msgs. split; [reflexivity || exact Hs|].
  exact (scrape_working _ _ _ _ _ _ _ _ _ elements_completion_order Hs).
Defined.

(** Fifty proxies, all answering: the progress message at the 50th. *)
Definition fifty_text : string := "10.1.0.1:80 10.1.0.2:80 10.1.0.3:80 10.1.0.4:80 10.1.0.5:80 10.1.0.6:80 10.1.0.7:80 10.1.0.8:80 10.1.0.9:80 10.1.0.10:80 10.1.0.11:80 10.1.0.12:80 10.1.0.13:80 10.1.0.14:80 10.1.0.15:80 10.1.0.16:80 10.1.0.17:80 10.1.0.18:80 10.1.0.19:80 10.1.0.20:80 10.1.0.21:80 10.1.0.22:80 10.1.0.23:80 10.1.0.24:80 10.1.0.25:80 10.1.0.26:80 10.1.0.27:80 10.1.0.28:80 10.1.0.29:80 10.1.0.30:80 10.1.0.31:80 10.1.0.32:80 10.1.0.33:80 10.1.0.34:80 10.1.0.35:80 10.1.0.36:80 10.1.0.37:80 10.1.0.38:80 10.1.0.39:80 10.1.0.40:80 10.1.0.41:80 10.1.0.42:80 10.1.0.43:80 10.1.0.44:80 10.1.0.45:80 10.1.0.46:80 10.1.0.47:80 10.1.0.48:80 10.1.0.49:80 10.1.0.50:80".

Definition fifty_fetch (s : string) : http_result := HttpResponse 200 fifty_text.

Definition all_up (p : string) : http_result := HttpResponse 200 "".

Definition returned_msg (m : scrape_msg) (r : scrape_result) : bool :=
  match r with ScrapeReturned _ _ msgs => bool_decide (m ∈ msgs) | ScrapeRaised _ => false end.

Lemma scrape_progress_bounds_witness :
  exists st' w msgs,
    scrape true [src1] fifty_fetch all_up elements init = ScrapeReturned st' w msgs /\
    In (MsgProgress 50 50 49) msgs /\
    50 = size (proxies st') /\ 0 < 50 <= 50 /\ 50 mod 50 = 0 /\
    49 = length (List.filter (fun p => test_proxy (all_up p)) (take (50 - 1) (elements (proxies st')))).
Proof.
  assert (Hb : returned_msg (MsgProgress 50 50 49) (scrape true [src1] fifty_fetch all_up elements init)
               = true) by (vm_compute; reflexivity).
  destruct (scrape true [src1] fifty_fetch all_up elements init) as [|st' w msgs] eqn:Hs;
    [discriminate|].
  assert (Hin : In (MsgProgress 50 50 49) msgs)
    by (apply bool_decide_eq_true, list_elem_of_In in Hb; exact Hb).
  exists st', w, msgs. split; [reflexivity || exact Hs|]. split; [exact Hin|].
  exact (scrape_progress_bounds _ _ _ _ _ _ _ _ _ 50 50 49 elements_completion_order Hs Hin).
Defined.

Lemma scrape_returns_stale_proxies_witness :
  exists st1 w1 m1 st2 w2 m2,
    scrape false [src3] scenario_fetch scenario_probe elements init = ScrapeReturned st1 w1 m1 /\
    scrape false [src3] dead_sources scenario_probe elements st1 = ScrapeReturned st2 w2 m2 /\
    In "5.6.7.8:3128" w2 /\
    proxies st1 ⊆ proxies st2 /\
    (forall p, p ∈ proxies st1 -> test_proxy (scenario_probe p) = true -> In p w2).
Proof.
  destruct (scrape false [src3] scenario_fetch scenario_probe elements init)
    as [|st1 w1 m1] eqn:H1; [vm_compute in H1; discriminate|].
  destruct (scrape false [src3] dead_sources scenario_probe elements st1)
    as [|st2 w2 m2] eqn:H2.
  { vm_compute in H1. injection H1 as <- _ _. vm_compute in H2. discriminate. }
  pose proof (scrape_returns_stale_proxies _ _ _ _ _ _ _ _ _ elements_completion_order H2) as Hst.
  exists st1, w1, m1, st2, w2, m2. split; [reflexivity || exact H1|]. split; [reflexivity || exact H2|].
  split; [|exact Hst].
  apply (proj2 Hst). { vm_compute in H1. injection H1 as <- _ _. set_solver. }
  reflexivity.
Defined.

Lemma scrape_label_error_witness :
  Exists (fun s => source_label s = None) ["no-slash-here"; src1] /\
  (exists st', scrape true ["no-slash-here"; src1] scenario_fetch scenario_probe elements init
               = ScrapeRaised st') /\
  (exists st' w msgs, scrape false ["no-slash-here"; src1] scenario_fetch scenario_probe elements init
               = ScrapeReturned st' w msgs).
Proof.
  assert (Hex : Exists (fun s => source_label s = None) ["no-slash-here"; src1]).
  { left. reflexivity. }
  split; [exact Hex|]. exact (scrape_label_error _ _ _ _ _ Hex).
Defined.

(** C30: the type invariant of the scraper.  If the set holds only
    [ip:port] strings of the pattern's shape, it still does after
    [scrape], whether [scrape] raises or returns, and the working list
    it returns holds only such strings: nothing but [findall]'s output
    ever enters [self.proxies]. *)
Theorem scrape_preserves_wf cb sources fetch probe order st :
  completion_order order -> scraper_wf st ->
  match scrape cb sources fetch probe order st with
  | ScrapeRaised st' => scraper_wf st'
  | ScrapeReturned st' w _ => scraper_wf st' /\ Forall proxy_shape w
  end.
Proof.
  intros Hord Hwf. pose proof (collect_shape cb fetch sources _ 0 Hwf) as Hc.
  destruct (scrape cb sources fetch probe order st) as [st'|st' w msgs] eqn:Hs.
  - unfold scrape in Hs. destruct (collect cb fetch sources (proxies st) 0); [|by simplify_eq].
    by destruct (validate_loop _ _ _ _ _ _).
  - destruct (scrape_returned_inv _ _ _ _ _ _ _ _ _ Hs) as (t & cm & Hcol & _ & _).
    rewrite Hcol in Hc. split; [exact Hc|].
    rewrite (scrape_returned_filter _ _ _ _ _ _ _ _ _ Hs). apply List.Forall_forall.
    intros p Hp. apply filter_In in Hp as [Hp _]. apply list_elem_of_In in Hp.
    rewrite (Hord _), elem_of_elements in Hp. by apply Hc.
Qed.

Lemma scrape_preserves_wf_witness :
  completion_order elements /\ scraper_wf init /\
  match scrape true [src1; src2; src3] scenario_fetch scenario_probe elements init with
  | ScrapeRaised st' => scraper_wf st'
  | ScrapeReturned st' w _ => scraper_wf st' /\ Forall proxy_shape w
  end.
Proof.
  assert (Hwf : scraper_wf init) by (intros p Hp; set_solver).
  split; [exact elements_completion_order|]. split; [exact Hwf|].
  exact (scrape_preserves_wf true [src1; src2; src3] scenario_fetch scenario_probe elements init
           elements_completion_order Hwf).
Defined.

End ProxyScraper.
