(* ===== verification/StatusMessage.v ===== *)
(** * StatusMessage: the live status text of [src/main.py]

    [update_status_message] (lines 31-52) reads [view_adder.get_stats()],
    computes the uptime [datetime.now() - task_info['start_time']],
    renders it with [str(uptime).split('.')[0]] and fills the template
    [STATUS_MESSAGE] of [src/config.py] with [str.format].  This file
    models, on the UTF-8 encoding of the texts:
    - [str()] of an integer ([str_nat], [str_Z]) and the [%02d] and
      [%06d] paddings of [timedelta.__str__];
    - a [timedelta] normalised from a number of microseconds as Python
      does (floor division: the days may be negative, the seconds and
      microseconds are not) and its [__str__];
    - [str.format] with named fields: the parse of the format string
      ([{{] and [}}] are braces, [{name}] a field, an unmatched brace a
      [ValueError]) and the substitution ([KeyError] for a missing
      argument); fields with a conversion or a format spec do not occur
      in the templates and are read as plain names;
    - [update_status_message] itself, [None] being the exception its
      [except] logs.
    The theorems: the status text shows the three counters in a form
    from which they can be read back ([read_status]), the uptime shown
    is the uptime truncated to whole seconds, and the formatting never
    raises. *)

From S2P Require Import Prelude Config ViewAdder ProxyRegex.
From Stdlib Require Import Ascii DecimalString DecimalNat DecimalZ.
Import ViewAdder ProxyRegex.

Module StatusMessage.

(** ** Integers as text *)

(** [str(n)] for a non-negative integer. *)
Definition str_nat (n : nat) : string := NilEmpty.string_of_uint (Nat.to_uint n).

(** [str(z)] and ["%d" % z]. *)
Definition str_Z (z : Z) : string := NilEmpty.string_of_int (Z.to_int z).

Fixpoint zeros (n : nat) : string :=
  match n with 0 => EmptyString | S n' => String "0" (zeros n') end.

(** ["%0wd" % z] for [z >= 0]. *)
Definition zero_pad (w : nat) (z : Z) : string :=
  let s := str_Z z in zeros (w - String.length s) +:+ s.

(** ** [timedelta] *)

Record timedelta := mk_td { td_days : Z; td_seconds : Z; td_microseconds : Z }.

(** [datetime.now() - start_time], from the difference in microseconds:
    Python keeps [0 <= seconds < 86400] and [0 <= microseconds < 10^6]. *)
Definition td_of_us (t : Z) : timedelta :=
  mk_td ((t / 1000000) / 86400)%Z ((t / 1000000) mod 86400)%Z (t mod 1000000)%Z.

(** [timedelta.__str__]: the days and [h:mm:ss] ... *)
Definition td_str_main (td : timedelta) : string :=
  let mm := (td_seconds td / 60)%Z in
  let ss := (td_seconds td mod 60)%Z in
  let hh := (mm / 60)%Z in
  let hms := str_Z hh +:+ ":" +:+ zero_pad 2 (mm mod 60)%Z +:+ ":" +:+ zero_pad 2 ss in
  if Z.eqb (td_days td) 0 then hms
  else str_Z (td_days td) +:+ " day" +:+
         (if Z.eqb (Z.abs (td_days td)) 1 then EmptyString else "s") +:+ ", " +:+ hms.

(** ... then [.ffffff] when there are microseconds. *)
Definition td_str (td : timedelta) : string :=
  let s := td_str_main td in
  if Z.eqb (td_microseconds td) 0 then s else s +:+ "." +:+ zero_pad 6 (td_microseconds td).

(** [str(uptime).split('.')[0]] (line 36). *)
Definition uptime_str (t : Z) : string := default EmptyString (head (str_split "." (td_str (td_of_us t)))).

(** ** [str.format] with named fields *)

Inductive piece := PLit (s : string) | PField (name : string).

Definition cons_lit (c : ascii) (ps : list piece) : list piece :=
  match ps with
  | PLit s :: ps' => PLit (String c s) :: ps'
  | _ => PLit (String c EmptyString) :: ps
  end.

(** The parse of the format string; [field = Some acc] while inside
    braces, with the name read so far. *)
Fixpoint parse_fmt (field : option string) (s : string) : option (list piece) :=
  match field, s with
  | None, EmptyString => Some []
  | None, String "{" (String "{" r) => cons_lit "{" <$> parse_fmt None r
  | None, String "{" r => parse_fmt (Some EmptyString) r
  | None, String "}" (String "}" r) => cons_lit "}" <$> parse_fmt None r
  | None, String "}" _ => None
  | None, String c r => cons_lit c <$> parse_fmt None r
  | Some _, EmptyString => None
  | Some acc, String "}" r => cons (PField acc) <$> parse_fmt None r
  | Some _, String "{" _ => None
  | Some acc, String c r => parse_fmt (Some (acc +:+ String c EmptyString)) r
  end.

Fixpoint lookup_arg (name : string) (args : list (string * string)) : option string :=
  match args with
  | [] => None
  | (k, v) :: args' => if String.eqb k name then Some v else lookup_arg name args'
  end.

Fixpoint render (args : list (string * string)) (ps : list piece) : option string :=
  match ps with
  | [] => Some EmptyString
  | PLit s :: ps' => String.append s <$> render args ps'
  | PField n :: ps' => v ← lookup_arg n args; String.append v <$> render args ps'
  end.

(** [template.format] with keyword arguments [args]; [None] is the
    [ValueError] or [KeyError]. *)
Definition str_format (template : string) (args : list (string * string)) : option string :=
  ps ← parse_fmt None template; render args ps.

(** ** [update_status_message] *)

(** Lines 34-44: the text sent by [edit_message_text], for the counters
    [va] and an uptime of [t] microseconds. *)
Definition update_status_message (va : view_adder) (t : Z) : option string :=
  let s := get_stats va in
  str_format Config.STATUS_MESSAGE
    [("views", str_nat (views_added s)); ("active_proxies", str_nat (n_active_proxies s));
     ("errors", str_nat (errors s)); ("uptime", uptime_str t);
     ("threads", str_Z Config.THREAD_COUNT)].

(** ** Reading a status text back *)

Definition lit_views : string := "
📊 Current Status:
• Views Added: ".

Definition lit_active : string := "
• Active Proxies: ".

Definition lit_errors : string := "
• Errors: ".

Definition lit_uptime : string := "
• Uptime: ".

Definition lit_threads : string := "
• Threads: ".

Definition lit_tail : string := "

🔄 Process is running...
".

(** A decimal number at the start of a text, and the rest. *)
Definition read_nat (s : string) : option (nat * string) :=
  let '(d, r) := span is_digit s in
  match d with
  | EmptyString => None
  | _ => u ← NilEmpty.uint_of_string d; Some (Nat.of_uint u, r)
  end.

(** What a reader of a status message sees: views, errors and active
    proxies. *)
Definition read_status (txt : string) : option stats :=
  r0 ← drop_prefix lit_views txt;
  '(v, r1) ← read_nat r0;
  r2 ← drop_prefix lit_active r1;
  '(a, r3) ← read_nat r2;
  r4 ← drop_prefix lit_errors r3;
  '(e, _) ← read_nat r4;
  Some (mk_stats v e a).

(** ** Lemmas *)

Definition no_dot (c : ascii) : bool := negb (Ascii.eqb c ".").

Lemma string_of_uint_digits d : all_of is_digit (NilEmpty.string_of_uint d) = true.
Proof. induction d; simpl; auto. Qed.

Lemma digit_no_dot c : is_digit c = true -> no_dot c = true.
Proof. intros Hc. unfold no_dot. destruct (Ascii.eqb_spec c "."); [by subst|done]. Qed.

Lemma str_Z_no_dot z : all_of no_dot (str_Z z) = true.
Proof.
  unfold str_Z, NilEmpty.string_of_int. destruct (Z.to_int z) as [d|d]; simpl;
    exact (all_of_impl _ _ _ digit_no_dot (string_of_uint_digits d)).
Qed.

Lemma zeros_no_dot n : all_of no_dot (zeros n) = true.
Proof. induction n; simpl; auto. Qed.

Lemma zero_pad_no_dot w z : all_of no_dot (zero_pad w z) = true.
Proof. unfold zero_pad. by rewrite all_of_app, zeros_no_dot, str_Z_no_dot. Qed.

#[local] Hint Rewrite all_of_app str_Z_no_dot zero_pad_no_dot : viewsbot_rw.

Lemma td_str_main_no_dot td : all_of no_dot (td_str_main td) = true.
Proof.
  unfold td_str_main. destruct (Z.eqb (td_days td) 0); [|destruct (Z.eqb (Z.abs _) 1)];
    autorewrite with viewsbot_rw; reflexivity.
Qed.

Lemma str_nat_nonempty n : str_nat n <> EmptyString.
Proof.
  intros Hn. destruct n as [|n]; [discriminate|].
  pose proof (NilEmpty.usu (Nat.to_uint (S n))) as Hu. fold (str_nat (S n)) in Hu.
  rewrite Hn in Hu. injection Hu as Hu.
  pose proof (DecimalNat.Unsigned.of_to (S n)) as Ho. rewrite <- Hu in Ho. discriminate.
Qed.

Lemma read_nat_str n r : head_is is_digit r = false -> read_nat (str_nat n +:+ r) = Some (n, r).
Proof.
  intros Hr. unfold read_nat. rewrite span_app by (apply string_of_uint_digits || exact Hr).
  pose proof (NilEmpty.usu (Nat.to_uint n)) as Hu. fold (str_nat n) in Hu.
  destruct (str_nat n) eqn:Hs; [by destruct (str_nat_nonempty n)|].
  rewrite Hu. simpl. by rewrite DecimalNat.Unsigned.of_to.
Qed.

Lemma bind_Some {A B} (x : A) (f : A -> option B) : Some x ≫= f = f x.
Proof. reflexivity. Qed.

Lemma drop_prefix_app p r : drop_prefix p (p +:+ r) = Some r.
Proof. by apply drop_prefix_spec. Qed.

(** The text [update_status_message] sends, piece by piece. *)
Lemma update_status_message_eq va t :
  update_status_message va t =
  Some (lit_views +:+ str_nat (views_added (get_stats va)) +:+
        lit_active +:+ str_nat (n_active_proxies (get_stats va)) +:+
        lit_errors +:+ str_nat (errors (get_stats va)) +:+
        lit_uptime +:+ uptime_str t +:+ lit_threads +:+ "800" +:+ lit_tail).
Proof. reflexivity. Qed.


(** The counters can be read back from any text the update sends. *)
Lemma read_status_update va t txt :
  update_status_message va t = Some txt -> read_status txt = Some (get_stats va).
Proof.
  rewrite update_status_message_eq. intros [= <-]. unfold read_status.
  repeat (first [rewrite drop_prefix_app | rewrite read_nat_str by reflexivity];
          rewrite bind_Some; cbv beta iota).
  reflexivity.
Qed.

(** ** Theorems *)

(** C31: the status message round-trips the counters.  Formatting
    [STATUS_MESSAGE] never raises (every field has an argument and the
    template has no stray brace), and the three counters of
    [get_stats()] at the time of the update can be read back from the
    text in the order the template shows them. *)
Theorem status_message_roundtrip va t :
  exists txt, update_status_message va t = Some txt /\ read_status txt = Some (get_stats va).
Proof.
  eexists; split; [apply update_status_message_eq|].
  apply (read_status_update va t). apply update_status_message_eq.
Qed.

(** C32: [str(uptime).split('.')[0]] is the uptime truncated to whole
    seconds (towards minus infinity, as [timedelta] normalises it): the
    split removes exactly the [.ffffff] part, since no other part of
    [timedelta.__str__] contains a dot, negative uptimes included. *)
Theorem uptime_str_truncates t :
  uptime_str t = td_str (td_of_us (1000000 * (t / 1000000))%Z).
Proof.
  assert (Hq : ((1000000 * (t / 1000000)) / 1000000 = t / 1000000)%Z)
    by (rewrite Z.mul_comm; apply Z.div_mul; lia).
  assert (Hr : ((1000000 * (t / 1000000)) mod 1000000 = 0)%Z)
    by (rewrite Z.mul_comm; apply Z.mod_mul; lia).
  unfold uptime_str, td_str, td_of_us. cbn [td_microseconds]. rewrite Hq, Hr. simpl Z.eqb at 2.
  destruct (Z.eqb (t mod 1000000) 0).
  - by rewrite str_split_head_none by apply td_str_main_no_dot.
  - rewrite string_app_cons, string_app_nil_l.
    by rewrite str_split_head by apply td_str_main_no_dot.
Qed.

End StatusMessage.
