(* ===== verification/BotUrl.v ===== *)
(** * BotUrl: what [message_handler] accepts as input

    The text checks of [src/main.py] made before any state is touched:
    [validate_telegram_url] (lines 26-29), [re.match] of the pattern
    [^https?:\/\/t\.me\/[a-zA-Z0-9_]+\/\d+$] against the message text,
    a Python [str]: the matcher runs on the code points of the text
    ([Utf8.utf8_decode]); the name class is ASCII, but [\d] on a [str]
    is every Unicode decimal digit (category Nd), and [$] also matches
    before a final newline.  Its declarative specification is
    [telegram_url].  Then the command filter that routes [/start]
    messages to [start_handler] (lines 139-145) instead. *)

From S2P Require Import Prelude Utf8.
From Stdlib Require Import Ascii.
Import Utf8.

Module BotUrl.

(** ** [validate_telegram_url] *)

(** [[a-zA-Z0-9_]]: the listed ASCII ranges, in any [str]. *)
Definition is_name_cp (c : Z) : bool :=
  (((65 <=? c) && (c <=? 90)) || ((97 <=? c) && (c <=? 122)) || ((48 <=? c) && (c <=? 57)) ||
  (c =? 95))%Z.

(** [\d] on a [str]: the characters of Unicode category Nd, 660 code
    points in 62 runs (the Unicode 14.0 tables of Python 3.11). *)
Definition decimal_ranges : list (Z * Z) :=
  [(48, 57); (1632, 1641); (1776, 1785); (1984, 1993); (2406, 2415); (2534, 2543);
   (2662, 2671); (2790, 2799); (2918, 2927); (3046, 3055); (3174, 3183); (3302, 3311);
   (3430, 3439); (3558, 3567); (3664, 3673); (3792, 3801); (3872, 3881); (4160, 4169);
   (4240, 4249); (6112, 6121); (6160, 6169); (6470, 6479); (6608, 6617); (6784, 6793);
   (6800, 6809); (6992, 7001); (7088, 7097); (7232, 7241); (7248, 7257); (42528, 42537);
   (43216, 43225); (43264, 43273); (43472, 43481); (43504, 43513); (43600, 43609);
   (44016, 44025); (65296, 65305); (66720, 66729); (68912, 68921); (69734, 69743);
   (69872, 69881); (69942, 69951); (70096, 70105); (70384, 70393); (70736, 70745);
   (70864, 70873); (71248, 71257); (71360, 71369); (71472, 71481); (71904, 71913);
   (72016, 72025); (72784, 72793); (73040, 73049); (73120, 73129); (92768, 92777);
   (92864, 92873); (93008, 93017); (120782, 120831); (123200, 123209); (123632, 123641);
   (125264, 125273); (130032, 130041)]%Z.

Definition is_decimal (c : Z) : bool :=
  existsb (fun r => (r.1 <=? c)%Z && (c <=? r.2)%Z) decimal_ranges.

Definition newline : string := String (ascii_of_nat 10) EmptyString.

(** [$]: the end of the string, or a newline that ends it. *)
Definition at_end (r : list Z) : bool :=
  match r with [] => true | [c] => (c =? 10)%Z | _ => false end.

(** The pattern on code points, anchored at the start by [re.match]:
    [https?] tries the [s] first; [[a-zA-Z0-9_]+] and [\d+] can only
    stop where their class ends, since the next item ([\/], [$]) does
    not start with such a character. *)
Definition match_url (u : list Z) : bool :=
  match (match ldrop_prefix (cps "https://") u with
         | Some r => Some r
         | None => ldrop_prefix (cps "http://") u
         end) with
  | None => false
  | Some r0 =>
      match ldrop_prefix (cps "t.me/") r0 with
      | None => false
      | Some r1 =>
          let '(name, r2) := lspan is_name_cp r1 in
          match r2 with
          | c :: r3 =>
              if negb (bool_decide (name = [])) && (c =? 47)%Z then
                let '(post, r4) := lspan is_decimal r3 in
                negb (bool_decide (post = [])) && at_end r4
              else false
          | [] => false
          end
      end
  end.

(** [bool(re.match(pattern, url))] (lines 28-29) on the text whose
    UTF-8 encoding [url] is. *)
Definition validate_telegram_url (url : string) : bool :=
  match utf8_decode url with Some u => match_url u | None => false end.

(** The specification: a scheme, the host, a non-empty ASCII name, a
    slash, a non-empty run of decimal digits of any script, and nothing
    after it but possibly one newline. *)
Definition telegram_url (url : string) : Prop :=
  exists scheme name post tail,
    (scheme = "https://" \/ scheme = "http://") /\
    name <> [] /\ Forall (fun c => is_name_cp c = true) name /\
    post <> [] /\ Forall (fun c => is_decimal c = true) post /\
    (tail = EmptyString \/ tail = newline) /\
    url = scheme +:+ "t.me/" +:+ utf8_encode name +:+ "/" +:+ utf8_encode post +:+ tail.

(** ** The [/start] filter of [start_handler]

    [@bot.message_handler(commands=['start'])] (line 139) is tried
    before the catch-all handler of line 147: a text message goes to
    [start_handler] when [extract_command(text) == 'start'], that is
    [text.split()[0].split('@')[0][1:] == 'start'] for a text starting
    with ['/'] (pyTelegramBotAPI's [util.extract_command]). *)

Definition bytes (l : list nat) : string :=
  foldr (fun n s => String (ascii_of_nat n) s) EmptyString l.

(** The separators of [str.split()]: the characters for which
    [str.isspace()] holds, as their UTF-8 encodings. *)
Definition whitespace_utf8 : list string :=
  ((fun n => bytes [n]) <$> [9; 10; 11; 12; 13; 28; 29; 30; 31; 32]) ++
  [bytes [194; 133]; bytes [194; 160]; bytes [225; 154; 128]] ++
  ((fun k => bytes [226; 128; k]) <$> [128; 129; 130; 131; 132; 133; 134; 135; 136; 137; 138;
                                        168; 169; 175]) ++
  [bytes [226; 129; 159]; bytes [227; 128; 128]].

Definition starts_with_space (r : string) : bool :=
  existsb (fun w => match drop_prefix w r with Some _ => true | None => false end) whitespace_utf8.

(** [extract_command(text) == 'start']: the first word is [/start],
    possibly followed by [@botname]. *)
Definition is_start_command (text : string) : bool :=
  match drop_prefix "/start" text with
  | Some EmptyString => true
  | Some (String c r) => Ascii.eqb c "@" || starts_with_space (String c r)
  | None => false
  end.

(** ** Lemmas on the URL matcher *)

Lemma is_decimal_scalar c : is_decimal c = true -> scalar c.
Proof.
  unfold is_decimal. intros H. apply existsb_exists in H as ([lo hi] & Hin & Hc).
  apply andb_prop in Hc as [H1 H2]. apply Z.leb_le in H1, H2. simpl in *.
  unfold scalar. repeat (destruct Hin as [Hin|Hin]; [injection Hin as <- <-; lia|]). done.
Qed.

Lemma is_name_cp_scalar c : is_name_cp c = true -> scalar c.
Proof.
  unfold is_name_cp, scalar. intros H. repeat (apply orb_prop in H as [H|H]);
    repeat match goal with H : _ && _ = true |- _ => apply andb_prop in H as [? ?] end;
    rewrite ?Z.leb_le, ?Z.eqb_eq in *; lia.
Qed.

Lemma at_end_spec r : at_end r = true <-> r = [] \/ r = cps newline.
Proof.
  split.
  - destruct r as [|c [|c' r]]; simpl; [by left| |done]. intros Hc. right.
    apply Z.eqb_eq in Hc as ->. reflexivity.
  - intros [->| ->]; reflexivity.
Qed.

Lemma scheme_after u r0 :
  (match ldrop_prefix (cps "https://") u with Some r => Some r | None => ldrop_prefix (cps "http://") u end)
    = Some r0 <->
  u = cps "https://" ++ r0 \/ u = cps "http://" ++ r0.
Proof.
  destruct (ldrop_prefix (cps "https://") u) as [r|] eqn:Hs.
  - apply ldrop_prefix_spec in Hs as ->. split; [intros [= ->]; by left|].
    intros [Heq|Heq]; [by apply app_inv_head in Heq as ->|]. discriminate.
  - rewrite ldrop_prefix_spec. split; [by right|]. intros [->|Heq]; [|done].
    exfalso. by rewrite (proj2 (ldrop_prefix_spec _ _ r0) eq_refl) in Hs.
Qed.

(** The matcher on code points decides the pattern. *)
Lemma match_url_spec u :
  match_url u = true <->
  exists scheme name post tail,
    (scheme = "https://" \/ scheme = "http://") /\
    name <> [] /\ Forall (fun c => is_name_cp c = true) name /\
    post <> [] /\ Forall (fun c => is_decimal c = true) post /\
    (tail = EmptyString \/ tail = newline) /\
    u = cps scheme ++ cps "t.me/" ++ name ++ cps "/" ++ post ++ cps tail.
Proof.
  unfold match_url. split.
  - destruct (match ldrop_prefix (cps "https://") u with Some r => Some r | None => ldrop_prefix (cps "http://") u end)
      as [r0|] eqn:H0; [|discriminate].
    apply scheme_after in H0.
    destruct (ldrop_prefix (cps "t.me/") r0) as [r1|] eqn:H1; [|discriminate].
    apply ldrop_prefix_spec in H1 as ->.
    destruct (lspan is_name_cp r1) as [name r2] eqn:H2. apply lspan_spec in H2 as (-> & Hn & _).
    destruct r2 as [|c r3]; [discriminate|].
    destruct (negb (bool_decide (name = [])) && (c =? 47)%Z) eqn:Hc; [|discriminate].
    apply andb_prop in Hc as [Hne Hsl]. apply negb_true_iff, bool_decide_eq_false in Hne.
    apply Z.eqb_eq in Hsl as ->.
    destruct (lspan is_decimal r3) as [post r4] eqn:H4. apply lspan_spec in H4 as (-> & Hp & _).
    intros Hend. apply andb_prop in Hend as [Hpne Hend].
    apply negb_true_iff, bool_decide_eq_false in Hpne. apply at_end_spec in Hend.
    destruct H0 as [-> | ->], Hend as [-> | ->];
      [exists "https://", name, post, EmptyString | exists "https://", name, post, newline
      | exists "http://", name, post, EmptyString | exists "http://", name, post, newline];
      repeat split; auto.
  - intros (scheme & name & post & tail & Hsch & Hne & Hn & Hpne & Hp & Htail & ->).
    assert (Hs : (match ldrop_prefix (cps "https://") (cps scheme ++ cps "t.me/" ++ name ++ cps "/" ++ post ++ cps tail)
                  with Some r => Some r | None => ldrop_prefix (cps "http://")
                    (cps scheme ++ cps "t.me/" ++ name ++ cps "/" ++ post ++ cps tail) end)
                 = Some (cps "t.me/" ++ name ++ cps "/" ++ post ++ cps tail))
      by (apply scheme_after; destruct Hsch as [->| ->]; [left|right]; reflexivity).
    rewrite Hs, (proj2 (ldrop_prefix_spec (cps "t.me/") _ (name ++ cps "/" ++ post ++ cps tail)) eq_refl).
    rewrite lspan_app by done. cbn [cps app].
    rewrite (bool_decide_eq_false_2 _ Hne). simpl.
    rewrite lspan_app by (by destruct Htail as [->| ->]).
    rewrite (bool_decide_eq_false_2 _ Hpne). simpl. apply at_end_spec.
    destruct Htail as [->| ->]; [by left|by right].
Qed.

(** The text of a URL of the specified shape is the encoding of its
    code points. *)
Lemma url_encode scheme name post tail :
  (scheme = "https://" \/ scheme = "http://") -> (tail = EmptyString \/ tail = newline) ->
  scheme +:+ "t.me/" +:+ utf8_encode name +:+ "/" +:+ utf8_encode post +:+ tail =
  utf8_encode (cps scheme ++ cps "t.me/" ++ name ++ cps "/" ++ post ++ cps tail).
Proof.
  intros Hs Ht.
  assert (is_ascii_str scheme = true) by (destruct Hs as [->| ->]; reflexivity).
  assert (is_ascii_str tail = true) by (destruct Ht as [->| ->]; reflexivity).
  by rewrite !utf8_encode_app, !utf8_encode_cps by (assumption || reflexivity).
Qed.

(** ** Theorems *)

(** C21: [validate_telegram_url] accepts exactly the texts
    [http(s)://t.me/<name>/<post>] with a non-empty name over
    [[a-zA-Z0-9_]] and a non-empty post number made of Unicode decimal
    digits of any script (Python's [\d] on a [str], so ["٣٤"] or
    ["３"] pass as well as ["42"]), followed by nothing or by one
    newline: Python's [$] also matches before a final newline, so a URL
    ending in ["\n"] is accepted and passed on as the target. *)
Theorem validate_telegram_url_spec url :
  validate_telegram_url url = true <-> telegram_url url.
Proof.
  unfold validate_telegram_url, telegram_url. split.
  - destruct (utf8_decode url) as [u|] eqn:Hd; [|discriminate].
    intros (scheme & name & post & tail & Hsch & Hne & Hn & Hpne & Hp & Htail & Hu)%match_url_spec.
    exists scheme, name, post, tail. do 6 (split; [done|]).
    rewrite url_encode by done. rewrite <- Hu. symmetry. by apply utf8_encode_decode.
  - intros (scheme & name & post & tail & Hsch & Hne & Hn & Hpne & Hp & Htail & ->).
    rewrite url_encode, utf8_decode_encode by
      (done || (rewrite !Forall_app; split_and!; auto using cps_scalar;
                eapply Forall_impl; eauto using is_name_cp_scalar, is_decimal_scalar)).
    apply match_url_spec. by exists scheme, name, post, tail.
Qed.

(** The URL of the Python session: a post number in Arabic-Indic
    digits (U+0663 U+0664, bytes D9 A3 D9 A4). *)
Lemma validate_telegram_url_spec_witness :
  telegram_url ("https://t.me/abc/" +:+ String "217" (String "163" (String "217" (String "164" EmptyString)))) /\
  validate_telegram_url ("https://t.me/abc/" +:+ String "217" (String "163" (String "217" (String "164" EmptyString)))) = true.
Proof.
  assert (H : validate_telegram_url ("https://t.me/abc/" +:+ String "217" (String "163" (String "217" (String "164" EmptyString)))) = true)
    by reflexivity.
  split; [exact (proj1 (validate_telegram_url_spec _) H)|exact H].
Defined.

End BotUrl.
