(* ===== verification/Bot.v ===== *)
(** * Bot: the handlers of [src/main.py] over the shared globals

    [main.py] holds three globals shared by every handler: one
    [ProxyScraper], one [ViewAdder] and the dictionary [active_tasks]
    from chat ids to the running task's information.  This file models
    [start_handler] (lines 139-145), [message_handler] (lines 147-176)
    and [process_views_task] (lines 54-126) as one handler per received
    message, each with a program counter ([hphase]), interleaved by the
    event loop at the suspension points of the code (the awaited
    Telegram calls, the scrape, the dispatch):
    - [run_step]: a handler moves to its next suspension point.  A
      scrape is one step that runs [ProxyScraper.scrape] on the shared
      scraper; entering [process_views] creates the run's own
      [Semaphore(THREAD_COUNT)] and tasks ([Dispatch.pv_init], or its
      [ValueError]), each of which then moves by [Dispatch.pv_step] on
      the shared counters, and [gather] returns when all are done;
    - [bot_step]: a [run_step], or a message arriving through [main]'s
      polling (lines 178-187), or a wake-up of the [status_update_loop]
      (lines 128-137) of a dispatching handler, which formats the
      counters of that instant with [StatusMessage.update_status_message]
      and shows the text unless the edit raises;
    - an executable schedule [handler_next]/[bot_exec]/[bot_run] for
      concrete traces.
    The theorems: the invariant of [active_tasks]; dispatch only with a
    non-empty proxy list; [/start] messages only ever get the welcome;
    reachable traces of overlapping runs of one chat, of a cleanup
    removing another run's entry, of two chats' reports corrupted
    through the shared counters and of a live status going backwards;
    the report and the live status of a run alone; the semaphore bound
    of each run, and the ceiling exceeded by several runs together;
    liveness of the handlers' own steps.  The Telegram transport and
    logging are not modelled. *)

From S2P Require Import Prelude Config ViewAdder Counters Dispatch ProxyRegex ProxyScraper StatusMessage BotUrl.
From Stdlib Require Import Ascii Sorted Relation_Operators Lexicographic_Product.
Import ViewAdder Counters Dispatch ProxyRegex ProxyScraper StatusMessage BotUrl.

Module Bot.

(** ** The handlers and the shared state *)

(** How a handler ends: the reply or the last status text it sends. *)
Inductive hresult :=
  | RBusy                                  (* "You have an active task running" *)
  | RInvalid                               (* "Invalid URL format" *)
  | RNoProxies                             (* "No working proxies found" *)
  | RFailed                                (* "An error occurred" *)
  | RWelcome (text : string)               (* start_handler's reply *)
  | RReport (proxies : list task) (s : stats).   (* "Task Completed!" with [s] *)

(** Where a handler is, between two suspension points.  [proxies] is the
    local variable of [process_views_task] holding the scrape's result,
    with what each proxy's request will do. *)
Inductive hphase :=
  | HStart                                 (* message_handler entered *)
  | HScraping                              (* awaiting send_message, then inside scrape *)
  | HNoProxies                             (* awaiting update_status("No working ...") *)
  | HRegistered (proxies : list task)      (* in active_tasks, awaiting "Starting ..." *)
  | HDispatching (proxies : list task) (permits : nat) (pool : list (task * phase))
      (shown : list string)
      (* inside process_views: the value of its Semaphore(THREAD_COUNT)
         and its tasks with their phases, as in [Dispatch]; [shown]: the
         status texts the loop of line 95 has displayed so far *)
  | HReport (proxies : list task) (s : stats)     (* awaiting the final update_status *)
  | HExcept                                (* awaiting the error message *)
  | HFinally (r : hresult)                 (* the finally clause is next *)
  | HDone (r : hresult).

Record handler := mk_handler { h_chat : Z; h_text : string; h_phase : hphase }.

(** The globals of lines 20-24. *)
Record bot_state := mk_bot {
  active_tasks : gmap Z nat;      (* chat id -> the handler whose task_info it holds *)
  counters : view_adder;          (* view_adder *)
  scr : scraper;                  (* proxy_scraper *)
  handlers : list handler
}.

Definition bot_init : bot_state := mk_bot ∅ ViewAdder.init ProxyScraper.init [].

(** The network: the proxy lists, the probes of [test_proxy], the order
    of [as_completed], and what each proxy's view request does. *)
Record env := mk_env {
  e_fetch : string -> http_result;
  e_probe : string -> http_result;
  e_order : gset string -> list string;
  e_net : string -> request_outcome
}.

Definition with_phase (h : handler) (ph : hphase) : handler :=
  mk_handler (h_chat h) (h_text h) ph.

Definition upd (st : bot_state) (i : nat) (h : handler) (ph : hphase) : list handler :=
  <[i := with_phase h ph]> (handlers st).

(** [proxy_scraper.scrape(status_callback=update_status)] (line 72). *)
Definition run_scrape (E : env) (sc : scraper) : scrape_result :=
  scrape true Config.PROXY_SOURCES (e_fetch E) (e_probe E) (e_order E) sc.

Definition tasks_of (E : env) (w : list string) : list task := (fun p => (p, e_net E p)) <$> w.

Section Steps.
Context (E : env).

(** A handler moves from one suspension point to the next. *)
Inductive run_step : bot_state -> bot_state -> Prop :=
  (* lines 139-145: a /start message is answered by start_handler *)
  | b_welcome st i h :
      handlers st !! i = Some h -> h_phase h = HStart -> is_start_command (h_text h) = true ->
      run_step st (mk_bot (active_tasks st) (counters st) (scr st)
                          (upd st i h (HDone (RWelcome Config.WELCOME_MESSAGE))))
  (* lines 152-157 *)
  | b_busy st i h :
      handlers st !! i = Some h -> h_phase h = HStart -> is_start_command (h_text h) = false ->
      is_Some (active_tasks st !! h_chat h) ->
      run_step st (mk_bot (active_tasks st) (counters st) (scr st) (upd st i h (HDone RBusy)))
  (* lines 160-166 *)
  | b_invalid st i h :
      handlers st !! i = Some h -> h_phase h = HStart -> is_start_command (h_text h) = false ->
      active_tasks st !! h_chat h = None -> validate_telegram_url (h_text h) = false ->
      run_step st (mk_bot (active_tasks st) (counters st) (scr st) (upd st i h (HDone RInvalid)))
  (* line 169, then line 58: the initial send_message *)
  | b_accept st i h :
      handlers st !! i = Some h -> h_phase h = HStart -> is_start_command (h_text h) = false ->
      active_tasks st !! h_chat h = None -> validate_telegram_url (h_text h) = true ->
      run_step st (mk_bot (active_tasks st) (counters st) (scr st) (upd st i h HScraping))
  (* the initial send_message raised (lines 116-121) *)
  | b_send_failed st i h :
      handlers st !! i = Some h -> h_phase h = HScraping ->
      run_step st (mk_bot (active_tasks st) (counters st) (scr st) (upd st i h HExcept))
  (* line 72 raised *)
  | b_scrape_raised st i h sc' :
      handlers st !! i = Some h -> h_phase h = HScraping ->
      run_scrape E (scr st) = ScrapeRaised sc' ->
      run_step st (mk_bot (active_tasks st) (counters st) sc' (upd st i h HExcept))
  (* lines 74-76 *)
  | b_scrape_empty st i h sc' msgs :
      handlers st !! i = Some h -> h_phase h = HScraping ->
      run_scrape E (scr st) = ScrapeReturned sc' [] msgs ->
      run_step st (mk_bot (active_tasks st) (counters st) sc' (upd st i h HNoProxies))
  (* lines 79-92: task_info stored, "Starting" awaited *)
  | b_scrape_found st i h sc' p w msgs :
      handlers st !! i = Some h -> h_phase h = HScraping ->
      run_scrape E (scr st) = ScrapeReturned sc' (p :: w) msgs ->
      run_step st (mk_bot (<[h_chat h := i]> (active_tasks st)) (counters st) sc'
                          (upd st i h (HRegistered (tasks_of E (p :: w)))))
  (* line 75 awaited, return: the finally clause follows *)
  | b_no_proxies_sent st i h :
      handlers st !! i = Some h -> h_phase h = HNoProxies ->
      run_step st (mk_bot (active_tasks st) (counters st) (scr st) (upd st i h (HFinally RNoProxies)))
  (* lines 95-98: status loop started, process_views entered: its
     semaphore and one task per proxy created (views_adder.py 46-57) *)
  | b_dispatch_start st i h ts ps :
      handlers st !! i = Some h -> h_phase h = HRegistered ts ->
      pv_init Config.THREAD_COUNT (counters st) ts = Some ps ->
      run_step st (mk_bot (active_tasks st) (counters st) (scr st)
                          (upd st i h (HDispatching ts (sem ps) (threads ps) [])))
  (* asyncio.Semaphore raised ValueError: the except clause of line 116 *)
  | b_dispatch_raised st i h ts :
      handlers st !! i = Some h -> h_phase h = HRegistered ts ->
      pv_init Config.THREAD_COUNT (counters st) ts = None ->
      run_step st (mk_bot (active_tasks st) (counters st) (scr st) (upd st i h HExcept))
  (* one task of this run's process_views moves ([Dispatch.pv_step]) on
     the shared counters *)
  | b_request st i h ts n pool shown ps' :
      handlers st !! i = Some h -> h_phase h = HDispatching ts n pool shown ->
      pv_step (mk_pv n pool (counters st)) ps' ->
      run_step st (mk_bot (active_tasks st) (shared ps') (scr st)
                          (upd st i h (HDispatching ts (sem ps') (threads ps') shown)))
  (* lines 98-114: gather returned (every task done), loop cancelled,
     stats read *)
  | b_dispatch_end st i h ts n pool shown :
      handlers st !! i = Some h -> h_phase h = HDispatching ts n pool shown ->
      all_done (mk_pv n pool (counters st)) ->
      run_step st (mk_bot (active_tasks st) (counters st) (scr st)
                          (upd st i h (HReport ts (get_stats (counters st)))))
  (* line 114 awaited *)
  | b_report_sent st i h ts s :
      handlers st !! i = Some h -> h_phase h = HReport ts s ->
      run_step st (mk_bot (active_tasks st) (counters st) (scr st) (upd st i h (HFinally (RReport ts s))))
  (* lines 118-121 awaited *)
  | b_error_sent st i h :
      handlers st !! i = Some h -> h_phase h = HExcept ->
      run_step st (mk_bot (active_tasks st) (counters st) (scr st) (upd st i h (HFinally RFailed)))
  (* lines 122-126 *)
  | b_finally st i h r :
      handlers st !! i = Some h -> h_phase h = HFinally r ->
      run_step st (mk_bot (if decide (is_Some (active_tasks st !! h_chat h))
                           then delete (h_chat h) (active_tasks st) else active_tasks st)
                          (reset_stats (counters st)) (scr st) (upd st i h (HDone r))).

(** A step of the bot: a handler moves, a message arrives (the polling
    of [main], lines 178-187, starts its handler), or the status loop of
    a dispatching handler wakes up (lines 128-137): it formats the
    counters read at that instant with [update_status_message] (lines
    31-52), [t] microseconds after the task's start, and the edit shows
    the text unless it raises ([delivered = false]), which is logged. *)
Inductive bot_step : bot_state -> bot_state -> Prop :=
  | b_run st st' : run_step st st' -> bot_step st st'
  | b_receive st chat text :
      bot_step st (mk_bot (active_tasks st) (counters st) (scr st)
                          (handlers st ++ [mk_handler chat text HStart]))
  | b_status_tick st i h ts n pool shown t (delivered : bool) :
      handlers st !! i = Some h -> h_phase h = HDispatching ts n pool shown ->
      bot_step st (mk_bot (active_tasks st) (counters st) (scr st)
                          (upd st i h (HDispatching ts n pool
                             (shown ++ if delivered then option_list (update_status_message (counters st) t)
                                       else [])))).

End Steps.

(** ** An executable schedule, for concrete traces *)

Inductive action :=
  | ARecv (chat : Z) (text : string)
  | AStep (i : nat)
  | AFail (i : nat)
  | ATick (i : nat) (t : Z) (delivered : bool).

Definition handler_next (E : env) (st : bot_state) (i : nat) (h : handler) : option bot_state :=
  let keep ph := Some (mk_bot (active_tasks st) (counters st) (scr st) (upd st i h ph)) in
  match h_phase h with
  | HStart =>
      if is_start_command (h_text h) then keep (HDone (RWelcome Config.WELCOME_MESSAGE)) else
      match active_tasks st !! h_chat h with
      | Some _ => keep (HDone RBusy)
      | None => if validate_telegram_url (h_text h) then keep HScraping else keep (HDone RInvalid)
      end
  | HScraping =>
      match run_scrape E (scr st) with
      | ScrapeRaised sc' => Some (mk_bot (active_tasks st) (counters st) sc' (upd st i h HExcept))
      | ScrapeReturned sc' [] _ => Some (mk_bot (active_tasks st) (counters st) sc' (upd st i h HNoProxies))
      | ScrapeReturned sc' w _ =>
          Some (mk_bot (<[h_chat h := i]> (active_tasks st)) (counters st) sc'
                       (upd st i h (HRegistered (tasks_of E w))))
      end
  | HNoProxies => keep (HFinally RNoProxies)
  | HRegistered ts =>
      match pv_init Config.THREAD_COUNT (counters st) ts with
      | Some ps => keep (HDispatching ts (sem ps) (threads ps) [])
      | None => keep HExcept
      end
  | HDispatching ts n pool shown =>
      match pv_next (mk_pv n pool (counters st)) with
      | Some ps' =>
          Some (mk_bot (active_tasks st) (shared ps') (scr st)
                       (upd st i h (HDispatching ts (sem ps') (threads ps') shown)))
      | None =>
          if decide (all_done (mk_pv n pool (counters st)))
          then keep (HReport ts (get_stats (counters st))) else None
      end
  | HReport ts s => keep (HFinally (RReport ts s))
  | HExcept => keep (HFinally RFailed)
  | HFinally r =>
      Some (mk_bot (if decide (is_Some (active_tasks st !! h_chat h))
                    then delete (h_chat h) (active_tasks st) else active_tasks st)
                   (reset_stats (counters st)) (scr st) (upd st i h (HDone r)))
  | HDone _ => None
  end.

Definition bot_exec (E : env) (a : action) (st : bot_state) : option bot_state :=
  match a with
  | ARecv chat text =>
      Some (mk_bot (active_tasks st) (counters st) (scr st) (handlers st ++ [mk_handler chat text HStart]))
  | AStep i => h ← handlers st !! i; handler_next E st i h
  | AFail i =>
      h ← handlers st !! i;
      match h_phase h with
      | HScraping => Some (mk_bot (active_tasks st) (counters st) (scr st) (upd st i h HExcept))
      | _ => None
      end
  | ATick i t delivered =>
      h ← handlers st !! i;
      match h_phase h with
      | HDispatching ts n pool shown =>
          Some (mk_bot (active_tasks st) (counters st) (scr st)
                  (upd st i h (HDispatching ts n pool
                     (shown ++ if delivered then option_list (update_status_message (counters st) t)
                               else []))))
      | _ => None
      end
  end.

Fixpoint bot_run (E : env) (acts : list action) (st : bot_state) : option bot_state :=
  match acts with
  | [] => Some st
  | a :: acts' => st' ← bot_exec E a st; bot_run E acts' st'
  end.

(** ** Helpers of the statements *)

(** The phases between the store of [task_info] (line 83) and the
    cleanup (line 124): a handler in one of them may own an entry (an
    exception raised after the store leaves it to the [finally]
    clause). *)
Definition registered (ph : hphase) : Prop :=
  match ph with
  | HRegistered _ | HDispatching _ _ _ _ | HReport _ _ | HExcept | HFinally _ => True
  | _ => False
  end.

(** Every entry of [active_tasks] belongs to a live run of its chat. *)
Definition bot_inv (st : bot_state) : Prop :=
  forall c n, active_tasks st !! c = Some n ->
  exists h, handlers st !! n = Some h /\ h_chat h = c /\ registered (h_phase h).

(** The proxy list a handler holds once [proxies] is known non-empty. *)
Definition run_proxies (ph : hphase) : option (list task) :=
  match ph with
  | HRegistered ts | HDispatching ts _ _ _ | HReport ts _
  | HFinally (RReport ts _) | HDone (RReport ts _) => Some ts
  | _ => None
  end.

(** What an isolated run should report: the abstract statistics of
    its own requests. *)
Definition rep_ok (r : hresult) : Prop :=
  match r with
  | RReport ts s => s = spec_stats ts
  | _ => True
  end.

(** The status texts a handler has shown, read back with [read_status],
    followed by [b]: a chain in which the counters never go down. *)
Definition shown_chain (shown : list string) (b : stats) : Prop :=
  exists ss, read_status <$> shown = Some <$> ss /\ StronglySorted stats_le (ss ++ [b]).

Definition run_inv (h : handler) (st : bot_state) : Prop :=
  match h_phase h with
  | HRegistered _ => active_tasks st = {[h_chat h := 0]} /\ counters st = ViewAdder.init
  | HDispatching ts n pool shown =>
      active_tasks st = {[h_chat h := 0]} /\
      pv_inv (Z.to_nat Config.THREAD_COUNT) ViewAdder.init ts (mk_pv n pool (counters st)) /\
      shown_chain shown (get_stats (counters st))
  | HReport ts s =>
      active_tasks st = {[h_chat h := 0]} /\ counters st = process_views_seq ViewAdder.init ts /\
      s = get_stats (counters st)
  | HFinally (RReport ts s) => active_tasks st = {[h_chat h := 0]} /\ rep_ok (RReport ts s)
  | HFinally r | HDone r => active_tasks st = ∅ /\ counters st = ViewAdder.init /\ rep_ok r
  | _ => active_tasks st = ∅ /\ counters st = ViewAdder.init
  end.

(** Every run inside [process_views] keeps its own semaphore consistent:
    its value and the permits its tasks hold add up to [THREAD_COUNT]
    ([Dispatch.pool_ok]). *)
Definition pools_ok (st : bot_state) : Prop :=
  forall i h ts n pool sh, handlers st !! i = Some h -> h_phase h = HDispatching ts n pool sh ->
  pool_ok (Z.to_nat Config.THREAD_COUNT) (mk_pv n pool (counters st)).

(** The state of a bot that has received at most one message. *)
Definition single_inv (st : bot_state) : Prop :=
  match handlers st with
  | [] => active_tasks st = ∅ /\ counters st = ViewAdder.init
  | [h] => run_inv h st
  | _ => True
  end.

(** Termination measure: the handlers that have not yet scraped, then
    the awaits left to the others. *)
Definition pre_rank (ph : hphase) : nat :=
  match ph with HStart => 2 | HScraping => 1 | _ => 0 end.

Definition post_rank (ph : hphase) : nat :=
  match ph with
  | HStart | HScraping | HDone _ => 0
  | HFinally _ => 1
  | HReport _ _ | HExcept | HNoProxies => 2
  | HDispatching _ _ pool _ => 3 + sum_list_with rank_of pool
  | HRegistered ts => 4 + 3 * length ts
  end.

Definition bot_measure (st : bot_state) : nat * nat :=
  (sum_list_with (fun h => pre_rank (h_phase h)) (handlers st),
   sum_list_with (fun h => post_rank (h_phase h)) (handlers st)).

Definition is_done (ph : hphase) : bool := match ph with HDone _ => true | _ => false end.

(** A network for the traces: the first source lists two proxies, the
    others fail; every probe answers 200. *)
Definition demo_list : string := "1.2.3.4:8080" +:+ newline +:+ "5.6.7.8:3128".

Definition demo_fetch (u : string) : http_result :=
  if String.eqb u (nth 0 Config.PROXY_SOURCES EmptyString) then HttpResponse 200 demo_list
  else HttpRaised.

Definition demo_env (net : string -> request_outcome) : env :=
  mk_env demo_fetch all_up elements net.

Definition all_ok (p : string) : request_outcome := ReqResponse 200 false.

Definition demo_url : string := "https://t.me/channel_name/123".

(** Two messages of chat 7 whose handlers both pass the busy check
    before either scrape ends, then both start dispatching. *)
Definition overlap_trace : list action :=
  [ARecv 7 demo_url; ARecv 7 demo_url; AStep 0; AStep 1; AStep 0; AStep 1; AStep 0; AStep 1].

(** Then the first run completes and cleans up, and a third message of
    chat 7 arrives and is accepted. *)
Definition unmarked_trace : list action :=
  overlap_trace ++ replicate 9 (AStep 0) ++ [ARecv 7 demo_url; AStep 2].

(** Chats 1 and 2 run at once; chat 2 reports first and its cleanup
    resets the shared counters before chat 1 reads them. *)
Definition interference_trace : list action :=
  [ARecv 1 demo_url; ARecv 2 demo_url; AStep 0; AStep 1; AStep 0; AStep 1; AStep 0; AStep 1] ++
  replicate 6 (AStep 0) ++ replicate 9 (AStep 1) ++ replicate 3 (AStep 0).

Definition run_state (E : env) (acts : list action) : bot_state :=
  default bot_init (bot_run E acts bot_init).

(** One message of chat 7, its handler run to the end alone. *)
Definition single_trace : list action :=
  ARecv 7 demo_url :: replicate 12 (AStep 0).


(** One message of chat 7 run alone, with two wake-ups of its status
    loop, one before and one after its first response. *)
Definition ticking_trace : list action :=
  [ARecv 7 demo_url; AStep 0; AStep 0; AStep 0; ATick 0 1000000 true; AStep 0; AStep 0; AStep 0;
   ATick 0 4000000 true].

(** Chats 1 and 2 dispatch at once; chat 1's status loop shows the
    counters after its two requests, chat 2 runs to its cleanup, and
    chat 1's loop shows the counters again. *)
Definition backwards_trace : list action :=
  [ARecv 1 demo_url; ARecv 2 demo_url; AStep 0; AStep 1; AStep 0; AStep 1; AStep 0; AStep 1] ++
  replicate 6 (AStep 0) ++ [ATick 0 3000000 true] ++ replicate 9 (AStep 1) ++
  [ATick 0 6000000 true].

(** The requests holding a permit: those of one handler's run, and
    those of the whole bot. *)
Definition run_in_flight (h : handler) : nat :=
  match h_phase h with HDispatching _ _ pool _ => sum_list_with holds_of pool | _ => 0 end.

Definition bot_in_flight (st : bot_state) : nat := sum_list_with run_in_flight (handlers st).

(** A network whose first source lists 90 distinct proxies, all of
    which pass the probe. *)
Definition list90 : string :=
  foldr (fun k acc => "10.1.0." +:+ str_nat k +:+ ":8080" +:+ newline +:+ acc) EmptyString (seq 0 90).

Definition env90 : env :=
  mk_env (fun u => if String.eqb u (nth 0 Config.PROXY_SOURCES EmptyString)
                   then HttpResponse 200 list90 else HttpRaised)
         all_up elements all_ok.

(** Chats 1 to 9 send a URL in turn; each handler scrapes, enters
    [process_views], and every task of its run takes a permit. *)
Definition ceiling_trace : list action :=
  flat_map (fun i => ARecv (Z.of_nat (S i)) demo_url :: replicate 93 (AStep i)) (seq 0 9).

Definition ceiling_state : bot_state := Eval vm_compute in run_state env90 ceiling_trace.

(** A [/start] message of chat 5. *)
Definition start_trace : list action := [ARecv 5 "/start"; AStep 0].

(** Handlers of [/start] messages stay at the start or are answered
    with the welcome text. *)
Definition start_ok (st : bot_state) : Prop :=
  forall i h, handlers st !! i = Some h -> is_start_command (h_text h) = true ->
  h_phase h = HStart \/ h_phase h = HDone (RWelcome Config.WELCOME_MESSAGE).

(** ** Lemmas on the handler steps *)

Lemma upd_lookup st i h ph j :
  handlers st !! i = Some h ->
  upd st i h ph !! j = if decide (i = j) then Some (with_phase h ph) else handlers st !! j.
Proof.
  intros Hi. unfold upd. case_decide; subst.
  - apply list_lookup_insert_eq. eapply lookup_lt_Some; eauto.
  - by apply list_lookup_insert_ne.
Qed.

Lemma length_upd st i h ph : length (upd st i h ph) = length (handlers st).
Proof. apply length_insert. Qed.

Lemma handler_next_sound E st st' i h :
  handlers st !! i = Some h -> handler_next E st i h = Some st' -> run_step E st st'.
Proof.
  intros Hi Hn. unfold handler_next in Hn.
  destruct (h_phase h) as [| | |ts|ts n pool shown|ts s| |r|r] eqn:Hp; simplify_eq;
    try solve [econstructor; eauto].
  - destruct (is_start_command (h_text h)) eqn:Hc; [simplify_eq; by econstructor|].
    destruct (active_tasks st !! h_chat h) eqn:Ha;
      [|destruct (validate_telegram_url _) eqn:Hv]; simplify_eq;
      econstructor; eauto using mk_is_Some.
  - destruct (run_scrape E (scr st)) as [sc'|sc' [|p w] msgs] eqn:Hs; simplify_eq;
      econstructor; eauto.
  - destruct (pv_init Config.THREAD_COUNT (counters st) ts) eqn:Hi'; simplify_eq;
      econstructor; eauto.
  - destruct (pv_next (mk_pv n pool (counters st))) as [ps'|] eqn:Hn'; simplify_eq.
    + econstructor; eauto using pv_next_sound.
    + case_decide; simplify_eq. econstructor; eauto.
Qed.

Lemma bot_exec_sound E a st st' : bot_exec E a st = Some st' -> bot_step E st st'.
Proof.
  destruct a as [c t|i|i|i t d]; simpl; intros H.
  - simplify_eq. apply b_receive.
  - destruct (handlers st !! i) eqn:Hi; simplify_eq/=. eauto using b_run, handler_next_sound.
  - destruct (handlers st !! i) as [h|] eqn:Hi; simpl in H; [|done].
    destruct (h_phase h) eqn:?; simplify_eq. apply b_run. econstructor; eauto.
  - destruct (handlers st !! i) as [h|] eqn:Hi; simpl in H; [|done].
    destruct (h_phase h) eqn:?; simplify_eq. eapply b_status_tick; eauto.
Qed.

Lemma bot_run_sound E acts st st' : bot_run E acts st = Some st' -> rtc (bot_step E) st st'.
Proof.
  revert st. induction acts as [|a acts IH]; intros st H; simpl in H.
  { by simplify_eq. }
  destruct (bot_exec E a st) eqn:He; simplify_eq/=.
  eapply rtc_l; eauto using bot_exec_sound.
Qed.

(** *** The ownership of [active_tasks] *)

Lemma bot_inv_init : bot_inv bot_init.
Proof. intros c n H. simpl in H. by rewrite lookup_empty in H. Qed.

Lemma bot_inv_upd st i h ph c0 s0 :
  bot_inv st -> handlers st !! i = Some h ->
  (registered (h_phase h) -> registered ph) ->
  bot_inv (mk_bot (active_tasks st) c0 s0 (upd st i h ph)).
Proof.
  intros Hinv Hi Hreg c n Hc. destruct (Hinv c n Hc) as (h' & Hn & Hch & Hr).
  simpl. rewrite (upd_lookup _ _ _ _ _ Hi). case_decide; subst; [|eauto].
  rewrite Hi in Hn. simplify_eq. eexists; split; [done|]. simpl; auto.
Qed.

Lemma bot_inv_register st i h ph c0 s0 :
  bot_inv st -> handlers st !! i = Some h -> ~ registered (h_phase h) -> registered ph ->
  bot_inv (mk_bot (<[h_chat h := i]> (active_tasks st)) c0 s0 (upd st i h ph)).
Proof.
  intros Hinv Hi Hnr Hr c n Hc; simpl in *. rewrite (upd_lookup _ _ _ _ _ Hi).
  destruct (decide (c = h_chat h)) as [->|Hne].
  - rewrite lookup_insert_eq in Hc. simplify_eq. rewrite decide_True by done. eauto.
  - rewrite lookup_insert_ne in Hc by done. destruct (Hinv c n Hc) as (h' & Hn & Hch & Hr').
    case_decide; [subst|eauto]. rewrite Hi in Hn; simplify_eq; contradiction.
Qed.

Lemma bot_inv_finally st i h r c0 s0 :
  bot_inv st -> handlers st !! i = Some h ->
  bot_inv (mk_bot (if decide (is_Some (active_tasks st !! h_chat h))
                   then delete (h_chat h) (active_tasks st) else active_tasks st)
                  c0 s0 (upd st i h (HDone r))).
Proof.
  intros Hinv Hi c n Hc; simpl in Hc.
  assert (active_tasks st !! c = Some n /\ c <> h_chat h) as [Hc' Hne].
  { case_decide as Hs.
    - apply lookup_delete_Some in Hc as [? ?]. split; [done|congruence].
    - split; [done|]. intros ->. apply Hs. by eexists. }
  destruct (Hinv c n Hc') as (h' & Hn & Hch & Hr).
  simpl. rewrite (upd_lookup _ _ _ _ _ Hi). destruct (decide (i = n)) as [->|]; [congruence|eauto].
Qed.

Lemma bot_inv_receive st chat text c0 s0 :
  bot_inv st -> bot_inv (mk_bot (active_tasks st) c0 s0 (handlers st ++ [mk_handler chat text HStart])).
Proof.
  intros Hinv c n Hc. destruct (Hinv c n Hc) as (h & Hn & ?). simpl.
  exists h. rewrite (lookup_app_l_Some _ _ _ _ Hn). done.
Qed.

Lemma bot_step_inv E st st' : bot_step E st st' -> bot_inv st -> bot_inv st'.
Proof.
  intros Hs Hinv. destruct Hs as [st st' Hs| |]; [destruct Hs| |];
    first [ by apply bot_inv_receive | by eapply bot_inv_finally
          | eapply bot_inv_register | eapply bot_inv_upd ]; eauto;
    try match goal with H : h_phase ?h = _ |- context [h_phase ?h] => rewrite H end;
    simpl; tauto.
Qed.

Lemma bot_reach_inv E st : rtc (bot_step E) bot_init st -> bot_inv st.
Proof.
  intros Hr. cut (bot_inv bot_init); [|apply bot_inv_init].
  induction Hr; eauto using bot_step_inv.
Qed.

(** ** Theorems on the handlers *)

(** C22. [active_tasks] holds no stale entry: in every reachable state of
    the bot, whatever messages arrived and however their handlers
    interleaved, each entry [chat -> n] belongs to a handler [n] of that
    chat which stored it and has not yet run its cleanup. *)
Theorem active_tasks_owned E st :
  rtc (bot_step E) bot_init st ->
  forall c n, active_tasks st !! c = Some n ->
  exists h, handlers st !! n = Some h /\ h_chat h = c /\ registered (h_phase h).
Proof. intros Hr. exact (bot_reach_inv E st Hr). Qed.

(** The handler 0 of chat 7 holds the entry after its scrape found
    proxies. *)
Lemma active_tasks_owned_witness :
  exists h, handlers (default bot_init (bot_run (demo_env all_ok) [ARecv 7 demo_url; AStep 0; AStep 0] bot_init)) !! 0 = Some h /\ h_chat h = 7%Z /\ registered (h_phase h).
Proof.
  apply (active_tasks_owned (demo_env all_ok)).
  - apply bot_run_sound with [ARecv 7 demo_url; AStep 0; AStep 0]. vm_compute. reflexivity.
  - vm_compute. reflexivity.
Defined.

Lemma run_state_reach E acts :
  is_Some (bot_run E acts bot_init) -> rtc (bot_step E) bot_init (run_state E acts).
Proof.
  intros [st Hst]. unfold run_state. rewrite Hst. simpl. by apply bot_run_sound with acts.
Qed.

(** C23. The busy check does not exclude two runs of one chat: the
    entry of [active_tasks] is stored only after the scrape (line 83),
    so a second message of the same chat that arrives while the first
    handler is scraping passes the check of line 152, and both handlers
    reach [process_views] together. *)
Theorem overlapping_runs_reachable :
  exists st, rtc (bot_step (demo_env all_ok)) bot_init st /\
  exists i j hi hj ts n pl sh ts' n' pl' sh', i <> j /\
    handlers st !! i = Some hi /\ handlers st !! j = Some hj /\ h_chat hi = h_chat hj /\
    h_phase hi = HDispatching ts n pl sh /\ h_phase hj = HDispatching ts' n' pl' sh'.
Proof.
  exists (run_state (demo_env all_ok) overlap_trace). split.
  - apply run_state_reach. vm_compute. by eexists.
  - exists 0, 1. vm_compute. do 10 eexists. repeat split; first [reflexivity | lia].
Qed.

(** C24. The cleanup of one run removes the entry of another: when two
    runs of a chat overlap, the first [finally] (lines 124-125) deletes
    the entry the second one stored, so while the second is still
    dispatching, [active_tasks] has no entry for the chat and a third
    message of the chat passes the busy check and starts scraping. *)
Theorem cleanup_unmarks_running_chat :
  exists st, rtc (bot_step (demo_env all_ok)) bot_init st /\
  exists h1 h2 ts n pl sh, handlers st !! 1 = Some h1 /\ handlers st !! 2 = Some h2 /\
    h_chat h1 = h_chat h2 /\ h_phase h1 = HDispatching ts n pl sh /\ h_phase h2 = HScraping /\
    active_tasks st !! h_chat h1 = None.
Proof.
  exists (run_state (demo_env all_ok) unmarked_trace). split.
  - apply run_state_reach. vm_compute. by eexists.
  - vm_compute. do 6 eexists. repeat split; reflexivity.
Qed.

(** C25. Runs of different chats corrupt each other's report: the
    counters are the one global [view_adder] (line 21), which every
    request of every run increments and every cleanup resets (line 126).
    In one execution the run of chat 2 reports more views than its own
    requests added, and the run of chat 1 fewer, because chat 2's
    cleanup zeroed the counters before chat 1 read them (line 104). *)
Theorem shared_counters_interfere :
  exists st, rtc (bot_step (demo_env all_ok)) bot_init st /\
  exists h1 h2 ts1 s1 ts2 s2, handlers st !! 0 = Some h1 /\ handlers st !! 1 = Some h2 /\
    h_chat h1 <> h_chat h2 /\
    h_phase h1 = HDone (RReport ts1 s1) /\ h_phase h2 = HDone (RReport ts2 s2) /\
    views_added s1 < views_added (spec_stats ts1) /\
    views_added (spec_stats ts2) < views_added s2.
Proof.
  exists (run_state (demo_env all_ok) interference_trace). split.
  - apply run_state_reach. vm_compute. by eexists.
  - vm_compute. do 6 eexists. repeat split; first [reflexivity | lia].
Qed.

(** *** An isolated run *)

Lemma single_handler st i h :
  length (handlers st) <= 1 -> handlers st !! i = Some h -> handlers st = [h] /\ i = 0.
Proof.
  intros Hlen Hi. destruct (handlers st) as [|h0 [|h1 l]]; simpl in *.
  - done.
  - destruct i; simpl in Hi; simplify_eq; auto.
  - lia.
Qed.

Lemma bot_step_length E st st' : bot_step E st st' -> length (handlers st) <= length (handlers st').
Proof.
  destruct 1 as [st st' Hs| |]; [destruct Hs| |]; simpl; rewrite ?length_upd, ?length_app; lia.
Qed.

Lemma shown_chain_nil b : shown_chain [] b.
Proof. exists []. split; [done|]. repeat constructor. Qed.

Lemma shown_chain_mono shown b b' : shown_chain shown b -> stats_le b b' -> shown_chain shown b'.
Proof.
  intros (ss & Hss & Hs) Hb. exists ss. split; [done|]. by apply (StronglySorted_snoc_mono stats_le ss b b').
Qed.

Lemma shown_chain_tick shown va t (d : bool) :
  shown_chain shown (get_stats va) ->
  shown_chain (shown ++ if d then option_list (update_status_message va t) else [])
              (get_stats va).
Proof.
  intros (ss & Hss & Hs).
  destruct d; [|by rewrite app_nil_r; exists ss].
  destruct (update_status_message va t) as [txt|] eqn:Hu; simpl; [|by rewrite app_nil_r; exists ss].
  exists (ss ++ [get_stats va]). rewrite !fmap_app, Hss. simpl.
  rewrite (read_status_update _ _ _ Hu). split; [done|]. by apply (StronglySorted_snoc_dup stats_le).
Qed.

Lemma single_run_step E st st' :
  run_step E st st' -> length (handlers st') <= 1 -> single_inv st -> single_inv st'.
Proof.
  intros Hs Hlen Hinv. unfold single_inv in *.
  destruct Hs as [st i h Hi Hp ? | st i h Hi Hp ? ? | st i h Hi Hp ? ? ? | st i h Hi Hp ? ? ?
    | st i h Hi Hp | st i h sc' Hi Hp ? | st i h sc' msgs Hi Hp ?
    | st i h sc' p w msgs Hi Hp ? | st i h Hi Hp | st i h ts ps Hi Hp Hps | st i h ts Hi Hp Hps
    | st i h ts n pool sh ps' Hi Hp Hstep | st i h ts n pool sh Hi Hp Hd
    | st i h ts s Hi Hp | st i h Hi Hp | st i h r Hi Hp]; simpl in *.
  all: rewrite length_upd in Hlen; destruct (single_handler _ _ _ Hlen Hi) as [Hh ->].
  all: unfold upd; rewrite Hh in *; simpl; unfold run_inv in *; simpl; rewrite Hp in *.
  all: try tauto.
  - destruct Hinv as [-> ->]. split; [apply insert_empty|done].
  - (* process_views entered: its pool starts from the reset counters *)
    destruct Hinv as [? Hc]. unfold pv_init, Config.THREAD_COUNT in Hps. simpl in Hps.
    injection Hps as <-. simpl. split; [done|]. split; [rewrite Hc; apply pv_inv_init|].
    apply shown_chain_nil.
  - unfold pv_init, Config.THREAD_COUNT in Hps. simpl in Hps. discriminate.
  - destruct Hinv as [? [Hpv Hsh]]. split; [done|].
    pose proof (pv_step_inv _ _ _ _ _ Hpv Hstep) as Hpv'. destruct ps'. split; [exact Hpv'|].
    eapply shown_chain_mono; [exact Hsh|exact (pv_step_shared_le _ _ Hstep)].
  - destruct Hinv as [? [Hpv _]]. split; [done|].
    split; [exact (pv_inv_done_seq _ _ _ _ Hpv Hd)|done].
  - destruct Hinv as (? & Hc & ->). split; [done|]. rewrite Hc.
    exact (store_run_spec (St:=view_adder) ts).
  - split; [|split; [done|]]; destruct r; try tauto; try (destruct Hinv as [Ha _]; rewrite Ha).
    all: try (rewrite decide_True by (rewrite lookup_singleton_eq; by eexists); apply delete_singleton_eq).
    all: try (rewrite decide_False by (rewrite lookup_empty; apply is_Some_None); done).
    all: tauto.
Qed.

Lemma single_step E st st' :
  bot_step E st st' -> length (handlers st') <= 1 -> single_inv st -> single_inv st'.
Proof.
  intros Hs Hlen Hinv. destruct Hs as [st st' Hs|st c t|st i h ts n pool sh t d Hi Hp].
  - by eapply single_run_step.
  - unfold single_inv in *. simpl in *. rewrite length_app in Hlen. simpl in Hlen.
    destruct (handlers st); simpl in *; [|lia]. by unfold run_inv.
  - unfold single_inv in *. simpl in *. rewrite length_upd in Hlen.
    destruct (single_handler _ _ _ Hlen Hi) as [Hh ->].
    unfold upd; rewrite Hh in *; simpl; unfold run_inv in *; simpl; rewrite Hp in *.
    destruct Hinv as [? [Hpv Hsh]]. do 2 (split; [done|]). by apply shown_chain_tick.
Qed.

Lemma single_reach E st :
  rtc (bot_step E) bot_init st -> length (handlers st) <= 1 -> single_inv st.
Proof.
  intros Hr. cut (length (handlers bot_init) <= 1 -> single_inv bot_init); [|by split].
  induction Hr as [|x y z Hs _ IH]; [done|]. intros Hx. apply IH. intros Hy.
  pose proof (bot_step_length _ _ _ Hs). eauto using single_step with lia.
Qed.

(** C26. A run alone is correct: when the bot has received a single
    message and its handler has finished, the report it sent (if it got
    that far) carries exactly the counters of its own requests from
    zero, [get_stats (process_views_seq init proxies)], and the handler
    has left [active_tasks] empty and the shared counters reset. *)
Theorem single_run_report E st h r :
  rtc (bot_step E) bot_init st -> handlers st = [h] -> h_phase h = HDone r ->
  (forall ts s, r = RReport ts s -> s = spec_stats ts) /\
  active_tasks st = ∅ /\ counters st = ViewAdder.init.
Proof.
  intros Hr Hh Hp. pose proof (single_reach E st Hr ltac:(rewrite Hh; simpl; lia)) as Hs.
  unfold single_inv, run_inv in Hs. rewrite Hh in Hs. simpl in Hs. rewrite Hp in Hs.
  destruct Hs as (? & ? & Hok). split; [|done]. intros ts s ->. exact Hok.
Qed.

Lemma single_run_report_witness :
  exists h r, handlers (run_state (demo_env all_ok) single_trace) = [h] /\ h_phase h = HDone r /\
  (forall ts s, r = RReport ts s -> s = spec_stats ts) /\
  active_tasks (run_state (demo_env all_ok) single_trace) = ∅ /\
  counters (run_state (demo_env all_ok) single_trace) = ViewAdder.init.
Proof.
  let v := eval vm_compute in (handlers (run_state (demo_env all_ok) single_trace)) in
  match v with
  | [?h] => exists h; eexists; split; [vm_compute; reflexivity|]; split; [reflexivity|];
            apply (single_run_report (demo_env all_ok) _ h)
  end.
  - apply run_state_reach. vm_compute. by eexists.
  - vm_compute. reflexivity.
  - reflexivity.
Defined.

(** *** Termination of the running handlers *)

Lemma measure_upd st i h ph a0 c0 s0 :
  handlers st !! i = Some h ->
  pre_rank ph < pre_rank (h_phase h) \/
  pre_rank ph = pre_rank (h_phase h) /\ post_rank ph < post_rank (h_phase h) ->
  slexprod nat nat lt lt (bot_measure (mk_bot a0 c0 s0 (upd st i h ph))) (bot_measure st).
Proof.
  intros Hi Hr. unfold bot_measure, upd; simpl.
  pose proof (sum_list_with_insert (fun h => pre_rank (h_phase h)) _ _ (with_phase h ph) _ Hi).
  pose proof (sum_list_with_insert (fun h => post_rank (h_phase h)) _ _ (with_phase h ph) _ Hi).
  simpl in *. destruct Hr as [?|[? ?]]; [apply left_slex; lia|].
  match goal with |- slexprod _ _ _ _ (?a, _) (?b, _) => replace a with b by lia end.
  apply right_slex; lia.
Qed.

Lemma run_step_decreases E st st' :
  run_step E st st' -> slexprod nat nat lt lt (bot_measure st') (bot_measure st).
Proof.
  destruct 1; (apply measure_upd; [done|]);
    match goal with H : h_phase _ = _ |- _ => rewrite H end; simpl;
    try match goal with
    | H : pv_init _ _ _ = Some _ |- _ => pose proof (pv_init_rank _ _ _ _ H)
    | H : pv_step _ _ |- _ => pose proof (pv_step_rank _ _ H)
    end; unfold pv_rank in *; simpl in *; lia.
Qed.

Lemma run_wf E : well_founded (fun st' st => run_step E st st').
Proof.
  apply (wf_projected (slexprod nat nat lt lt) bot_measure).
  - intros x y. apply run_step_decreases.
  - apply wf_slexprod; apply lt_wf.
Qed.

(** *** The semaphores of the runs *)

Lemma pools_ok_upd st i h ph a0 c0 s0 :
  pools_ok st -> handlers st !! i = Some h ->
  (forall ts n pool sh, ph = HDispatching ts n pool sh ->
   pool_ok (Z.to_nat Config.THREAD_COUNT) (mk_pv n pool c0)) ->
  pools_ok (mk_bot a0 c0 s0 (upd st i h ph)).
Proof.
  intros Hok Hi Hph j h' ts n pool sh Hj Hp. simpl in Hj. rewrite (upd_lookup _ _ _ _ _ Hi) in Hj.
  case_decide; [simplify_eq; by eapply Hph|]. exact (Hok j h' ts n pool sh Hj Hp).
Qed.

Lemma pools_ok_step E st st' : bot_step E st st' -> pools_ok st -> pools_ok st'.
Proof.
  intros Hs Hok. destruct Hs as [st st' Hs| st c t |st i h ts n pool sh t d Hi Hp];
    [destruct Hs as [| | | | | | | | |st i h ts ps Hi Hp Hps| |st i h ts n pool sh ps' Hi Hp Hstep| | | |]| |].
  all: try (apply pools_ok_upd; [done|done|]; intros ???? Heq; discriminate).
  - apply pools_ok_upd; [done|done|]. intros ???? [= <- <- <- <-].
    pose proof (pv_inv_pool _ _ _ _ (pv_init_inv _ _ _ _ Hps)) as Hpool. by destruct ps.
  - apply pools_ok_upd; [done|done|]. intros ???? [= <- <- <- <-].
    pose proof (pv_step_pool _ _ _ (Hok i h ts n pool sh Hi Hp) Hstep) as Hpool. by destruct ps'.
  - intros j h' ts n pool sh Hj Hp. simpl in Hj. apply lookup_app_Some in Hj as [Hj|[_ Hj]].
    + exact (Hok j h' ts n pool sh Hj Hp).
    + apply list_lookup_singleton_Some in Hj as [_ <-]. discriminate.
  - apply pools_ok_upd; [done|done|]. intros ???? [= <- <- <- <-].
    exact (Hok i h ts n pool sh Hi Hp).
Qed.

Lemma bot_reach_pools E st : rtc (bot_step E) bot_init st -> pools_ok st.
Proof.
  intros Hr. cut (pools_ok bot_init); [|intros i h ts n pool sh Hi; simpl in Hi; by rewrite lookup_nil in Hi].
  induction Hr; eauto using pools_ok_step.
Qed.

(** A handler that has not returned can move, unless its run waits in
    [asyncio.gather] on a pool that cannot move; with a positive
    [THREAD_COUNT] and a consistent pool, that does not happen. *)
Lemma handler_next_progress E st i h :
  pools_ok st -> handlers st !! i = Some h ->
  is_done (h_phase h) = false -> is_Some (handler_next E st i h).
Proof.
  intros Hok Hi Hd. unfold handler_next.
  destruct (h_phase h) as [| | | |ts n pool sh| | | |] eqn:Hp; simpl in Hd; try done;
    try (repeat case_match; by eexists).
  destruct (pv_next (mk_pv n pool (counters st))) eqn:Hn; [by eexists|].
  rewrite decide_True; [by eexists|].
  apply (pv_progress (Z.to_nat Config.THREAD_COUNT)); [exact (Hok i h ts n pool sh Hi Hp)| |].
  - unfold Config.THREAD_COUNT. lia.
  - by apply pv_next_terminal.
Qed.

(** C27. The handlers always finish: once messages stop arriving,
    every execution of the handlers' own steps ([run_step]; a wake-up of
    a status loop only redraws a text) from a reachable state of the bot
    is finite (each step moves a handler past its scrape or consumes one
    of the awaits left to it, three per proxy inside [process_views]),
    and it can only stop where every handler has returned: no run is
    left waiting in [asyncio.gather] for a permit of its
    [Semaphore(THREAD_COUNT)], since [THREAD_COUNT] is positive and
    every task gives its permit back. *)
Theorem handlers_terminate E :
  well_founded (fun st' st => run_step E st st') /\
  forall st, rtc (bot_step E) bot_init st -> (forall st', ~ run_step E st st') ->
  Forall (fun h => is_done (h_phase h) = true) (handlers st).
Proof.
  split; [apply run_wf|]. intros st Hr Hstuck. apply Forall_lookup_intro. intros i h Hi.
  destruct (is_done (h_phase h)) eqn:Hd; [done|].
  destruct (handler_next_progress E st i h (bot_reach_pools E st Hr) Hi Hd) as [st' Hn]. exfalso.
  apply (Hstuck st'). eauto using handler_next_sound.
Qed.

(** A bot whose handlers have all returned has no handler step left. *)
Lemma done_stuck E st :
  Forall (fun h => is_done (h_phase h) = true) (handlers st) -> forall st', ~ run_step E st st'.
Proof.
  intros Hall st' Hs. revert Hall. destruct Hs; intros Hall;
    match goal with Hi : handlers _ !! _ = Some ?h, Hp : h_phase ?h = _ |- _ =>
      pose proof (proj1 (Forall_lookup _ _) Hall _ _ Hi) as Hd; cbn beta in Hd;
      rewrite Hp in Hd; discriminate end.
Qed.

Lemma handlers_terminate_witness :
  rtc (bot_step (demo_env all_ok)) bot_init (run_state (demo_env all_ok) single_trace) /\
  (forall st', ~ run_step (demo_env all_ok) (run_state (demo_env all_ok) single_trace) st') /\
  Forall (fun h => is_done (h_phase h) = true) (handlers (run_state (demo_env all_ok) single_trace)).
Proof.
  assert (Hr : rtc (bot_step (demo_env all_ok)) bot_init (run_state (demo_env all_ok) single_trace)).
  { apply run_state_reach. vm_compute. by eexists. }
  assert (Hstuck : forall st', ~ run_step (demo_env all_ok) (run_state (demo_env all_ok) single_trace) st').
  { apply done_stuck. vm_compute. repeat constructor. }
  split; [exact Hr|]. split; [exact Hstuck|].
  exact (proj2 (handlers_terminate (demo_env all_ok)) _ Hr Hstuck).
Defined.

(** C14. The admission control of each run holds inside the bot: in
    every reachable state, whatever other chats do to the shared
    counters meanwhile, the value of a run's [Semaphore(THREAD_COUNT)]
    and the requests of that run holding a permit add up to
    [THREAD_COUNT], so a run never has more than [THREAD_COUNT]
    requests in flight. *)
Theorem run_permits_bounded E st :
  rtc (bot_step E) bot_init st ->
  forall i h ts n pool sh, handlers st !! i = Some h -> h_phase h = HDispatching ts n pool sh ->
  n + in_flight (mk_pv n pool (counters st)) = Z.to_nat Config.THREAD_COUNT.
Proof.
  intros Hr i h ts n pool sh Hi Hp. exact (proj1 (bot_reach_pools E st Hr i h ts n pool sh Hi Hp)).
Qed.

Lemma run_permits_bounded_witness :
  exists h ts n pool sh,
    handlers (run_state (demo_env all_ok) (ARecv 7 demo_url :: replicate 4 (AStep 0))) !! 0 = Some h /\
    h_phase h = HDispatching ts n pool sh /\ in_flight (mk_pv n pool ViewAdder.init) = 1 /\
    n + in_flight (mk_pv n pool (counters (run_state (demo_env all_ok) (ARecv 7 demo_url :: replicate 4 (AStep 0)))))
      = Z.to_nat Config.THREAD_COUNT.
Proof.
  assert (Hr : rtc (bot_step (demo_env all_ok)) bot_init
                 (run_state (demo_env all_ok) (ARecv 7 demo_url :: replicate 4 (AStep 0)))).
  { apply run_state_reach. vm_compute. by eexists. }
  let v := eval vm_compute in (handlers (run_state (demo_env all_ok) (ARecv 7 demo_url :: replicate 4 (AStep 0)))) in
  match v with
  | [?h] =>
      let ph := eval vm_compute in (h_phase h) in
      match ph with
      | HDispatching ?ts ?n ?pl ?sh =>
          exists h, ts, n, pl, sh; split; [vm_compute; reflexivity|]; split; [reflexivity|];
          split; [vm_compute; reflexivity|];
          apply (run_permits_bounded (demo_env all_ok) _ Hr 0 h ts n pl sh)
      end
  end.
  - vm_compute. reflexivity.
  - reflexivity.
Defined.

(** C16. The concurrency ceiling is per run, not global: each message
    creates its own [Semaphore(THREAD_COUNT)] inside [process_views],
    and runs of different chats overlap, so in a reachable state of the
    bot more than [THREAD_COUNT] requests hold a permit at once: here
    nine chats with 90 working proxies each have 810 requests in
    flight. *)
Theorem dispatch_ceiling_per_run :
  exists st, rtc (bot_step env90) bot_init st /\ Z.to_nat Config.THREAD_COUNT < bot_in_flight st.
Proof.
  exists ceiling_state. split.
  - apply (bot_run_sound env90 ceiling_trace). vm_compute. reflexivity.
  - vm_compute. lia.
Qed.

(** *** Dispatch only with proxies *)

Definition proxies_ok (st : bot_state) : Prop :=
  forall i h ts, handlers st !! i = Some h -> run_proxies (h_phase h) = Some ts -> ts <> [].

Lemma proxies_ok_upd st i h ph a0 c0 s0 :
  proxies_ok st -> handlers st !! i = Some h ->
  (forall ts, run_proxies ph = Some ts -> ts <> []) ->
  proxies_ok (mk_bot a0 c0 s0 (upd st i h ph)).
Proof.
  intros Hok Hi Hph j h' ts Hj Hts. simpl in Hj. rewrite (upd_lookup _ _ _ _ _ Hi) in Hj.
  case_decide; [simplify_eq; by apply Hph|eauto].
Qed.

Lemma proxies_ok_step E st st' : bot_step E st st' -> proxies_ok st -> proxies_ok st'.
Proof.
  intros Hs Hok. destruct Hs as [st st' Hs| st c t |]; [destruct Hs| |].
  all: try (apply proxies_ok_upd; [done|done|]; simpl; intros ts' Hts'; simplify_eq; try done;
            match goal with Hl : handlers _ !! _ = Some _, Hph : h_phase _ = _ |- _ =>
              by eapply (Hok _ _ _ Hl); rewrite Hph end).
  intros j h' ts Hj Hts. simpl in Hj. apply lookup_app_Some in Hj as [Hj|[_ Hj]]; [eauto|].
  apply list_lookup_singleton_Some in Hj as [_ <-]. done.
Qed.

(** C29. The bot never dispatches with an empty proxy set: in every
    reachable state, the proxy list a handler holds (from the store of
    [task_info] to its end) is non-empty, because an empty scrape result
    sends "No working proxies found" and returns (lines 74-76) before
    [process_views] is reached. *)
Theorem dispatch_only_with_proxies E st :
  rtc (bot_step E) bot_init st ->
  forall i h ts, handlers st !! i = Some h -> run_proxies (h_phase h) = Some ts -> ts <> [].
Proof.
  intros Hr. cut (proxies_ok bot_init); [|intros i h ts Hi; simpl in Hi; by rewrite lookup_nil in Hi].
  induction Hr; eauto using proxies_ok_step.
Qed.

Lemma dispatch_only_with_proxies_witness :
  exists h ts, handlers (run_state (demo_env all_ok) single_trace) !! 0 = Some h /\
  run_proxies (h_phase h) = Some ts /\ ts <> [].
Proof.
  assert (Hr : rtc (bot_step (demo_env all_ok)) bot_init (run_state (demo_env all_ok) single_trace)).
  { apply run_state_reach. vm_compute. by eexists. }
  let v := eval vm_compute in (handlers (run_state (demo_env all_ok) single_trace)) in
  match v with
  | [?h] => exists h; eexists; split; [vm_compute; reflexivity|]; split; [reflexivity|];
            apply (dispatch_only_with_proxies (demo_env all_ok) _ Hr 0 h)
  end.
  - vm_compute. reflexivity.
  - reflexivity.
Defined.

(** *** The live status of a run *)

(** C33. The live status of a run alone never goes backwards: while the
    only handler of the bot is inside [process_views], the counters its
    status loop has displayed (read back from the texts) form a chain
    that never decreases, field by field, and ends below the current
    counters, hence below the final report. *)
Theorem single_run_status_monotone E st h ts n pool shown :
  rtc (bot_step E) bot_init st -> handlers st = [h] -> h_phase h = HDispatching ts n pool shown ->
  exists ss, read_status <$> shown = Some <$> ss /\
    StronglySorted stats_le (ss ++ [get_stats (counters st)]).
Proof.
  intros Hr Hh Hp. pose proof (single_reach E st Hr ltac:(rewrite Hh; simpl; lia)) as Hs.
  unfold single_inv, run_inv in Hs. rewrite Hh in Hs. simpl in Hs. rewrite Hp in Hs.
  destruct Hs as (_ & _ & Hsh). exact Hsh.
Qed.

Lemma single_run_status_monotone_witness :
  exists h ts n pool shown, handlers (run_state (demo_env all_ok) ticking_trace) = [h] /\
  h_phase h = HDispatching ts n pool shown /\ length shown = 2 /\
  exists ss, read_status <$> shown = Some <$> ss /\
    StronglySorted stats_le (ss ++ [get_stats (counters (run_state (demo_env all_ok) ticking_trace))]).
Proof.
  assert (Hr : rtc (bot_step (demo_env all_ok)) bot_init (run_state (demo_env all_ok) ticking_trace)).
  { apply run_state_reach. vm_compute. by eexists. }
  let v := eval vm_compute in (handlers (run_state (demo_env all_ok) ticking_trace)) in
  match v with
  | [?h] => exists h; do 4 eexists; split; [vm_compute; reflexivity|]; split; [reflexivity|];
            split; [reflexivity|];
            eapply (single_run_status_monotone (demo_env all_ok) _ h _ _ _ _ Hr)
  end.
  - vm_compute. reflexivity.
  - reflexivity.
Defined.

(** C34. With two chats the live status goes backwards: the status
    loop of chat 1 shows its two views, then chat 2's cleanup resets the
    shared counters (line 126) and the next update of chat 1, still
    inside [process_views], shows fewer views than before. *)
Theorem status_goes_backwards :
  exists st, rtc (bot_step (demo_env all_ok)) bot_init st /\
  exists h ts n pool t1 t2 s1 s2, handlers st !! 0 = Some h /\
    h_phase h = HDispatching ts n pool [t1; t2] /\
    read_status t1 = Some s1 /\ read_status t2 = Some s2 /\ views_added s2 < views_added s1.
Proof.
  exists (run_state (demo_env all_ok) backwards_trace). split.
  { apply run_state_reach. vm_compute. by eexists. }
  let v := eval vm_compute in (handlers (run_state (demo_env all_ok) backwards_trace)) in
  match v with
  | ?h :: _ =>
      let ph := eval vm_compute in (h_phase h) in
      match ph with
      | HDispatching ?ts ?n ?pl [?t1; ?t2] =>
          let r1 := eval vm_compute in (read_status t1) in
          let r2 := eval vm_compute in (read_status t2) in
          match r1 with Some ?s1 => match r2 with Some ?s2 =>
            exists h, ts, n, pl, t1, t2, s1, s2 end end
      end
  end.
  repeat split; first [vm_compute; reflexivity | vm_compute; lia].
Qed.

(** *** [/start] messages *)

Lemma start_ok_upd st i h ph a0 c0 s0 :
  start_ok st -> handlers st !! i = Some h ->
  (is_start_command (h_text h) = true ->
   ph = HStart \/ ph = HDone (RWelcome Config.WELCOME_MESSAGE)) ->
  start_ok (mk_bot a0 c0 s0 (upd st i h ph)).
Proof.
  intros Hok Hi Hph j h' Hj Hc. simpl in Hj. rewrite (upd_lookup _ _ _ _ _ Hi) in Hj.
  case_decide; [simplify_eq; by apply Hph|eauto].
Qed.

Lemma start_ok_step E st st' : bot_step E st st' -> start_ok st -> start_ok st'.
Proof.
  intros Hs Hok. destruct Hs as [st st' Hs| st c t |]; [destruct Hs| |].
  all: try (apply start_ok_upd; [done|done|]; intros Hc;
            first [by right | destruct (Hok _ _ ltac:(eassumption) Hc); congruence]).
  intros j h' Hj Hc. simpl in Hj. apply lookup_app_Some in Hj as [Hj|[_ Hj]]; [eauto|].
  apply list_lookup_singleton_Some in Hj as [_ <-]. by left.
Qed.

(** C35. [/start] messages never reach [message_handler]: in every
    reachable state, the handler of a message whose command is [start]
    is either not yet run or has answered with [WELCOME_MESSAGE]; it is
    never rejected as busy or invalid, never scrapes and never enters
    [active_tasks]. *)
Theorem start_command_inert E st :
  rtc (bot_step E) bot_init st ->
  forall i h, handlers st !! i = Some h -> is_start_command (h_text h) = true ->
  h_phase h = HStart \/ h_phase h = HDone (RWelcome Config.WELCOME_MESSAGE).
Proof.
  intros Hr. cut (start_ok bot_init); [|intros i h Hi; simpl in Hi; by rewrite lookup_nil in Hi].
  induction Hr; eauto using start_ok_step.
Qed.

Lemma start_command_inert_witness :
  exists h, handlers (run_state (demo_env all_ok) start_trace) !! 0 = Some h /\
  is_start_command (h_text h) = true /\
  (h_phase h = HStart \/ h_phase h = HDone (RWelcome Config.WELCOME_MESSAGE)).
Proof.
  assert (Hr : rtc (bot_step (demo_env all_ok)) bot_init (run_state (demo_env all_ok) start_trace)).
  { apply run_state_reach. vm_compute. by eexists. }
  let v := eval vm_compute in (handlers (run_state (demo_env all_ok) start_trace)) in
  match v with
  | [?h] => exists h; split; [vm_compute; reflexivity|]; split; [reflexivity|];
            apply (start_command_inert (demo_env all_ok) _ Hr 0 h)
  end.
  - vm_compute. reflexivity.
  - reflexivity.
Defined.

End Bot.
